(** * inputmask-core: a shallow embedding of [Pattern] and [InputMask]

    The development follows the two classes of the library.

    - JavaScript values that the code manipulates are modelled directly:
      a number used as an index is a [Z] (selections may be negative or
      past the end, the code never checks them), a string is a [string]
      whose characters stand for code units, and an array of strings is a
      [list (option string)], where [None] is an unset entry ([undefined]
      or a hole of [new Array(n)]; [join] prints both as the empty
      string).
    - The numbers of the code are doubles. Its arithmetic on selections
      ([inputIndex + 1], [start--], [end--], [index--]) is the integer
      arithmetic of the model as long as the numbers are integers that a
      double holds exactly; from [2^53] on the code rounds, and a loop
      that counts down may not end. The model is the code on safe
      selections (see [safe_selection]); the theorems that would fail of
      the code beyond them assume them.
    - [Selection] objects are mutated in place and are shared between the
      engine and its history items by [undo] and [redo]
      ([this.selection = historyItem.selection]); they live in an explicit
      store and are named by locations.
    - [undo] and [redo] can raise a [TypeError] on a stale history index;
      their result type records it. *)

From Stdlib Require Import ZArith List String Ascii Bool Lia.
Import ListNotations.

Open Scope string_scope.
Open Scope list_scope.
Open Scope Z_scope.

(** ** JavaScript primitives *)

Definition jsval := option string.

Definition len {A : Type} (l : list A) : Z := Z.of_nat (List.length l).

Definition slen (s : string) : Z := Z.of_nat (String.length s).

(** [a[i]] on an array of strings: unset, negative and out of range indices
    all read as [undefined]. *)
Definition arr_get (a : list jsval) (i : Z) : jsval :=
  if i <? 0 then None
  else match nth_error a (Z.to_nat i) with
       | Some x => x
       | None => None
       end.

(** [a[i]] on an array whose entries are all set (the result of [split],
    the compiled pattern, the history). *)
Definition zth {A : Type} (a : list A) (i : Z) : option A :=
  if i <? 0 then None else nth_error a (Z.to_nat i).

Definition str_get (a : list string) (i : Z) : jsval := zth a i.

(** [a[n] = x]: an index past the end extends the array with holes. *)
Fixpoint set_nth (a : list jsval) (n : nat) (x : jsval) : list jsval :=
  match n, a with
  | O, [] => [x]
  | O, _ :: t => x :: t
  | S n', [] => None :: set_nth [] n' x
  | S n', h :: t => h :: set_nth t n' x
  end.

(** The engine only assigns at editable indices, which are never negative;
    an assignment at a negative index would not touch the array part. *)
Definition arr_set (a : list jsval) (i : Z) (x : jsval) : list jsval :=
  if i <? 0 then a else set_nth a (Z.to_nat i) x.

(** [s.split('')] *)
Fixpoint js_split (s : string) : list string :=
  match s with
  | EmptyString => []
  | String c r => String c EmptyString :: js_split r
  end.

Definition jsval_str (x : jsval) : string :=
  match x with
  | Some s => s
  | None => EmptyString
  end.

(** [a.join('')] *)
Fixpoint js_join (a : list jsval) : string :=
  match a with
  | [] => EmptyString
  | x :: r => String.append (jsval_str x) (js_join r)
  end.

(** [s.charAt(i)] *)
Definition charAt (s : string) (i : Z) : string :=
  if i <? 0 then EmptyString
  else match String.get (Z.to_nat i) s with
       | Some c => String c EmptyString
       | None => EmptyString
       end.

Fixpoint string_drop (n : nat) (s : string) : string :=
  match n, s with
  | O, _ => s
  | S n', String _ r => string_drop n' r
  | S _, EmptyString => EmptyString
  end.

(** [s.substring(n)] *)
Definition substring (s : string) (n : Z) : string :=
  string_drop (Z.to_nat n) s.

(** [a.splice(start, deleteCount)] for its effect on [a]. *)
Definition js_splice {A : Type} (a : list A) (start deleteCount : Z) : list A :=
  let l := len a in
  let actualStart := if start <? 0 then Z.max (l + start) 0 else Z.min start l in
  let dc := Z.min (Z.max deleteCount 0) (l - actualStart) in
  firstn (Z.to_nat actualStart) a ++ skipn (Z.to_nat (actualStart + dc)) a.

(** [a.splice(start)]: everything from [start] on is removed. *)
Definition js_splice_from {A : Type} (a : list A) (start : Z) : list A :=
  js_splice a start (len a).

(** [a.pop()] for its effect on [a]. *)
Definition js_pop {A : Type} (a : list A) : list A := removelast a.

(** [String(x)], as [RegExp.prototype.test] converts its argument. *)
Definition ToString (x : jsval) : string :=
  match x with
  | Some s => s
  | None => "undefined"
  end.

Definition jsval_eqb (x y : jsval) : bool :=
  match x, y with
  | Some a, Some b => String.eqb a b
  | None, None => true
  | _, _ => false
  end.

(** Modelled from the spec: [copy] of [./util] is not among the sources
    (the specification counts it among the "utility copies"). It is taken
    to return a new object with the fields of its argument. A [Selection]
    has numbers for fields, so its copy is the record itself, which enters
    the store when the engine starts to refer to it; the copy of the
    format characters is the same association list. *)
Definition copy {A : Type} (x : A) : A := x.

(** ** FormatCharacters *)

Record Format := {
  validate : jsval -> bool;
  transform : option (string -> string)
}.

(** An object from mask symbols to formats; the first binding of a key is
    the one in force. *)
Definition FormatCharacters := list (string * Format).

Fixpoint fc_lookup (fc : FormatCharacters) (k : string) : option Format :=
  match fc with
  | [] => None
  | (k', f) :: r => if String.eqb k' k then Some f else fc_lookup r k
  end.

Fixpoint fc_delete (fc : FormatCharacters) (k : string) : FormatCharacters :=
  match fc with
  | [] => []
  | (k', f) :: r => if String.eqb k' k then fc_delete r k else (k', f) :: fc_delete r k
  end.

Fixpoint fc_set (fc : FormatCharacters) (k : string) (f : Format) : FormatCharacters :=
  match fc with
  | [] => [(k, f)]
  | (k', f') :: r => if String.eqb k' k then (k, f) :: r else (k', f') :: fc_set r k f
  end.

Definition is_digit (c : ascii) : bool :=
  let n := nat_of_ascii c in (48 <=? n)%nat && (n <=? 57)%nat.

Definition is_upper (c : ascii) : bool :=
  let n := nat_of_ascii c in (65 <=? n)%nat && (n <=? 90)%nat.

Definition is_lower (c : ascii) : bool :=
  let n := nat_of_ascii c in (97 <=? n)%nat && (n <=? 122)%nat.

Definition is_letter (c : ascii) : bool := is_upper c || is_lower c.

(** A regular expression [/^[class]$/] tested against a string. *)
Definition single_char_test (cls : ascii -> bool) (s : string) : bool :=
  match s with
  | String c EmptyString => cls c
  | _ => false
  end.

Definition DIGIT_RE (x : jsval) : bool := single_char_test is_digit (ToString x).
Definition LETTER_RE (x : jsval) : bool := single_char_test is_letter (ToString x).
Definition ALPHANNUMERIC_RE (x : jsval) : bool :=
  single_char_test (fun c => is_digit c || is_letter c) (ToString x).

Definition upper_ascii (c : ascii) : ascii :=
  if is_lower c then ascii_of_nat (nat_of_ascii c - 32) else c.

(** [s.toUpperCase()]; exact on the letters and digits that the built-in
    validators accept, which are the only strings it is applied to. *)
Fixpoint toUpperCase (s : string) : string :=
  match s with
  | EmptyString => EmptyString
  | String c r => String (upper_ascii c) (toUpperCase r)
  end.

Definition DEFAULT_FORMAT_CHARACTERS : FormatCharacters :=
  [ ("*", {| validate := ALPHANNUMERIC_RE; transform := None |});
    ("1", {| validate := DIGIT_RE; transform := None |});
    ("a", {| validate := LETTER_RE; transform := None |});
    ("A", {| validate := LETTER_RE; transform := Some toUpperCase |});
    ("#", {| validate := ALPHANNUMERIC_RE; transform := Some toUpperCase |}) ].

(** The caller's overrides: a [null] definition removes the symbol. *)
Definition FormatOverrides := list (string * option Format).

Fixpoint merge_loop (merged : FormatCharacters) (chars : FormatOverrides) : FormatCharacters :=
  match chars with
  | [] => merged
  | (char, None) :: r => merge_loop (fc_delete merged char) r
  | (char, Some f) :: r => merge_loop (fc_set merged char f) r
  end.

Definition mergeFormatCharacters (formatCharacters : option FormatOverrides) : FormatCharacters :=
  let merged := copy DEFAULT_FORMAT_CHARACTERS in
  match formatCharacters with
  | Some o => merge_loop merged o
  | None => merged
  end.

(** ** Errors raised by the constructors *)

Inductive Error :=
| MissingPattern
| InvalidPlaceholder
| UnterminatedEscape
| EmptyPattern.

Inductive result (A : Type) :=
| Ok (a : A)
| Err (e : Error).
Arguments Ok {A} a.
Arguments Err {A} e.

(** ** Pattern *)

Definition ESCAPE_CHAR : string := String (ascii_of_nat 92) EmptyString.

Definition DEFAULT_PLACEHOLDER_CHAR : string := "_".

Module Pattern.

Record t := {
  placeholderChar : string;
  formatCharacters : FormatCharacters;
  source : string;
  pattern : list string;
  length : Z;
  firstEditableIndex : Z;
  lastEditableIndex : Z;
  _editableIndices : list Z;
  isRevealingMask : bool
}.

(** The fields that [_parse] builds up while it scans the source. *)
Record scan := {
  s_pattern : list string;
  s_firstEditableIndex : option Z;
  s_lastEditableIndex : option Z;
  s_editableIndices : list Z
}.

Definition scan0 : scan :=
  {| s_pattern := []; s_firstEditableIndex := None;
     s_lastEditableIndex := None; s_editableIndices := [] |}.

Definition push_literal (char : string) (st : scan) : scan :=
  {| s_pattern := s_pattern st ++ [char];
     s_firstEditableIndex := s_firstEditableIndex st;
     s_lastEditableIndex := s_lastEditableIndex st;
     s_editableIndices := s_editableIndices st |}.

Definition push_editable (char : string) (patternIndex : Z) (st : scan) : scan :=
  {| s_pattern := s_pattern st ++ [char];
     s_firstEditableIndex :=
       match s_firstEditableIndex st with
       | None => Some patternIndex
       | Some i => Some i
       end;
     s_lastEditableIndex := Some patternIndex;
     s_editableIndices := patternIndex :: s_editableIndices st |}.

(** The [for] loop of [_parse]; an escape consumes the next source
    character as well. *)
Fixpoint _parse_loop (fc : FormatCharacters) (sourceChars : list string)
         (patternIndex : Z) (st : scan) : result scan :=
  match sourceChars with
  | [] => Ok st
  | char :: rest =>
      if String.eqb char ESCAPE_CHAR then
        match rest with
        | [] => Err UnterminatedEscape
        | char' :: rest' =>
            _parse_loop fc rest' (patternIndex + 1) (push_literal char' st)
        end
      else
        match fc_lookup fc char with
        | Some _ =>
            _parse_loop fc rest (patternIndex + 1) (push_editable char patternIndex st)
        | None =>
            _parse_loop fc rest (patternIndex + 1) (push_literal char st)
        end
  end.

Definition _parse (fc : FormatCharacters) (source : string) : result scan :=
  match _parse_loop fc (js_split source) 0 scan0 with
  | Err e => Err e
  | Ok st =>
      match s_firstEditableIndex st with
      | None => Err EmptyPattern
      | Some _ => Ok st
      end
  end.

(** [new Pattern(source, formatCharacters, placeholderChar, isRevealingMask)];
    [placeholderChar || DEFAULT_PLACEHOLDER_CHAR] replaces the empty
    string by the default. *)
Definition new (source : string) (formatCharacters : FormatCharacters)
           (placeholderChar : string) (isRevealingMask : bool) : result t :=
  match _parse formatCharacters source with
  | Err e => Err e
  | Ok st =>
      Ok {| placeholderChar :=
              if String.eqb placeholderChar EmptyString then DEFAULT_PLACEHOLDER_CHAR
              else placeholderChar;
            formatCharacters := formatCharacters;
            source := source;
            pattern := s_pattern st;
            length := len (s_pattern st);
            firstEditableIndex :=
              match s_firstEditableIndex st with Some i => i | None => 0 end;
            lastEditableIndex :=
              match s_lastEditableIndex st with Some i => i | None => 0 end;
            _editableIndices := s_editableIndices st;
            isRevealingMask := isRevealingMask |}
  end.

Definition isEditableIndex (p : t) (index : Z) : bool :=
  existsb (Z.eqb index) (_editableIndices p).

(** The format of the symbol at [index]. The code reads
    [formatCharacters[pattern[index]]] only at editable indices, where
    the symbol is registered (see [wf_editable]); elsewhere the
    lookup would raise. *)
Definition format_at (p : t) (index : Z) : option Format :=
  match str_get (pattern p) index with
  | Some sym => fc_lookup (formatCharacters p) sym
  | None => None
  end.

Definition isValidAtIndex (p : t) (char : jsval) (index : Z) : bool :=
  match format_at p index with
  | Some f => validate f char
  | None => false
  end.

Definition transform (p : t) (char : string) (index : Z) : string :=
  match format_at p index with
  | Some f =>
      match transform f with
      | Some g => g char
      | None => char
      end
  | None => char
  end.

(** The [for] loop of [formatValue], with [n] the number of slots left.
    On [break] the remaining entries of [new Array(this.length)] stay
    unset. *)
Fixpoint formatValue_loop (p : t) (value : list string) (n : nat)
         (i : Z) (valueIndex : Z) : list jsval :=
  match n with
  | O => []
  | S n' =>
      if isEditableIndex p i then
        if isRevealingMask p && (len value <=? valueIndex)
           && negb (isValidAtIndex p (str_get value valueIndex) i)
        then repeat None n
        else
          (if (valueIndex <? len value) && isValidAtIndex p (str_get value valueIndex) i
           then Some (transform p (jsval_str (str_get value valueIndex)) i)
           else Some (placeholderChar p))
          :: formatValue_loop p value n' (i + 1) (valueIndex + 1)
      else
        str_get (pattern p) i
        :: formatValue_loop p value n' (i + 1)
             (if (valueIndex <? len value)
                 && jsval_eqb (str_get value valueIndex) (str_get (pattern p) i)
              then valueIndex + 1 else valueIndex)
  end.

Definition formatValue (p : t) (value : list string) : list jsval :=
  formatValue_loop p value (Z.to_nat (length p)) 0 0.

End Pattern.

(** ** Selection objects and their store *)

Record Selection := { start : Z; end_ : Z }.

Definition loc := nat.

Definition store := list Selection.

Definition deref (h : store) (l : loc) : Selection :=
  nth l h {| start := 0; end_ := 0 |}.

(** A new object is placed at the end of the store. *)
Definition alloc (h : store) (v : Selection) : store * loc :=
  (h ++ [v], List.length h).

Fixpoint store_set (h : store) (l : loc) (v : Selection) : store :=
  match h, l with
  | [], _ => []
  | _ :: t, O => v :: t
  | x :: t, S l' => x :: store_set t l' v
  end.

Module HistoryItem.

Record t := {
  value : string;
  selection : loc;
  lastOp : option string;
  startUndo : bool
}.

End HistoryItem.

(** What a call of [undo] or [redo] does: it returns a boolean, or it
    raises a [TypeError] ([historyItem] is [undefined]) and leaves the
    engine as it was at that point. *)
Inductive outcome (A : Type) :=
| Returns (b : bool) (s : A)
| Throws (s : A).
Arguments Returns {A} b s.
Arguments Throws {A} s.

(** The properties that a caller passes: [None] is a key that is absent
    (for [pattern], which is not optional, the value [null]). A
    [placeholderChar] key that is present with a value that is not a
    string, such as an explicit [undefined], is not represented: on it
    the constructor raises ([typeof options.placeholderChar !== 'string']),
    and in the model [options.placeholderChar] is always a string, the
    one given or the default. *)
Record InputMaskProps := {
  props_formatCharacters : option FormatOverrides;
  props_pattern : option string;
  props_isRevealingMask : option bool;
  props_placeholderChar : option string;
  props_selection : option Selection;
  props_value : option string
}.

(** ** InputMask *)

Module InputMask.

(** [_lastSelection] always holds a fresh copy that nothing else refers
    to and that is never mutated; it is kept by value. The same holds
    for the local copies [selectionBefore] and [initialState.selection],
    which enter the store when the engine starts to refer to them. *)
Record t := {
  heap : store;
  placeholderChar : string;
  formatCharacters : FormatCharacters;
  selection : loc;
  value : list jsval;
  pattern : Pattern.t;
  emptyValue : string;
  _historyIndex : option Z;
  _history : list HistoryItem.t;
  _lastOp : option string;
  _lastSelection : option Selection
}.

Definition with_heap (s : t) (h : store) : t :=
  {| heap := h; placeholderChar := placeholderChar s;
     formatCharacters := formatCharacters s; selection := selection s;
     value := value s; pattern := pattern s; emptyValue := emptyValue s;
     _historyIndex := _historyIndex s; _history := _history s;
     _lastOp := _lastOp s; _lastSelection := _lastSelection s |}.

Definition with_selection (s : t) (l : loc) : t :=
  {| heap := heap s; placeholderChar := placeholderChar s;
     formatCharacters := formatCharacters s; selection := l;
     value := value s; pattern := pattern s; emptyValue := emptyValue s;
     _historyIndex := _historyIndex s; _history := _history s;
     _lastOp := _lastOp s; _lastSelection := _lastSelection s |}.

Definition with_value (s : t) (v : list jsval) : t :=
  {| heap := heap s; placeholderChar := placeholderChar s;
     formatCharacters := formatCharacters s; selection := selection s;
     value := v; pattern := pattern s; emptyValue := emptyValue s;
     _historyIndex := _historyIndex s; _history := _history s;
     _lastOp := _lastOp s; _lastSelection := _lastSelection s |}.

Definition with_historyIndex (s : t) (i : option Z) : t :=
  {| heap := heap s; placeholderChar := placeholderChar s;
     formatCharacters := formatCharacters s; selection := selection s;
     value := value s; pattern := pattern s; emptyValue := emptyValue s;
     _historyIndex := i; _history := _history s;
     _lastOp := _lastOp s; _lastSelection := _lastSelection s |}.

Definition with_history (s : t) (h : list HistoryItem.t) : t :=
  {| heap := heap s; placeholderChar := placeholderChar s;
     formatCharacters := formatCharacters s; selection := selection s;
     value := value s; pattern := pattern s; emptyValue := emptyValue s;
     _historyIndex := _historyIndex s; _history := h;
     _lastOp := _lastOp s; _lastSelection := _lastSelection s |}.

Definition with_lastOp (s : t) (o : option string) : t :=
  {| heap := heap s; placeholderChar := placeholderChar s;
     formatCharacters := formatCharacters s; selection := selection s;
     value := value s; pattern := pattern s; emptyValue := emptyValue s;
     _historyIndex := _historyIndex s; _history := _history s;
     _lastOp := o; _lastSelection := _lastSelection s |}.

Definition with_lastSelection (s : t) (o : option Selection) : t :=
  {| heap := heap s; placeholderChar := placeholderChar s;
     formatCharacters := formatCharacters s; selection := selection s;
     value := value s; pattern := pattern s; emptyValue := emptyValue s;
     _historyIndex := _historyIndex s; _history := _history s;
     _lastOp := _lastOp s; _lastSelection := o |}.

(** The current contents of [this.selection]. *)
Definition sel (s : t) : Selection := deref (heap s) (selection s).

(** Assignments to [this.selection.start] and [this.selection.end]
    write the object in place: whatever else refers to it sees them. *)
Definition set_sel (s : t) (v : Selection) : t :=
  with_heap s (store_set (heap s) (selection s) v).

(** [this.selection = v] for an object [v] that nothing refers to yet. *)
Definition new_sel (s : t) (v : Selection) : t :=
  let (h, l) := alloc (heap s) v in
  with_selection (with_heap s h) l.

(** [this._history.push({value, selection, lastOp, startUndo})] for a
    selection object that nothing refers to yet. *)
Definition push_history (s : t) (v : string) (selection : Selection)
           (lastOp : option string) (startUndo : bool) : t :=
  let (h, l) := alloc (heap s) selection in
  with_history (with_heap s h)
    (_history s ++ [ {| HistoryItem.value := v; HistoryItem.selection := l;
                        HistoryItem.lastOp := lastOp;
                        HistoryItem.startUndo := startUndo |} ]).

Fixpoint getRawValue_loop (p : Pattern.t) (v : list jsval) (i : Z) : list jsval :=
  match v with
  | [] => []
  | x :: r =>
      if Pattern.isEditableIndex p i
      then x :: getRawValue_loop p r (i + 1)
      else getRawValue_loop p r (i + 1)
  end.

Definition getRawValue (s : t) : string :=
  js_join (getRawValue_loop (pattern s) (value s) 0).

Definition setValue (s : t) (v : string) : t :=
  with_value s (Pattern.formatValue (pattern s) (js_split v)).

(** In revealing mode [getValue] first rebuilds the buffer from the raw
    value. *)
Definition getValue (s : t) : string * t :=
  let s' := if Pattern.isRevealingMask (pattern s)
            then with_value s (Pattern.formatValue (pattern s) (js_split (getRawValue s)))
            else s in
  (js_join (value s'), s').

(** [while (end > lo) { if editable(end) value[end] = placeholder; end-- }] *)
Fixpoint blank_down (p : Pattern.t) (ph : string) (fuel : nat)
         (e lo : Z) (v : list jsval) : list jsval :=
  match fuel with
  | O => v
  | S f =>
      if e >? lo
      then blank_down p ph f (e - 1) lo
             (if Pattern.isEditableIndex p e then arr_set v e (Some ph) else v)
      else v
  end.

(** [while (length > start && !editable(start)) { start++; end++ }],
    entered with [start = end]. *)
Fixpoint skip_static (p : Pattern.t) (fuel : nat) (pos : Z) : Z :=
  match fuel with
  | O => pos
  | S f =>
      if (Pattern.length p >? pos) && negb (Pattern.isEditableIndex p pos)
      then skip_static p f (pos + 1)
      else pos
  end.

Definition opt_str_eqb (a : option string) (b : string) : bool :=
  match a with
  | Some x => String.eqb x b
  | None => false
  end.

(** The test that decides whether an edit starts a new history entry. *)
Definition starts_entry (s : t) (op : string) (selectionBefore : Selection) : bool :=
  negb (opt_str_eqb (_lastOp s) op)
  || negb (start selectionBefore =? end_ selectionBefore)
  || match _lastSelection s with
     | Some ls => negb (start selectionBefore =? start ls)
     | None => false
     end.

(** [input]. The sums and differences are those of the code on safe
    selections. *)
Definition input (s : t) (char : string) : bool * t :=
  if (start (sel s) =? end_ (sel s)) && (start (sel s) =? Pattern.length (pattern s))
  then (false, s)
  else
    let selectionBefore := copy (sel s) in
    let (valueBefore, s) := getValue s in
    let p := pattern s in
    let inputIndex := start (sel s) in
    let inputIndex :=
      if inputIndex <? Pattern.firstEditableIndex p
      then Pattern.firstEditableIndex p else inputIndex in
    if Pattern.isEditableIndex p inputIndex
       && negb (Pattern.isValidAtIndex p (Some char) inputIndex)
    then (false, s)
    else
      let s :=
        if Pattern.isEditableIndex p inputIndex
        then with_value s (arr_set (value s) inputIndex
                             (Some (Pattern.transform p char inputIndex)))
        else s in
      let e := end_ (sel s) - 1 in
      let s := with_value s
                 (blank_down p (placeholderChar s) (Z.to_nat (e - inputIndex))
                    e inputIndex (value s)) in
      let pos := skip_static p (Z.to_nat (Pattern.length p - (inputIndex + 1)))
                   (inputIndex + 1) in
      let s := set_sel s {| start := pos; end_ := pos |} in
      let s :=
        match _historyIndex s with
        | Some k =>
            with_historyIndex
              (with_history s (js_splice (_history s) k (len (_history s) - k)))
              None
        | None => s
        end in
      let s :=
        if starts_entry s "input" selectionBefore
        then push_history s valueBefore selectionBefore (_lastOp s) false
        else s in
      let s := with_lastOp s (Some "input") in
      let s := with_lastSelection s (Some (copy (sel s))) in
      (true, s).

(** [while (end >= start) { if editable(end) value[end] = placeholder; end-- }]
    is [blank_down] with the bound [start - 1]. The differences are those
    of the code on safe selections. *)
Definition backspace (s : t) : bool * t :=
  if (start (sel s) =? 0) && (end_ (sel s) =? 0)
  then (false, s)
  else
    let selectionBefore := copy (sel s) in
    let (valueBefore, s) := getValue s in
    let p := pattern s in
    let s :=
      if start (sel s) =? end_ (sel s) then
        let s :=
          if Pattern.isEditableIndex p (start (sel s) - 1) then
            if Pattern.isRevealingMask p
            then with_value s (js_splice_from (value s) (start (sel s) - 1))
            else with_value s (arr_set (value s) (start (sel s) - 1)
                                 (Some (placeholderChar s)))
          else s in
        set_sel s {| start := start (sel s) - 1; end_ := end_ (sel s) - 1 |}
      else
        let e := end_ (sel s) - 1 in
        let s := with_value s
                   (blank_down p (placeholderChar s)
                      (Z.to_nat (e - (start (sel s) - 1)))
                      e (start (sel s) - 1) (value s)) in
        set_sel s {| start := start (sel s); end_ := start (sel s) |} in
    let s :=
      match _historyIndex s with
      | Some k => with_history s (js_splice (_history s) k (len (_history s) - k))
      | None => s
      end in
    let s :=
      if starts_entry s "backspace" selectionBefore
      then push_history s valueBefore selectionBefore (_lastOp s) false
      else s in
    let s := with_lastOp s (Some "backspace") in
    let s := with_lastSelection s (Some (copy (sel s))) in
    (true, s).

(** The snapshot that [paste] takes on entry. The history array is
    copied with [slice]: the copy shares the history items, and with
    them their selection objects, with the engine. *)
Record snapshot := {
  snap_value : list jsval;
  snap_selection : Selection;
  snap_lastOp : option string;
  snap_history : list HistoryItem.t;
  snap_historyIndex : option Z;
  snap_lastSelection : option Selection
}.

Definition take_snapshot (s : t) : snapshot :=
  {| snap_value := value s;
     snap_selection := copy (sel s);
     snap_lastOp := _lastOp s;
     snap_history := _history s;
     snap_historyIndex := _historyIndex s;
     snap_lastSelection :=
       match _lastSelection s with
       | Some x => Some (copy x)
       | None => None
       end |}.

Definition restore_snapshot (s : t) (i : snapshot) : t :=
  let s := with_value s (snap_value i) in
  let s := new_sel s (snap_selection i) in
  let s := with_lastOp s (snap_lastOp i) in
  let s := with_history s (snap_history i) in
  let s := with_historyIndex s (snap_historyIndex i) in
  with_lastSelection s (snap_lastSelection i).

(** The first [for] loop of [paste]: [true] when the characters
    [0 .. l - 1] of the input are the pattern characters [0 .. l - 1]. *)
Fixpoint static_prefix_matches (p : Pattern.t) (pastedInput : string)
         (fuel : nat) (i l : Z) : bool :=
  match fuel with
  | O => true
  | S f =>
      if i <? l then
        if negb (jsval_eqb (Some (charAt pastedInput i)) (str_get (Pattern.pattern p) i))
        then false
        else static_prefix_matches p pastedInput f (i + 1) l
      else true
  end.

(** The second [for] loop of [paste]. *)
Fixpoint paste_loop (initialState : snapshot) (pastedInput : string)
         (fuel : nat) (i : Z) (s : t) : bool * t :=
  match fuel with
  | O => (true, s)
  | S f =>
      if (i <? slen pastedInput)
         && (start (sel s) <=? Pattern.lastEditableIndex (pattern s))
      then
        let (valid, s) := input s (charAt pastedInput i) in
        if valid then paste_loop initialState pastedInput f (i + 1) s
        else
          let patternIndex := start (sel s) - 1 in
          if (start (sel s) >? 0)
             && negb (Pattern.isEditableIndex (pattern s) patternIndex)
             && jsval_eqb (Some (charAt pastedInput i))
                  (str_get (Pattern.pattern (pattern s)) patternIndex)
          then paste_loop initialState pastedInput f (i + 1) s
          else (false, restore_snapshot s initialState)
      else (true, s)
  end.

Definition paste (s : t) (input : string) : bool * t :=
  let initialState := take_snapshot s in
  let p := pattern s in
  if start (sel s) <? Pattern.firstEditableIndex p then
    let l := Pattern.firstEditableIndex p - start (sel s) in
    if static_prefix_matches p input (Z.to_nat l) 0 l then
      let pastedInput := substring input l in
      let s := set_sel s {| start := Pattern.firstEditableIndex p;
                            end_ := end_ (sel s) |} in
      paste_loop initialState pastedInput (String.length pastedInput) 0 s
    else (false, s)
  else paste_loop initialState input (String.length input) 0 s.

(** [this.value = historyItem.value.split(''); this.selection =
    historyItem.selection; this._lastOp = historyItem.lastOp]: the
    engine now refers to the history item's own selection object. *)
Definition restore_item (s : t) (historyItem : HistoryItem.t) : t :=
  let s := with_value s (map Some (js_split (HistoryItem.value historyItem))) in
  let s := with_selection s (HistoryItem.selection historyItem) in
  with_lastOp s (HistoryItem.lastOp historyItem).

Definition opt_Z_eqb (a : option Z) (b : Z) : bool :=
  match a with
  | Some x => x =? b
  | None => false
  end.

Definition undo (s : t) : outcome t :=
  if (len (_history s) =? 0) || opt_Z_eqb (_historyIndex s) 0
  then Returns false s
  else
    match _historyIndex s with
    | None =>
        let s := with_historyIndex s (Some (len (_history s) - 1)) in
        match zth (_history s) (len (_history s) - 1) with
        | None => Throws s
        | Some historyItem =>
            let (v, s) := getValue s in
            let s :=
              if negb (String.eqb (HistoryItem.value historyItem) v)
                 || negb (start (deref (heap s) (HistoryItem.selection historyItem))
                          =? start (sel s))
                 || negb (end_ (deref (heap s) (HistoryItem.selection historyItem))
                          =? end_ (sel s))
              then push_history s v (copy (sel s)) (_lastOp s) true
              else s in
            Returns true (restore_item s historyItem)
        end
    | Some k =>
        let s := with_historyIndex s (Some (k - 1)) in
        match zth (_history s) (k - 1) with
        | None => Throws s
        | Some historyItem => Returns true (restore_item s historyItem)
        end
    end.

Definition redo (s : t) : outcome t :=
  if len (_history s) =? 0 then Returns false s
  else
    match _historyIndex s with
    | None => Returns false s
    | Some k =>
        let s := with_historyIndex s (Some (k + 1)) in
        let historyItem := zth (_history s) (k + 1) in
        match historyItem with
        | None => Throws s
        | Some historyItem =>
            let s :=
              if k + 1 =? len (_history s) - 1 then
                let s := with_historyIndex s None in
                if HistoryItem.startUndo historyItem
                then with_history s (js_pop (_history s))
                else s
              else s in
            Returns true (restore_item s historyItem)
        end
    end.

(** The [while] loop of [setSelection]: the index at which it breaks. The
    fuel is enough for a safe index, on which [index--] is exact; on an
    index that is no safe integer the loop of the code may not end. *)
Fixpoint find_cursor (s : t) (fuel : nat) (index : Z) : option Z :=
  match fuel with
  | O => None
  | S f =>
      if index >=? Pattern.firstEditableIndex (pattern s) then
        if (Pattern.isEditableIndex (pattern s) (index - 1)
            && negb (jsval_eqb (arr_get (value s) (index - 1))
                       (Some (placeholderChar s))))
           || (index =? Pattern.firstEditableIndex (pattern s))
        then Some index
        else find_cursor s f (index - 1)
      else None
  end.

Definition setSelection (s : t) (selection : Selection) : bool * t :=
  let s := new_sel s (copy selection) in
  if start (sel s) =? end_ (sel s) then
    let fei := Pattern.firstEditableIndex (pattern s) in
    if start (sel s) <? fei
    then (true, set_sel s {| start := fei; end_ := fei |})
    else
      let index := start (sel s) in
      match find_cursor s (Z.to_nat (index - fei + 1)) index with
      | Some index => (true, set_sel s {| start := index; end_ := index |})
      | None => (true, s)
      end
  else (false, s).

Definition _resetHistory (s : t) : t :=
  let s := with_history s [] in
  let s := with_historyIndex s None in
  let s := with_lastOp s None in
  with_lastSelection s (Some (copy (sel s))).

(** [setPattern], as the constructor calls it on an engine that has its
    [placeholderChar] and [formatCharacters] and, for the rest, the
    initial values of the class fields. *)
Definition setPattern (h : store) (placeholderChar : string)
           (formatCharacters : FormatCharacters) (pattern : string)
           (value : option string) (selection : option Selection)
           (isRevealingMask : bool) : result t :=
  match Pattern.new pattern formatCharacters placeholderChar isRevealingMask with
  | Err e => Err e
  | Ok p =>
      let selection :=
        match selection with
        | Some x => x
        | None => {| start := 0; end_ := 0 |}
        end in
      let (h, l) := alloc h selection in
      Ok (_resetHistory
            {| heap := h;
               placeholderChar := placeholderChar;
               formatCharacters := formatCharacters;
               selection := l;
               value := Pattern.formatValue p
                          (js_split (match value with Some v => v | None => EmptyString end));
               pattern := p;
               emptyValue := js_join (Pattern.formatValue p []);
               _historyIndex := None;
               _history := [];
               _lastOp := None;
               _lastSelection := None |})
  end.

Definition new (props : InputMaskProps) : result t :=
  match props_pattern props with
  | None => Err MissingPattern
  | Some pattern =>
      let placeholderChar :=
        match props_placeholderChar props with
        | Some c => c
        | None => DEFAULT_PLACEHOLDER_CHAR
        end in
      if slen placeholderChar >? 1 then Err InvalidPlaceholder
      else
        setPattern [] placeholderChar
          (mergeFormatCharacters (props_formatCharacters props))
          pattern
          (props_value props)
          (props_selection props)
          (match props_isRevealingMask props with Some b => b | None => false end)
  end.

End InputMask.

(** * Vocabulary of the specification *)

(** ** Pattern compilation as the specification words it

    The source is scanned from left to right. An escape character followed
    by any character gives a literal slot holding that character; an
    escape character that ends the source is an error; a registered symbol
    gives an editable slot; any other character gives a literal slot. *)

Inductive slot :=
| Literal (c : string)
| Editable (c : string).

Definition slot_char (x : slot) : string :=
  match x with
  | Literal c => c
  | Editable c => c
  end.

Definition slot_editable (x : slot) : bool :=
  match x with
  | Literal _ => false
  | Editable _ => true
  end.

Fixpoint resolve (fc : FormatCharacters) (src : list string) : result (list slot) :=
  match src with
  | [] => Ok []
  | c :: rest =>
      if String.eqb c ESCAPE_CHAR then
        match rest with
        | [] => Err UnterminatedEscape
        | c' :: rest' =>
            match resolve fc rest' with
            | Ok l => Ok (Literal c' :: l)
            | Err e => Err e
            end
        end
      else
        match resolve fc rest with
        | Ok l =>
            Ok ((match fc_lookup fc c with
                 | Some _ => Editable c
                 | None => Literal c
                 end) :: l)
        | Err e => Err e
        end
  end.

(** The number of escape pairs of a source: each one collapses to one
    slot. *)
Fixpoint escape_pairs (src : list string) : Z :=
  match src with
  | [] => 0
  | c :: rest =>
      if String.eqb c ESCAPE_CHAR then
        match rest with
        | [] => 0
        | _ :: rest' => 1 + escape_pairs rest'
        end
      else escape_pairs rest
  end.

(** The scan state after the slots [slots] have been emitted from index
    [idx] on. *)
Fixpoint scan_extend (st : Pattern.scan) (idx : Z) (slots : list slot) : Pattern.scan :=
  match slots with
  | [] => st
  | Literal c :: r => scan_extend (Pattern.push_literal c st) (idx + 1) r
  | Editable c :: r => scan_extend (Pattern.push_editable c idx st) (idx + 1) r
  end.

(** Every slot holds one character, and an editable slot holds a
    registered symbol. *)
Definition slot_ok (fc : FormatCharacters) (x : slot) : Prop :=
  String.length (slot_char x) = 1%nat /\
  (slot_editable x = true -> exists f, fc_lookup fc (slot_char x) = Some f).

(** What holds of the scan state at any point of the loop of [_parse]. *)
Record scan_inv (fc : FormatCharacters) (st : Pattern.scan) (idx : Z) : Prop := {
  si_idx : idx = len (Pattern.s_pattern st);
  si_editable :
    forall i, In i (Pattern.s_editableIndices st) ->
              0 <= i < idx /\
              exists sym f, zth (Pattern.s_pattern st) i = Some sym /\
                            fc_lookup fc sym = Some f;
  si_first :
    match Pattern.s_firstEditableIndex st with
    | None => Pattern.s_editableIndices st = []
    | Some a => In a (Pattern.s_editableIndices st) /\
                forall i, In i (Pattern.s_editableIndices st) -> a <= i
    end;
  si_last :
    match Pattern.s_lastEditableIndex st with
    | None => Pattern.s_editableIndices st = []
    | Some b => forall i, In i (Pattern.s_editableIndices st) -> i <= b
    end;
  si_chars : Forall (fun c => String.length c = 1%nat) (Pattern.s_pattern st)
}.

(** ** Well-formed compiled patterns *)

Record wf_pattern (p : Pattern.t) : Prop := {
  wf_length : Pattern.length p = len (Pattern.pattern p);
  wf_editable :
    forall i, Pattern.isEditableIndex p i = true ->
              0 <= i < Pattern.length p /\ exists f, Pattern.format_at p i = Some f;
  wf_first : Pattern.isEditableIndex p (Pattern.firstEditableIndex p) = true;
  wf_bounds :
    forall i, Pattern.isEditableIndex p i = true ->
              Pattern.firstEditableIndex p <= i <= Pattern.lastEditableIndex p;
  wf_chars : Forall (fun c => String.length c = 1%nat) (Pattern.pattern p)
}.

(** ** Engines and what can be observed of them *)

(** Constructor arguments that give the pattern and leave the rest to
    the defaults. *)
Definition props_of (pattern : string) : InputMaskProps :=
  {| props_formatCharacters := None;
     props_pattern := Some pattern;
     props_isRevealingMask := None;
     props_placeholderChar := None;
     props_selection := None;
     props_value := None |}.

(** A history item with its selection object read from the store. *)
Definition item_view (h : store) (i : HistoryItem.t)
  : string * Selection * option string * bool :=
  (HistoryItem.value i, deref h (HistoryItem.selection i),
   HistoryItem.lastOp i, HistoryItem.startUndo i).

Definition history_view (s : InputMask.t)
  : list (string * Selection * option string * bool) :=
  map (item_view (InputMask.heap s)) (InputMask._history s).

(** The test that the loop of [setSelection] makes on the slot left of
    the index: the slot is editable and its entry is not the engine's
    placeholder. An unset entry passes it, and so does the pattern's
    placeholder when the engine's is another one. *)
Definition not_placeholder (s : InputMask.t) (i : Z) : Prop :=
  Pattern.isEditableIndex (InputMask.pattern s) i = true /\
  arr_get (InputMask.value s) i <> Some (InputMask.placeholderChar s).


(** The engine and its pattern have the same placeholder, and no editable
    slot of the buffer is unset. *)
Definition settled (s : InputMask.t) : bool :=
  String.eqb (InputMask.placeholderChar s) (Pattern.placeholderChar (InputMask.pattern s))
  && forallb (fun i => match arr_get (InputMask.value s) i with
                       | Some _ => true
                       | None => false
                       end)
             (Pattern._editableIndices (InputMask.pattern s)).

(** [valueIndex] when the loop of [formatValue] reaches slot [i] without
    having stopped: [n] slots from [i] on are walked. *)
Fixpoint valueIndex_loop (p : Pattern.t) (value : list string) (n : nat)
         (i valueIndex : Z) : Z :=
  match n with
  | O => valueIndex
  | S n' =>
      valueIndex_loop p value n' (i + 1)
        (if Pattern.isEditableIndex p i then valueIndex + 1
         else if (valueIndex <? len value)
                 && jsval_eqb (str_get value valueIndex) (str_get (Pattern.pattern p) i)
              then valueIndex + 1 else valueIndex)
  end.

Definition valueIndex_at (p : Pattern.t) (value : list string) (i : nat) : Z :=
  valueIndex_loop p value i 0 0.

(** The loop of [formatValue] stops at slot [i]: the mask is revealing,
    the slot is editable, the candidate characters are used up, and the
    slot's validator rejects [undefined]. *)
Definition stops_at (p : Pattern.t) (value : list string) (i : nat) : Prop :=
  Pattern.isEditableIndex p (Z.of_nat i) = true /\
  len value <= valueIndex_at p value i /\
  Pattern.isValidAtIndex p None (Z.of_nat i) = false.

(** The same pattern with the revealing mode switched off. *)
Definition concealed (p : Pattern.t) : Pattern.t :=
  {| Pattern.placeholderChar := Pattern.placeholderChar p;
     Pattern.formatCharacters := Pattern.formatCharacters p;
     Pattern.source := Pattern.source p;
     Pattern.pattern := Pattern.pattern p;
     Pattern.length := Pattern.length p;
     Pattern.firstEditableIndex := Pattern.firstEditableIndex p;
     Pattern.lastEditableIndex := Pattern.lastEditableIndex p;
     Pattern._editableIndices := Pattern._editableIndices p;
     Pattern.isRevealingMask := false |}.

(** ** Operations and reachable states *)

Inductive op :=
| Input (char : string)
| Backspace
| Paste (input : string)
| Undo
| Redo
| SetSelection (selection : Selection)
| SetValue (value : string)
| GetValue.

(** The engine after a call of [undo] or [redo], whether it returned or
    raised. *)
Definition state_of (o : outcome InputMask.t) : InputMask.t :=
  match o with
  | Returns _ s => s
  | Throws s => s
  end.

(** The engine after one call. *)
Definition step (o : op) (s : InputMask.t) : InputMask.t :=
  match o with
  | Input char => snd (InputMask.input s char)
  | Backspace => snd (InputMask.backspace s)
  | Paste input => snd (InputMask.paste s input)
  | Undo => state_of (InputMask.undo s)
  | Redo => state_of (InputMask.redo s)
  | SetSelection selection => snd (InputMask.setSelection s selection)
  | SetValue value => InputMask.setValue s value
  | GetValue => snd (InputMask.getValue s)
  end.

(** The engine after a sequence of calls, the first of the list first. *)
Definition run (ops : list op) (s : InputMask.t) : InputMask.t :=
  fold_left (fun s o => step o s) ops s.

(** The calls [input] and [backspace]. *)
Definition is_keystroke (o : op) : bool :=
  match o with
  | Input _ | Backspace => true
  | _ => false
  end.

(** What a format stores for an accepted character. *)
Definition apply_format (f : Format) (c : string) : string :=
  match transform f with
  | Some g => g c
  | None => c
  end.

(** Every accepted character is stored as one character. *)
Definition one_char_formats (fc : FormatCharacters) : Prop :=
  forall sym f c,
    fc_lookup fc sym = Some f -> validate f (Some c) = true ->
    String.length (apply_format f c) = 1%nat.

(** The invariant of the value buffer, as the specification states it:
    the buffer has one entry per slot, a literal slot holds the pattern's
    character, and an editable slot holds the placeholder or what the
    slot's format stores for a character that its validator accepts. *)
Definition buffer_ok (s : InputMask.t) : Prop :=
  let p := InputMask.pattern s in
  len (InputMask.value s) = Pattern.length p /\
  (forall i, 0 <= i < Pattern.length p -> Pattern.isEditableIndex p i = false ->
             arr_get (InputMask.value s) i = str_get (Pattern.pattern p) i) /\
  (forall i, Pattern.isEditableIndex p i = true ->
             arr_get (InputMask.value s) i = Some (InputMask.placeholderChar s) \/
             exists c, Pattern.isValidAtIndex p (Some c) i = true /\
                       arr_get (InputMask.value s) i = Some (Pattern.transform p c i)).

(** An entry that slot [i] of the pattern may hold. *)
Definition good_entry (p : Pattern.t) (i : Z) (x : jsval) : Prop :=
  exists c,
    x = Some c /\ String.length c = 1%nat /\
    if Pattern.isEditableIndex p i
    then c = Pattern.placeholderChar p \/
         exists c0, Pattern.isValidAtIndex p (Some c0) i = true /\
                    c = Pattern.transform p c0 i
    else str_get (Pattern.pattern p) i = Some c.

Definition good_buffer (p : Pattern.t) (v : list jsval) : Prop :=
  len v = Pattern.length p /\
  forall i, 0 <= i < Pattern.length p -> good_entry p i (arr_get v i).

(** A history item whose value, split again, is a good buffer. *)
Definition good_item (p : Pattern.t) (h : HistoryItem.t) : Prop :=
  good_buffer p (map Some (js_split (HistoryItem.value h))).

(** What never changes in an engine that is not revealing, has a
    placeholder of one character and stores one character per slot. *)
Record static_ok (p : Pattern.t) (ph : string) : Prop := {
  st_wf : wf_pattern p;
  st_rev : Pattern.isRevealingMask p = false;
  st_ph : ph = Pattern.placeholderChar p;
  st_ph1 : String.length ph = 1%nat;
  st_fmt : forall i c, Pattern.isEditableIndex p i = true ->
                       Pattern.isValidAtIndex p (Some c) i = true ->
                       String.length (Pattern.transform p c i) = 1%nat
}.

(** The invariant of the engine. *)
Record engine_ok (s : InputMask.t) : Prop := {
  ok_static : static_ok (InputMask.pattern s) (InputMask.placeholderChar s);
  ok_value : good_buffer (InputMask.pattern s) (InputMask.value s);
  ok_history : Forall (good_item (InputMask.pattern s)) (InputMask._history s)
}.

(** Two engines with the same pattern and the same placeholder. *)
Definition same_static (s s' : InputMask.t) : Prop :=
  InputMask.pattern s' = InputMask.pattern s /\
  InputMask.placeholderChar s' = InputMask.placeholderChar s.

(** Every accepted character is stored as one character, which the same
    validator accepts and the same transform leaves alone. *)
Definition faithful_formats (fc : FormatCharacters) : Prop :=
  forall sym f c,
    fc_lookup fc sym = Some f -> validate f (Some c) = true ->
    String.length (apply_format f c) = 1%nat /\
    validate f (Some (apply_format f c)) = true /\
    apply_format f (apply_format f c) = apply_format f c.

(** No editable slot accepts the placeholder as a character. *)
Definition placeholder_rejected (p : Pattern.t) : bool :=
  forallb (fun i => negb (Pattern.isValidAtIndex p (Some (Pattern.placeholderChar p)) i))
          (Pattern._editableIndices p).

(** The literal [c] at index [i] is not the placeholder and no editable
    slot after [i] accepts it. *)
Definition literal_apart (p : Pattern.t) (i : Z) (c : string) : bool :=
  negb (String.eqb c (Pattern.placeholderChar p))
  && forallb (fun j => negb (i <? j) || negb (Pattern.isValidAtIndex p (Some c) j))
             (Pattern._editableIndices p).

Fixpoint literals_apart_from (p : Pattern.t) (l : list string) (i : Z) : bool :=
  match l with
  | [] => true
  | c :: r =>
      (Pattern.isEditableIndex p i || literal_apart p i c)
      && literals_apart_from p r (i + 1)
  end.

(** Every literal of the pattern is apart from the slots that follow
    it. *)
Definition literals_apart (p : Pattern.t) : bool :=
  literals_apart_from p (Pattern.pattern p) 0.

(** An entry that [formatValue] gives back when it is fed to it. *)
Definition stable_entry (p : Pattern.t) (i : Z) (x : jsval) : Prop :=
  exists c,
    x = Some c /\ String.length c = 1%nat /\
    if Pattern.isEditableIndex p i
    then (c = Pattern.placeholderChar p /\ Pattern.isValidAtIndex p (Some c) i = false) \/
         (Pattern.isValidAtIndex p (Some c) i = true /\ Pattern.transform p c i = c)
    else str_get (Pattern.pattern p) i = Some c.

(** The characters of the raw value that the entries [rest], which sit at
    the indices from [i] on, contribute. *)
Definition raw_chars (p : Pattern.t) (rest : list jsval) (i : Z) : list string :=
  js_split (js_join (InputMask.getRawValue_loop p rest i)).

(** ** Undo and redo *)

(** [undo()] called until it returns [false]: the engine it leaves, if
    [fuel] calls are enough and none raises. *)
Fixpoint undo_until_false (fuel : nat) (s : InputMask.t) : option InputMask.t :=
  match fuel with
  | O => None
  | S f =>
      match InputMask.undo s with
      | Returns true s' => undo_until_false f s'
      | Returns false s' => Some s'
      | Throws _ => None
      end
  end.

(** [redo()] called until it returns [false]. *)
Fixpoint redo_until_false (fuel : nat) (s : InputMask.t) : option InputMask.t :=
  match fuel with
  | O => None
  | S f =>
      match InputMask.redo s with
      | Returns true s' => redo_until_false f s'
      | Returns false s' => Some s'
      | Throws _ => None
      end
  end.

(** The last history item was taken at a selection other than the
    current one: before it if the last edit was an [input], after it (or
    at a range that has since collapsed) if it was a [backspace]. *)
Definition last_differs (s : InputMask.t) : Prop :=
  forall pre h,
    InputMask._history s = pre ++ [h] ->
    let hs := deref (InputMask.heap s) (HistoryItem.selection h) in
    (InputMask._lastOp s = Some "input" /\ start hs < start (InputMask.sel s)) \/
    (InputMask._lastOp s = Some "backspace" /\
     (start (InputMask.sel s) < start hs \/
      (start (InputMask.sel s) = start hs /\ end_ (InputMask.sel s) <> end_ hs))).

(** What holds of an engine that is not revealing after [input] and
    [backspace] calls only: it is not undoing, the selection object of the
    engine is none of the history items' objects, and the last history
    item differs from the current state. *)
Record keys_ok (s : InputMask.t) : Prop := {
  ko_rev : Pattern.isRevealingMask (InputMask.pattern s) = false;
  ko_index : InputMask._historyIndex s = None;
  ko_sel : (InputMask.selection s < List.length (InputMask.heap s))%nat;
  ko_items : Forall (fun h => (HistoryItem.selection h < List.length (InputMask.heap s))%nat /\
                              HistoryItem.selection h <> InputMask.selection s)
                    (InputMask._history s);
  ko_last : last_differs s
}.

(** What an accepted [input] or [backspace] does to an engine that is
    not undoing: the selection object is written in place with [ns], and
    a history item for the state before is pushed or not. *)
Definition edit_effect (s r : InputMask.t) (opname : string) (ns : Selection) : Prop :=
  InputMask.pattern r = InputMask.pattern s /\
  InputMask._historyIndex r = None /\
  InputMask._lastOp r = Some opname /\
  InputMask.selection r = InputMask.selection s /\
  ((InputMask.starts_entry s opname (InputMask.sel s) = true /\
    InputMask.heap r = store_set (InputMask.heap s) (InputMask.selection s) ns
                       ++ [InputMask.sel s] /\
    InputMask._history r =
      InputMask._history s
      ++ [ {| HistoryItem.value := js_join (InputMask.value s);
              HistoryItem.selection := List.length (InputMask.heap s);
              HistoryItem.lastOp := InputMask._lastOp s;
              HistoryItem.startUndo := false |} ]) \/
   (InputMask.starts_entry s opname (InputMask.sel s) = false /\
    InputMask.heap r = store_set (InputMask.heap s) (InputMask.selection s) ns /\
    InputMask._history r = InputMask._history s)).

(** ** Aliasing of the selection object *)

(** Everything that can be read off an engine: the claims about
    [paste] name these six parts. *)
Definition state_view (s : InputMask.t) :=
  (InputMask.value s, InputMask.sel s, history_view s,
   InputMask._historyIndex s, InputMask._lastOp s, InputMask._lastSelection s).

(** The engine's selection object is none of the history items'
    objects. [undo] and [redo] are the operations that break this. *)
Definition unaliased (s : InputMask.t) : Prop :=
  (InputMask.selection s < List.length (InputMask.heap s))%nat /\
  Forall (fun h => (HistoryItem.selection h < List.length (InputMask.heap s))%nat /\
                   HistoryItem.selection h <> InputMask.selection s)
         (InputMask._history s).

(** How [input] and [backspace] change the store and the history: the
    selection object is written in place, at most one object is added,
    and a history item is an old one or the one just pushed. *)
Definition edit_shape (s r : InputMask.t) : Prop :=
  InputMask.selection r = InputMask.selection s /\
  exists ns,
    (InputMask.heap r = InputMask.heap s \/
     InputMask.heap r = store_set (InputMask.heap s) (InputMask.selection s) ns \/
     exists x, InputMask.heap r =
               store_set (InputMask.heap s) (InputMask.selection s) ns ++ [x]) /\
    forall h, In h (InputMask._history r) ->
              In h (InputMask._history s) \/
              HistoryItem.selection h = List.length (InputMask.heap s) /\
              List.length (InputMask.heap r) = S (List.length (InputMask.heap s)).

(** The store of [r] extends that of [s] and agrees with it away from the
    engine's selection object. *)
Definition frame (s r : InputMask.t) : Prop :=
  InputMask.selection r = InputMask.selection s /\
  (List.length (InputMask.heap s) <= List.length (InputMask.heap r))%nat /\
  forall l, (l < List.length (InputMask.heap s))%nat -> l <> InputMask.selection s ->
            deref (InputMask.heap r) l = deref (InputMask.heap s) l.

(** The operations other than [undo] and [redo]. *)
Definition no_replay (o : op) : bool :=
  match o with
  | Undo | Redo => false
  | _ => true
  end.

(** ** Safe integers

    The code computes selections with JavaScript numbers, which are
    doubles; the model computes with integers. The two agree on the
    integers that a double holds exactly, those of absolute value up to
    [2^53]; beyond them [x + 1] and [x - 1] round in the code, so that a
    cursor may stay where it is or move by two. A selection is safe when
    both its ends are at most [2^52] in absolute value: what the code
    adds to or takes from such a number (one, the length of the pattern,
    the length of a pasted string, which is kept below [2^52] as well)
    gives a number that a double holds exactly. The theorems that speak
    of cursor positions are stated for safe selections. *)

Definition safe_integer (x : Z) : bool := (- 2 ^ 52 <=? x) && (x <=? 2 ^ 52).

Definition safe_selection (x : Selection) : bool :=
  safe_integer (start x) && safe_integer (end_ x).

(** Every selection object of the store is safe: the engine's and the
    history items'. *)
Definition safe_state (s : InputMask.t) : bool :=
  forallb safe_selection (InputMask.heap s).

Definition safe_op (o : op) : bool :=
  match o with
  | SetSelection selection => safe_selection selection
  | Paste input => slen input <=? 2 ^ 52
  | _ => true
  end.

(** The calls [ops] on the engine [s] have safe arguments and meet none
    but safe states. *)
Fixpoint safe_along (ops : list op) (s : InputMask.t) : bool :=
  safe_state s &&
  match ops with
  | [] => true
  | o :: r => safe_op o && safe_along r (step o s)
  end.

(** ** Overrides of the format characters *)

(** What the overrides say last about the symbol [k]: a definition, a
    removal ([Some None]), or nothing. *)
Fixpoint last_override (o : FormatOverrides) (k : string) : option (option Format) :=
  match o with
  | [] => None
  | (k', d) :: r =>
      match last_override r k with
      | Some x => Some x
      | None => if String.eqb k' k then Some d else None
      end
  end.

(** ** Allocation of the selection objects *)

(** The engine and its history items refer to objects of the store. *)
Definition allocated (s : InputMask.t) : Prop :=
  (InputMask.selection s < List.length (InputMask.heap s))%nat /\
  Forall (fun h => (HistoryItem.selection h < List.length (InputMask.heap s))%nat)
         (InputMask._history s).

(** ** Typing a string *)

(** [input] called on the characters of [str] in turn, for as long as the
    cursor has not passed the last editable slot. *)
Fixpoint type_string (str : string) (s : InputMask.t) : InputMask.t :=
  match str with
  | EmptyString => s
  | String c r =>
      if start (InputMask.sel s) <=? Pattern.lastEditableIndex (InputMask.pattern s)
      then type_string r (snd (InputMask.input s (String c EmptyString)))
      else s
  end.

(** Every one of these calls returns [true]. *)
Fixpoint all_accepted (str : string) (s : InputMask.t) : bool :=
  match str with
  | EmptyString => true
  | String c r =>
      if start (InputMask.sel s) <=? Pattern.lastEditableIndex (InputMask.pattern s)
      then fst (InputMask.input s (String c EmptyString))
           && all_accepted r (snd (InputMask.input s (String c EmptyString)))
      else true
  end.

(** ** Runs of typing *)

(** The history item that the first accepted [input] on the engine [s0]
    pushes, with its selection object at [l]. *)
Definition first_item (s0 : InputMask.t) (l : loc) : HistoryItem.t :=
  {| HistoryItem.value := js_join (InputMask.value s0);
     HistoryItem.selection := l;
     HistoryItem.lastOp := InputMask._lastOp s0;
     HistoryItem.startUndo := false |}.

(** The engine [s] after [input] calls on [s0]: none was accepted yet, or
    the history holds the one item of the first that was, and the cursor
    is where the last one left it. *)
Definition typing (s0 s : InputMask.t) : Prop :=
  s = s0 \/
  exists l,
    InputMask._history s = [first_item s0 l] /\
    deref (InputMask.heap s) l = InputMask.sel s0 /\
    InputMask._lastOp s = Some "input" /\
    InputMask._lastSelection s = Some (InputMask.sel s) /\
    start (InputMask.sel s) = end_ (InputMask.sel s).

(** ** Counting editable slots *)

(** The number of editable slots among the [n] slots from [i] on. *)
Fixpoint editable_count (p : Pattern.t) (n : nat) (i : Z) : Z :=
  match n with
  | O => 0
  | S n' => (if Pattern.isEditableIndex p i then 1 else 0) + editable_count p n' (i + 1)
  end.

Definition editable_slots (p : Pattern.t) : Z :=
  editable_count p (Z.to_nat (Pattern.length p)) 0.

(** * Properties *)

(** ** Lists, strings and the store *)

Lemma len_nonneg {A : Type} (l : list A) : 0 <= len l.
Proof. unfold len. lia. Qed.

Lemma len_app {A : Type} (l1 l2 : list A) : len (l1 ++ l2) = len l1 + len l2.
Proof. unfold len. rewrite length_app. lia. Qed.

Lemma len_cons {A : Type} (x : A) (l : list A) : len (x :: l) = 1 + len l.
Proof. unfold len. simpl List.length. lia. Qed.

Lemma len_nil {A : Type} : len (@nil A) = 0.
Proof. reflexivity. Qed.

Lemma zth_nil {A : Type} (i : Z) : zth (@nil A) i = None.
Proof. unfold zth. destruct (i <? 0); [reflexivity|]. destruct (Z.to_nat i); reflexivity. Qed.

Lemma zth_cons_0 {A : Type} (x : A) (l : list A) : zth (x :: l) 0 = Some x.
Proof. reflexivity. Qed.

Lemma zth_cons_pos {A : Type} (x : A) (l : list A) (i : Z) :
  0 < i -> zth (x :: l) i = zth l (i - 1).
Proof.
  intros H. unfold zth.
  destruct (i <? 0) eqn:E1; [apply Z.ltb_lt in E1; lia|].
  destruct (i - 1 <? 0) eqn:E2; [apply Z.ltb_lt in E2; lia|].
  replace (Z.to_nat i) with (S (Z.to_nat (i - 1))) by lia. reflexivity.
Qed.

Lemma zth_cons_succ {A : Type} (x : A) (l : list A) (i : Z) :
  0 <= i -> zth (x :: l) (i + 1) = zth l i.
Proof. intros H. rewrite zth_cons_pos by lia. f_equal. lia. Qed.

Lemma zth_Some_range {A : Type} (l : list A) (i : Z) (x : A) :
  zth l i = Some x -> 0 <= i < len l.
Proof.
  unfold zth, len. destruct (i <? 0) eqn:E; [discriminate|].
  apply Z.ltb_ge in E. intros H.
  assert (Z.to_nat i < List.length l)%nat by (apply nth_error_Some; congruence).
  lia.
Qed.

Lemma zth_in_range {A : Type} (l : list A) (i : Z) :
  0 <= i < len l -> exists x, zth l i = Some x.
Proof.
  unfold zth, len. intros H.
  destruct (i <? 0) eqn:E; [apply Z.ltb_lt in E; lia|].
  destruct (nth_error l (Z.to_nat i)) eqn:N; [eauto|].
  apply nth_error_None in N. lia.
Qed.

Lemma zth_app_l {A : Type} (l1 l2 : list A) (i : Z) :
  i < len l1 -> zth (l1 ++ l2) i = zth l1 i.
Proof.
  unfold zth, len. intros H. destruct (i <? 0) eqn:E; [reflexivity|].
  apply Z.ltb_ge in E. apply nth_error_app1. lia.
Qed.

Lemma zth_app_r {A : Type} (l1 l2 : list A) (i : Z) :
  len l1 <= i -> zth (l1 ++ l2) i = zth l2 (i - len l1).
Proof.
  unfold zth, len. intros H.
  destruct (i <? 0) eqn:E; [apply Z.ltb_lt in E; lia|].
  destruct (i - Z.of_nat (List.length l1) <? 0) eqn:E2; [apply Z.ltb_lt in E2; lia|].
  rewrite nth_error_app2 by lia. f_equal. lia.
Qed.

Lemma slen_split (s : string) : len (js_split s) = slen s.
Proof.
  unfold len, slen. f_equal. induction s; simpl; [reflexivity|]. now rewrite IHs.
Qed.

Lemma split_chars (s : string) :
  Forall (fun c => String.length c = 1%nat) (js_split s).
Proof. induction s; simpl; constructor; auto. Qed.

(** ** The scan of [_parse] *)

(** Induction on a list two elements at a time, as the scan consumes an
    escape pair. *)
Lemma list_ind2 {A : Type} (P : list A -> Prop) :
  P [] -> (forall x, P [x]) ->
  (forall x y l, P l -> P (y :: l) -> P (x :: y :: l)) ->
  forall l, P l.
Proof.
  intros H0 H1 H2.
  assert (H : forall l, P l /\ forall x, P (x :: l)).
  { induction l as [|y l [IH1 IH2]]; split; auto. }
  intros l. apply H.
Qed.

Section Scan.

Variable fc : FormatCharacters.

Lemma resolve_error (src : list string) :
  forall e, resolve fc src = Err e -> e = UnterminatedEscape.
Proof.
  induction src as [|x|x y l IHl IHyl] using list_ind2; intros e.
  - discriminate.
  - simpl. destruct (String.eqb x ESCAPE_CHAR); [congruence|discriminate].
  - remember (y :: l) as rest eqn:E. simpl. destruct (String.eqb x ESCAPE_CHAR).
    + subst rest. destruct (resolve fc l) eqn:R; [discriminate|].
      intros H. apply IHl. congruence.
    + destruct (resolve fc rest) eqn:R; [discriminate|].
      intros H. apply IHyl. congruence.
Qed.

Lemma parse_loop_resolve (src : list string) :
  forall idx st,
    Pattern._parse_loop fc src idx st =
    match resolve fc src with
    | Ok slots => Ok (scan_extend st idx slots)
    | Err e => Err e
    end.
Proof.
  induction src as [|x|x y l IHl IHyl] using list_ind2; intros idx st.
  - reflexivity.
  - simpl. destruct (String.eqb x ESCAPE_CHAR); [reflexivity|].
    destruct (fc_lookup fc x); reflexivity.
  - remember (y :: l) as rest eqn:E. simpl. destruct (String.eqb x ESCAPE_CHAR).
    + subst rest. rewrite IHl. destruct (resolve fc l); reflexivity.
    + destruct (fc_lookup fc x); rewrite IHyl;
        destruct (resolve fc rest); reflexivity.
Qed.

Lemma resolve_length (src : list string) :
  forall slots, resolve fc src = Ok slots -> len slots = len src - escape_pairs src.
Proof.
  induction src as [|x|x y l IHl IHyl] using list_ind2; intros slots.
  - cbn [resolve escape_pairs]. intros H. inversion H. reflexivity.
  - cbn [resolve escape_pairs]. destruct (String.eqb x ESCAPE_CHAR); [discriminate|].
    intros H. inversion H. reflexivity.
  - remember (y :: l) as rest eqn:E. cbn [resolve escape_pairs].
    destruct (String.eqb x ESCAPE_CHAR).
    + subst rest. destruct (resolve fc l) eqn:R; [|discriminate].
      intros H. inversion H. rewrite !len_cons, (IHl _ eq_refl). lia.
    + destruct (resolve fc rest) eqn:R; [|discriminate].
      intros H. inversion H. rewrite len_cons, (IHyl _ eq_refl), (len_cons x). lia.
Qed.

Lemma slot_ok_symbol (x : string) :
  String.length x = 1%nat ->
  slot_ok fc (match fc_lookup fc x with
           | Some _ => Editable x
           | None => Literal x
           end).
Proof.
  intros Hx. destruct (fc_lookup fc x) eqn:L; split; simpl; eauto; discriminate.
Qed.

Lemma resolve_slots_ok (src : list string) :
  forall slots,
    Forall (fun c => String.length c = 1%nat) src ->
    resolve fc src = Ok slots -> Forall (slot_ok fc) slots.
Proof.
  induction src as [|x|x y l IHl IHyl] using list_ind2; intros slots Hc.
  - simpl. intros H. inversion H. constructor.
  - simpl. destruct (String.eqb x ESCAPE_CHAR); [discriminate|].
    intros H. inversion H. inversion Hc; subst.
    constructor; [now apply slot_ok_symbol|constructor].
  - inversion Hc as [|? ? Hx Hc']; subst. inversion Hc' as [|? ? Hy Hl]; subst.
    remember (y :: l) as rest eqn:E. simpl. destruct (String.eqb x ESCAPE_CHAR).
    + subst rest. destruct (resolve fc l) eqn:R; [|discriminate].
      intros H. inversion H. constructor.
      * split; [exact Hy|]. simpl. discriminate.
      * now apply IHl.
    + destruct (resolve fc rest) eqn:R; [|discriminate].
      intros H. inversion H. constructor; [now apply slot_ok_symbol|].
      now apply IHyl.
Qed.

Lemma scan_extend_pattern (slots : list slot) :
  forall st idx,
    Pattern.s_pattern (scan_extend st idx slots) =
    Pattern.s_pattern st ++ map slot_char slots.
Proof.
  induction slots as [|x r IH]; intros st idx; simpl.
  - now rewrite app_nil_r.
  - destruct x; rewrite IH; simpl; rewrite <- app_assoc; reflexivity.
Qed.

Lemma scan_extend_editable (slots : list slot) :
  forall st idx i,
    In i (Pattern.s_editableIndices (scan_extend st idx slots)) <->
    In i (Pattern.s_editableIndices st) \/
    (idx <= i /\ exists c, zth slots (i - idx) = Some (Editable c)).
Proof.
  induction slots as [|x r IH]; intros st idx i; simpl.
  - split; [auto|]. intros [H|[_ [c H]]]; [exact H|]. rewrite zth_nil in H. discriminate.
  - destruct x as [c|c]; rewrite IH; simpl.
    + split.
      * intros [H|[H1 [c' H2]]]; [auto|]. right. split; [lia|]. exists c'.
        rewrite zth_cons_pos by lia. rewrite <- H2. f_equal. lia.
      * intros [H|[H1 [c' H2]]]; [auto|]. right.
        assert (i <> idx) by (intros ->; rewrite Z.sub_diag in H2; discriminate).
        split; [lia|]. exists c'. rewrite zth_cons_pos in H2 by lia.
        rewrite <- H2. f_equal. lia.
    + split.
      * intros [[H|H]|[H1 [c' H2]]]; [subst|auto|].
        -- right. split; [lia|]. exists c. now rewrite Z.sub_diag.
        -- right. split; [lia|]. exists c'. rewrite zth_cons_pos by lia.
           rewrite <- H2. f_equal. lia.
      * intros [H|[H1 [c' H2]]]; [auto|].
        destruct (Z.eq_dec i idx) as [->|Hne]; [auto|].
        right. split; [lia|]. exists c'. rewrite zth_cons_pos in H2 by lia.
        rewrite <- H2. f_equal. lia.
Qed.

Lemma scan_extend_first_None (slots : list slot) :
  forall st idx,
    Pattern.s_firstEditableIndex (scan_extend st idx slots) = None <->
    Pattern.s_firstEditableIndex st = None /\ existsb slot_editable slots = false.
Proof.
  induction slots as [|x r IH]; intros st idx; simpl.
  - tauto.
  - destruct x as [c|c]; rewrite IH; simpl; [tauto|].
    destruct (Pattern.s_firstEditableIndex st); split; intros [H1 H2]; discriminate.
Qed.

Lemma scan_inv_0 : scan_inv fc Pattern.scan0 0.
Proof.
  constructor; simpl; auto; try reflexivity. intros i [].
Qed.

Lemma scan_inv_literal (st : Pattern.scan) (idx : Z) (c : string) :
  String.length c = 1%nat -> scan_inv fc st idx ->
  scan_inv fc (Pattern.push_literal c st) (idx + 1).
Proof.
  intros Hc [H1 H2 H3 H4 H5]. constructor; simpl.
  - rewrite len_app, len_cons, len_nil. lia.
  - intros i Hi. destruct (H2 i Hi) as [Hr [sym [f [Hs Hf]]]].
    split; [lia|]. exists sym, f. split; [|exact Hf].
    rewrite zth_app_l by lia. exact Hs.
  - exact H3.
  - exact H4.
  - apply Forall_app. split; [exact H5|]. constructor; [exact Hc|constructor].
Qed.

Lemma scan_inv_editable (st : Pattern.scan) (idx : Z) (c : string) (f : Format) :
  String.length c = 1%nat -> fc_lookup fc c = Some f -> scan_inv fc st idx ->
  scan_inv fc (Pattern.push_editable c idx st) (idx + 1).
Proof.
  intros Hc Hf [H1 H2 H3 H4 H5]. pose proof (len_nonneg (Pattern.s_pattern st)) as Hn.
  constructor; simpl.
  - rewrite len_app, len_cons, len_nil. lia.
  - intros i [Hi|Hi].
    + subst i. split; [lia|]. exists c, f. split; [|exact Hf].
      rewrite zth_app_r by lia. rewrite H1, Z.sub_diag. reflexivity.
    + destruct (H2 i Hi) as [Hr [sym [f' [Hs Hf']]]].
      split; [lia|]. exists sym, f'. split; [|exact Hf'].
      rewrite zth_app_l by lia. exact Hs.
  - destruct (Pattern.s_firstEditableIndex st) as [a|].
    + destruct H3 as [Ha Hmin]. split; [auto|].
      intros i [Hi|Hi]; [subst; destruct (H2 a Ha); lia|auto].
    + rewrite H3. split; [auto|]. intros i [Hi|[]]. lia.
  - intros i [Hi|Hi]; [lia|]. destruct (H2 i Hi). lia.
  - apply Forall_app. split; [exact H5|]. constructor; [exact Hc|constructor].
Qed.

Lemma scan_inv_extend (slots : list slot) :
  Forall (slot_ok fc) slots ->
  forall st idx, scan_inv fc st idx -> scan_inv fc (scan_extend st idx slots) (idx + len slots).
Proof.
  induction 1 as [|x r [Hx1 Hx2] Hr IH]; intros st idx Hinv; simpl.
  - rewrite len_nil, Z.add_0_r. exact Hinv.
  - rewrite len_cons, Z.add_assoc. destruct x as [c|c]; apply IH.
    + apply scan_inv_literal; assumption.
    + destruct (Hx2 eq_refl) as [f Hf]. eapply scan_inv_editable; eassumption.
Qed.

End Scan.

Lemma existsb_Zeqb_In (i : Z) (l : list Z) : existsb (Z.eqb i) l = true <-> In i l.
Proof.
  rewrite existsb_exists. split.
  - intros [x [Hx He]]. apply Z.eqb_eq in He. now subst.
  - intros H. exists i. split; [exact H|apply Z.eqb_refl].
Qed.

(** What [Pattern.new] returns, in terms of the scan of the source. *)
Lemma new_inversion (source : string) (fc : FormatCharacters) (ph : string)
      (rev : bool) (p : Pattern.t) :
  Pattern.new source fc ph rev = Ok p ->
  exists slots a b,
    resolve fc (js_split source) = Ok slots /\
    Pattern.s_firstEditableIndex (scan_extend Pattern.scan0 0 slots) = Some a /\
    Pattern.s_lastEditableIndex (scan_extend Pattern.scan0 0 slots) = b /\
    p = {| Pattern.placeholderChar :=
             if String.eqb ph EmptyString then DEFAULT_PLACEHOLDER_CHAR else ph;
           Pattern.formatCharacters := fc;
           Pattern.source := source;
           Pattern.pattern := Pattern.s_pattern (scan_extend Pattern.scan0 0 slots);
           Pattern.length := len (Pattern.s_pattern (scan_extend Pattern.scan0 0 slots));
           Pattern.firstEditableIndex := a;
           Pattern.lastEditableIndex := match b with Some i => i | None => 0 end;
           Pattern._editableIndices :=
             Pattern.s_editableIndices (scan_extend Pattern.scan0 0 slots);
           Pattern.isRevealingMask := rev |}.
Proof.
  unfold Pattern.new, Pattern._parse. rewrite parse_loop_resolve.
  destruct (resolve fc (js_split source)) as [slots|e]; [|discriminate].
  destruct (Pattern.s_firstEditableIndex (scan_extend Pattern.scan0 0 slots)) as [a|] eqn:F;
    [|discriminate].
  intros H. inversion H; subst.
  exists slots, a, (Pattern.s_lastEditableIndex (scan_extend Pattern.scan0 0 slots)).
  rewrite F. repeat split; reflexivity.
Qed.

Lemma new_wf (source : string) (fc : FormatCharacters) (ph : string)
      (rev : bool) (p : Pattern.t) :
  Pattern.new source fc ph rev = Ok p -> wf_pattern p.
Proof.
  intros H. destruct (new_inversion _ _ _ _ _ H) as [slots [a [b [R [F [L ->]]]]]].
  pose proof (resolve_slots_ok fc _ _ (split_chars source) R) as Hok.
  pose proof (scan_inv_extend fc slots Hok _ _ (scan_inv_0 fc)) as [I1 I2 I3 I4 I5].
  rewrite F in I3. destruct I3 as [Ha Hmin].
  constructor; simpl.
  - reflexivity.
  - intros i Hi. unfold Pattern.isEditableIndex in Hi. simpl in Hi.
    apply existsb_Zeqb_In in Hi. destruct (I2 i Hi) as [Hr [sym [f [Hs Hf]]]].
    split; [lia|]. exists f. unfold Pattern.format_at, str_get. simpl.
    rewrite Hs. exact Hf.
  - unfold Pattern.isEditableIndex. simpl. apply existsb_Zeqb_In. exact Ha.
  - intros i Hi. unfold Pattern.isEditableIndex in Hi. simpl in Hi.
    apply existsb_Zeqb_In in Hi. split; [auto|].
    rewrite L in I4. destruct b as [b|].
    + auto.
    + rewrite I4 in Hi. destruct Hi.
  - exact I5.
Qed.

Lemma resolve_app (fc : FormatCharacters) (pre : list string) :
  forall slots rest,
    resolve fc pre = Ok slots ->
    resolve fc (pre ++ rest) =
    match resolve fc rest with
    | Ok l => Ok (slots ++ l)
    | Err e => Err e
    end.
Proof.
  induction pre as [|x|x y l IHl IHyl] using list_ind2; intros slots rest.
  - simpl. intros H. inversion H. destruct (resolve fc rest); reflexivity.
  - simpl. destruct (String.eqb x ESCAPE_CHAR); [discriminate|].
    intros H. inversion H. destruct (resolve fc rest); reflexivity.
  - remember (y :: l) as r eqn:E. simpl. destruct (String.eqb x ESCAPE_CHAR).
    + subst r. simpl. destruct (resolve fc l) eqn:R; [|discriminate].
      intros H. inversion H. rewrite (IHl _ _ eq_refl).
      destruct (resolve fc rest); reflexivity.
    + destruct (resolve fc r) eqn:R; [|discriminate].
      intros H. inversion H. rewrite (IHyl _ _ eq_refl).
      destruct (resolve fc rest); reflexivity.
Qed.

Lemma len_map {A B : Type} (f : A -> B) (l : list A) : len (map f l) = len l.
Proof. unfold len. now rewrite length_map. Qed.

Lemma new_of_resolve (fc : FormatCharacters) (source ph : string) (rev : bool) :
  match resolve fc (js_split source) with
  | Err _ => Pattern.new source fc ph rev = Err UnterminatedEscape
  | Ok slots =>
      if existsb slot_editable slots
      then exists p,
          Pattern.new source fc ph rev = Ok p /\
          Pattern.pattern p = map slot_char slots /\
          Pattern.length p = slen source - escape_pairs (js_split source) /\
          (forall i,
              Pattern.isEditableIndex p i =
              match zth slots i with
              | Some (Editable _) => true
              | _ => false
              end)
      else Pattern.new source fc ph rev = Err EmptyPattern
  end.
Proof.
  unfold Pattern.new, Pattern._parse. rewrite parse_loop_resolve.
  destruct (resolve fc (js_split source)) as [slots|e] eqn:R.
  - pose proof (scan_extend_first_None slots Pattern.scan0 0) as HN.
    destruct (existsb slot_editable slots) eqn:Ex.
    + destruct (Pattern.s_firstEditableIndex (scan_extend Pattern.scan0 0 slots)) as [a|] eqn:F.
      * eexists. split; [reflexivity|]. simpl.
        rewrite scan_extend_pattern. simpl. split; [reflexivity|]. split.
        -- rewrite len_map, (resolve_length fc _ _ R), slen_split. reflexivity.
        -- intros i. unfold Pattern.isEditableIndex. simpl.
           destruct (existsb (Z.eqb i) _) eqn:E.
           ++ apply existsb_Zeqb_In, scan_extend_editable in E.
              destruct E as [[]|[_ [c Hc]]]. rewrite Z.sub_0_r in Hc. now rewrite Hc.
           ++ destruct (zth slots i) as [[c|c]|] eqn:Zi; try reflexivity.
              assert (0 <= i) by (apply zth_Some_range in Zi; lia).
              assert (In i (Pattern.s_editableIndices (scan_extend Pattern.scan0 0 slots))) as Hin.
              { apply scan_extend_editable. right. split; [lia|]. exists c.
                now rewrite Z.sub_0_r. }
              apply existsb_Zeqb_In in Hin. congruence.
      * destruct HN as [HN _]. destruct (HN eq_refl). discriminate.
    + destruct HN as [_ HN]. rewrite HN by (split; reflexivity). reflexivity.
  - rewrite (resolve_error fc _ _ R). reflexivity.
Qed.

(** C6. Pattern compilation refines the scan that the specification
    describes. The compiled pattern is the list of resolved slots, one per
    plain character and one per escape pair, so its length is the source
    length less the number of escape pairs; a slot is editable exactly when
    it comes from an unescaped registered symbol. The character after an
    escape character becomes a literal slot whatever it is. A source that
    ends in an unescaped escape character does not compile, nor does one
    without an editable slot. The mask made of two backslashes and [1]
    compiles to a literal backslash followed by an editable digit slot. *)
Theorem C6_pattern_compilation :
  (forall fc source ph rev,
      match resolve fc (js_split source) with
      | Err _ => Pattern.new source fc ph rev = Err UnterminatedEscape
      | Ok slots =>
          if existsb slot_editable slots
          then exists p,
              Pattern.new source fc ph rev = Ok p /\
              Pattern.pattern p = map slot_char slots /\
              Pattern.length p = slen source - escape_pairs (js_split source) /\
              (forall i,
                  Pattern.isEditableIndex p i =
                  match zth slots i with
                  | Some (Editable _) => true
                  | _ => false
                  end)
          else Pattern.new source fc ph rev = Err EmptyPattern
      end) /\
  (forall fc source ph rev p pre slots c post,
      Pattern.new source fc ph rev = Ok p ->
      js_split source = pre ++ ESCAPE_CHAR :: c :: post ->
      resolve fc pre = Ok slots ->
      str_get (Pattern.pattern p) (len slots) = Some c /\
      Pattern.isEditableIndex p (len slots) = false) /\
  (forall fc source ph rev pre slots,
      js_split source = pre ++ [ESCAPE_CHAR] ->
      resolve fc pre = Ok slots ->
      Pattern.new source fc ph rev = Err UnterminatedEscape) /\
  match Pattern.new "\\1" DEFAULT_FORMAT_CHARACTERS DEFAULT_PLACEHOLDER_CHAR false with
  | Ok p =>
      Pattern.pattern p = ["\"; "1"] /\
      Pattern.length p = 2 /\
      Pattern.isEditableIndex p 0 = false /\
      Pattern.isEditableIndex p 1 = true /\
      Pattern._editableIndices p = [1]
  | Err _ => False
  end.
Proof.
  split; [exact new_of_resolve|]. split; [|split].
  - intros fc source ph rev p pre slots c post Hnew Hsrc Hpre.
    pose proof (new_of_resolve fc source ph rev) as H.
    rewrite Hsrc, (resolve_app fc pre slots _ Hpre) in H.
    cbn [resolve] in H. rewrite String.eqb_refl in H.
    destruct (resolve fc post) as [l|e]; [|congruence].
    destruct (existsb slot_editable (slots ++ Literal c :: l)); [|congruence].
    destruct H as [p' [Hp' [Hpat [_ Hed]]]].
    assert (p' = p) by congruence. subst p'.
    pose proof (len_nonneg slots).
    split.
    + unfold str_get. rewrite Hpat, map_app. rewrite zth_app_r by (rewrite len_map; lia).
      rewrite len_map, Z.sub_diag. reflexivity.
    + rewrite Hed. rewrite zth_app_r by lia. rewrite Z.sub_diag. reflexivity.
  - intros fc source ph rev pre slots Hsrc Hpre.
    pose proof (new_of_resolve fc source ph rev) as H.
    rewrite Hsrc, (resolve_app fc pre slots _ Hpre) in H.
    cbn [resolve] in H. rewrite String.eqb_refl in H. exact H.
  - vm_compute. repeat split; reflexivity.
Qed.

(** ** The store *)

Lemma deref_alloc_new (h : store) (v : Selection) : deref (h ++ [v]) (List.length h) = v.
Proof. unfold deref. rewrite app_nth2 by lia. now rewrite Nat.sub_diag. Qed.

Lemma deref_alloc_old (h : store) (v : Selection) (l : loc) :
  (l < List.length h)%nat -> deref (h ++ [v]) l = deref h l.
Proof. intros H. unfold deref. now rewrite app_nth1. Qed.

Lemma store_set_length (h : store) (l : loc) (v : Selection) :
  List.length (store_set h l v) = List.length h.
Proof. revert l. induction h as [|x t IH]; intros [|l]; simpl; auto. Qed.

Lemma deref_set_same (h : store) (l : loc) (v : Selection) :
  (l < List.length h)%nat -> deref (store_set h l v) l = v.
Proof.
  revert l. induction h as [|x t IH]; intros [|l] H; simpl in *; try lia; auto.
  apply IH. lia.
Qed.

Lemma deref_set_other (h : store) (l l' : loc) (v : Selection) :
  l <> l' -> deref (store_set h l v) l' = deref h l'.
Proof.
  revert l l'. induction h as [|x t IH]; intros [|l] [|l'] H; simpl; auto; try congruence.
  apply IH. congruence.
Qed.

Lemma sel_new_sel (s : InputMask.t) (v : Selection) :
  InputMask.sel (InputMask.new_sel s v) = v.
Proof. unfold InputMask.sel, InputMask.new_sel. simpl. apply deref_alloc_new. Qed.

Lemma sel_set_sel (s : InputMask.t) (v : Selection) :
  (InputMask.selection s < List.length (InputMask.heap s))%nat ->
  InputMask.sel (InputMask.set_sel s v) = v.
Proof. intros H. unfold InputMask.sel, InputMask.set_sel. simpl. now apply deref_set_same. Qed.

(** ** Single operations *)

(** C4. On the mask [(111) 111-1111] with no value and the default
    placeholder, [getValue()] returns [(___) ___-____]; [input('5')] at
    the selection [{0,0}] is accepted, makes the buffer [(5__) ___-____]
    and leaves the cursor after the digit it stored, at [{2,2}]. *)
Theorem C4_phone_mask :
  match InputMask.new (props_of "(111) 111-1111") with
  | Ok s =>
      InputMask.sel s = {| start := 0; end_ := 0 |} /\
      fst (InputMask.getValue s) = "(___) ___-____" /\
      fst (InputMask.input s "5") = true /\
      js_join (InputMask.value (snd (InputMask.input s "5"))) = "(5__) ___-____" /\
      InputMask.sel (snd (InputMask.input s "5")) = {| start := 2; end_ := 2 |}
  | Err _ => False
  end.
Proof. vm_compute. repeat split; reflexivity. Qed.

(** The selection that the claim names, [{1,1}], is not the one the
    engine ends in. *)
Lemma C4_selection_is_not_1_1 :
  match InputMask.new (props_of "(111) 111-1111") with
  | Ok s =>
      InputMask.sel s = {| start := 0; end_ := 0 |} /\
      fst (InputMask.input s "5") = true /\
      InputMask.sel (snd (InputMask.input s "5")) <> {| start := 1; end_ := 1 |}
  | Err _ => False
  end.
Proof. vm_compute. repeat split; try reflexivity. discriminate. Qed.

(** C1. A paste that fails does not always leave the history as it was.
    On the mask [11], after [input('1')] and [undo()], the engine's
    selection is the selection object of the first history item. The call
    [paste('1x')] accepts [1], which moves that object to [{1,1}], and
    rejects [x]; the state it restores has the value, the selection, the
    history index, [_lastOp] and [_lastSelection] of before, and a history
    whose first item now holds [{1,1}] where it held [{0,0}]. *)
Theorem C1_failed_paste_changes_history :
  match InputMask.new (props_of "11") with
  | Ok s0 =>
      match InputMask.undo (snd (InputMask.input s0 "1")) with
      | Returns true s =>
          let r := InputMask.paste s "1x" in
          fst r = false /\
          InputMask.value (snd r) = InputMask.value s /\
          InputMask.sel (snd r) = InputMask.sel s /\
          InputMask._historyIndex (snd r) = InputMask._historyIndex s /\
          InputMask._lastOp (snd r) = InputMask._lastOp s /\
          InputMask._lastSelection (snd r) = InputMask._lastSelection s /\
          history_view s =
            [ ("__", {| start := 0; end_ := 0 |}, None, false);
              ("1_", {| start := 1; end_ := 1 |}, Some "input", true) ] /\
          history_view (snd r) =
            [ ("__", {| start := 1; end_ := 1 |}, None, false);
              ("1_", {| start := 1; end_ := 1 |}, Some "input", true) ]
      | _ => False
      end
  | Err _ => False
  end.
Proof. vm_compute. repeat split; reflexivity. Qed.

Lemma jsval_eqb_eq (x y : jsval) : jsval_eqb x y = true <-> x = y.
Proof.
  destruct x as [a|], y as [b|]; simpl; try (split; congruence).
  rewrite String.eqb_eq. split; congruence.
Qed.

Lemma jsval_eqb_neq (x y : jsval) : jsval_eqb x y = false <-> x <> y.
Proof.
  rewrite <- jsval_eqb_eq. destruct (jsval_eqb x y); split; congruence.
Qed.

Lemma getValue_concealed (s : InputMask.t) :
  Pattern.isRevealingMask (InputMask.pattern s) = false ->
  InputMask.getValue s = (js_join (InputMask.value s), s).
Proof. intros H. unfold InputMask.getValue. now rewrite H. Qed.

Lemma max_as_test (a b : Z) : (if a <? b then b else a) = Z.max a b.
Proof. destruct (a <? b) eqn:E; [apply Z.ltb_lt in E|apply Z.ltb_ge in E]; lia. Qed.

Lemma with_value_same (s : InputMask.t) : InputMask.with_value s (InputMask.value s) = s.
Proof. destruct s. reflexivity. Qed.

Lemma input_rejects_any (s : InputMask.t) (char : string) :
  let p := InputMask.pattern s in
  let index := Z.max (start (InputMask.sel s)) (Pattern.firstEditableIndex p) in
  let at_end := start (InputMask.sel s) = end_ (InputMask.sel s) /\
                start (InputMask.sel s) = Pattern.length p in
  (fst (InputMask.input s char) = false <->
   at_end \/
   (Pattern.isEditableIndex p index = true /\
    Pattern.isValidAtIndex p (Some char) index = false)) /\
  (fst (InputMask.input s char) = false ->
   let r := snd (InputMask.input s char) in
   r = InputMask.with_value s (InputMask.value r) /\
   (at_end -> r = s) /\
   (Pattern.isRevealingMask p = false -> r = s) /\
   (Pattern.isRevealingMask p = true -> ~ at_end ->
    InputMask.value r = Pattern.formatValue p (js_split (InputMask.getRawValue s)))).
Proof.
  intros p index at_end. unfold InputMask.input, copy.
  destruct ((start (InputMask.sel s) =? end_ (InputMask.sel s))
            && (start (InputMask.sel s) =? Pattern.length (InputMask.pattern s))) eqn:C.
  - apply andb_true_iff in C. destruct C as [C1 C2]. apply Z.eqb_eq in C1, C2.
    assert (A : at_end) by (split; assumption).
    cbn [fst snd]. split; [split; auto|]. intros _.
    split; [symmetry; apply with_value_same|]. split; [auto|]. split; [auto|].
    intros _ N. contradiction.
  - assert (N : ~ at_end).
    { intros [A1 A2]. apply andb_false_iff in C.
      destruct C as [C|C]; apply Z.eqb_neq in C; [exact (C A1)|exact (C A2)]. }
    unfold InputMask.getValue.
    destruct (Pattern.isRevealingMask (InputMask.pattern s)) eqn:R; cbv beta iota zeta;
      unfold InputMask.sel;
      cbn [InputMask.pattern InputMask.heap InputMask.selection InputMask.with_value];
      fold (InputMask.sel s); rewrite max_as_test; fold p; fold index;
      destruct (Pattern.isEditableIndex p index
                && negb (Pattern.isValidAtIndex p (Some char) index)) eqn:B.
    + apply andb_true_iff in B. destruct B as [B1 B2]. apply negb_true_iff in B2.
      cbn [fst snd]. split; [split; auto|]. intros _.
      split; [reflexivity|]. split; [intros A; contradiction|].
      split; [intros E; fold p in R; congruence|]. intros _ _. reflexivity.
    + cbn [fst]. split; [|discriminate]. split; [discriminate|].
      intros [A|[B1 B2]]; [contradiction|]. rewrite B1, B2 in B. discriminate.
    + apply andb_true_iff in B. destruct B as [B1 B2]. apply negb_true_iff in B2.
      cbn [fst snd]. split; [split; auto|]. intros _.
      split; [symmetry; apply with_value_same|]. split; [auto|]. split; [auto|].
      intros E. fold p in R. congruence.
    + cbn [fst]. split; [|discriminate]. split; [discriminate|].
      intros [A|[B1 B2]]; [contradiction|]. rewrite B1, B2 in B. discriminate.
Qed.

(** C8. On every mask, [input(char)] returns [false] in exactly two
    situations: the selection is collapsed at the end of the pattern, or
    the slot at the larger of [selection.start] and [firstEditableIndex]
    is editable and its validator rejects [char]. When it returns [false]
    nothing but the buffer can differ from before the call: the
    selection, its object, the store, the history, the history index, the
    last operation and the last selection are the same. The buffer is the
    same too when the mask is not revealing, and on any mask when the
    call is rejected for the first reason; on a revealing mask a call
    rejected for the second reason leaves the buffer that [getValue()]
    has rebuilt from the raw value. On the mask [aa], [input('1')]
    returns [false] and the value stays [__]. *)
Theorem C8_input_rejection :
  (forall (s : InputMask.t) (char : string),
      let p := InputMask.pattern s in
      let index := Z.max (start (InputMask.sel s)) (Pattern.firstEditableIndex p) in
      let at_end := start (InputMask.sel s) = end_ (InputMask.sel s) /\
                    start (InputMask.sel s) = Pattern.length p in
      (fst (InputMask.input s char) = false <->
       at_end \/
       (Pattern.isEditableIndex p index = true /\
        Pattern.isValidAtIndex p (Some char) index = false)) /\
      (fst (InputMask.input s char) = false ->
       let r := snd (InputMask.input s char) in
       r = InputMask.with_value s (InputMask.value r) /\
       InputMask.sel r = InputMask.sel s /\
       InputMask.heap r = InputMask.heap s /\
       InputMask._history r = InputMask._history s /\
       InputMask._historyIndex r = InputMask._historyIndex s /\
       (at_end -> r = s) /\
       (Pattern.isRevealingMask p = false -> r = s) /\
       (Pattern.isRevealingMask p = true -> ~ at_end ->
        InputMask.value r = Pattern.formatValue p (js_split (InputMask.getRawValue s))))) /\
  match InputMask.new (props_of "aa") with
  | Ok s =>
      fst (InputMask.input s "1") = false /\
      snd (InputMask.input s "1") = s /\
      fst (InputMask.getValue s) = "__"
  | Err _ => False
  end.
Proof.
  split.
  - intros s char p index at_end.
    destruct (input_rejects_any s char) as [H1 H2]. split; [exact H1|].
    intros Hf r. destruct (H2 Hf) as [E [A [B D]]]. fold r in E, A, B, D.
    split; [exact E|]. rewrite E.
    split; [reflexivity|]. split; [reflexivity|]. split; [reflexivity|].
    split; [reflexivity|]. rewrite <- E. auto.
  - assert (H : match InputMask.new (props_of "aa") with
                | Ok s =>
                    Pattern.isRevealingMask (InputMask.pattern s) = false /\
                    fst (InputMask.input s "1") = false /\
                    fst (InputMask.getValue s) = "__"
                | Err _ => False
                end) by (vm_compute; repeat split; reflexivity).
    destruct (InputMask.new (props_of "aa")) as [s|e]; [|exact H].
    destruct H as [Hrev [Hf Hv]]. split; [exact Hf|]. split; [|exact Hv].
    destruct (input_rejects_any s "1") as [_ H2].
    destruct (H2 Hf) as [_ [_ [B _]]]. exact (B Hrev).
Qed.

(** On a revealing mask a rejected character does change the buffer:
    [input] has [getValue()] rebuild it from the raw value before it
    looks at the character. *)
Lemma C8_revealing_rejection_rewrites_buffer :
  match InputMask.new
          {| props_formatCharacters := None;
             props_pattern := Some "axaa";
             props_isRevealingMask := Some true;
             props_placeholderChar := None;
             props_selection := None;
             props_value := Some "qxxx" |} with
  | Ok s =>
      start (InputMask.sel s) <> Pattern.length (InputMask.pattern s) /\
      Pattern.isEditableIndex (InputMask.pattern s) 0 = true /\
      Pattern.isValidAtIndex (InputMask.pattern s) (Some "1") 0 = false /\
      fst (InputMask.input s "1") = false /\
      InputMask.value s = [Some "q"; Some "x"; Some "x"; Some "x"] /\
      InputMask.value (snd (InputMask.input s "1")) = [Some "q"; Some "x"; Some "x"; None] /\
      fst (InputMask.getValue s) = "qxx" /\
      fst (InputMask.getValue (snd (InputMask.input s "1"))) = "qx"
  | Err _ => False
  end.
Proof. vm_compute. repeat split; try reflexivity. discriminate. Qed.

Lemma find_cursor_spec (s : InputMask.t) :
  forall fuel index,
    Pattern.firstEditableIndex (InputMask.pattern s) <= index ->
    (Z.to_nat (index - Pattern.firstEditableIndex (InputMask.pattern s) + 1) <= fuel)%nat ->
    exists i0,
      InputMask.find_cursor s fuel index = Some i0 /\
      Pattern.firstEditableIndex (InputMask.pattern s) <= i0 <= index /\
      (i0 = Pattern.firstEditableIndex (InputMask.pattern s) \/
       not_placeholder s (i0 - 1)) /\
      forall j, i0 < j <= index -> ~ not_placeholder s (j - 1).
Proof.
  induction fuel as [|f IH]; intros index Hge Hfuel; [lia|].
  cbn [InputMask.find_cursor].
  destruct (index >=? Pattern.firstEditableIndex (InputMask.pattern s)) eqn:G;
    [|rewrite Z.geb_leb in G; apply Z.leb_gt in G; lia].
  destruct ((Pattern.isEditableIndex (InputMask.pattern s) (index - 1)
             && negb (jsval_eqb (arr_get (InputMask.value s) (index - 1))
                        (Some (InputMask.placeholderChar s))))
            || (index =? Pattern.firstEditableIndex (InputMask.pattern s))) eqn:C.
  - exists index. split; [reflexivity|]. split; [lia|]. split; [|intros j Hj; lia].
    apply orb_true_iff in C. destruct C as [C|C].
    + right. apply andb_true_iff in C. destruct C as [C1 C2].
      apply negb_true_iff, jsval_eqb_neq in C2. split; assumption.
    + left. now apply Z.eqb_eq in C.
  - apply orb_false_iff in C. destruct C as [C1 C2]. apply Z.eqb_neq in C2.
    destruct (IH (index - 1)) as [i0 [H1 [H2 [H3 H4]]]]; [lia|lia|].
    exists i0. split; [exact H1|]. split; [lia|]. split; [exact H3|].
    intros j Hj. destruct (Z.eq_dec j index) as [->|Hne]; [|apply H4; lia].
    intros [F1 F2]. rewrite F1 in C1. simpl in C1.
    apply negb_false_iff, jsval_eqb_eq in C1. contradiction.
Qed.

(** ** [formatValue] on a revealing mask *)

Lemma zth_beyond {A : Type} (l : list A) (i : Z) : len l <= i -> zth l i = None.
Proof.
  unfold zth, len. intros H. destruct (i <? 0); [reflexivity|].
  apply nth_error_None. lia.
Qed.

Lemma join_unset_tail (l : list jsval) (m : nat) :
  js_join (l ++ repeat None m) = js_join l.
Proof.
  induction l as [|x r IH]; simpl.
  - induction m as [|m IHm]; simpl; auto.
  - now rewrite IH.
Qed.

Lemma formatValue_loop_revealing (p : Pattern.t) (value : list string) :
  Pattern.isRevealingMask p = true ->
  forall n i valueIndex,
  exists k,
    (k <= n)%nat /\
    Pattern.formatValue_loop p value n i valueIndex =
      firstn k (Pattern.formatValue_loop (concealed p) value n i valueIndex)
      ++ repeat None (n - k) /\
    ((k < n)%nat ->
     Pattern.isEditableIndex p (i + Z.of_nat k) = true /\
     len value <= valueIndex_loop p value k i valueIndex /\
     Pattern.isValidAtIndex p None (i + Z.of_nat k) = false) /\
    (forall j, (j < k)%nat ->
               ~ (Pattern.isEditableIndex p (i + Z.of_nat j) = true /\
                  len value <= valueIndex_loop p value j i valueIndex /\
                  Pattern.isValidAtIndex p None (i + Z.of_nat j) = false)).
Proof.
  intros Hrev. induction n as [|n IH]; intros i vi.
  - exists 0%nat. split; [lia|]. split; [reflexivity|].
    split; [lia|]. intros j Hj. lia.
  - cbn [Pattern.formatValue_loop].
    change (Pattern.isEditableIndex (concealed p) i) with (Pattern.isEditableIndex p i).
    change (Pattern.isRevealingMask (concealed p)) with false.
    rewrite Hrev. cbn [andb].
    destruct (Pattern.isEditableIndex p i) eqn:Ed.
    + destruct ((len value <=? vi)
                && negb (Pattern.isValidAtIndex p (str_get value vi) i)) eqn:Brk.
      * exists 0%nat. apply andb_true_iff in Brk. destruct Brk as [B1 B2].
        apply Z.leb_le in B1. apply negb_true_iff in B2.
        unfold str_get in B2. rewrite (zth_beyond _ _ B1) in B2.
        split; [lia|]. split; [reflexivity|]. split.
        -- intros _. rewrite Z.add_0_r. cbn [valueIndex_loop]. auto.
        -- intros j Hj. lia.
      * destruct (IH (i + 1) (vi + 1)) as [k [K1 [K2 [K3 K4]]]].
        exists (S k). split; [lia|]. split; [|split].
        -- cbn [firstn app Nat.sub]. rewrite K2. reflexivity.
        -- intros Hk. cbn [valueIndex_loop]. rewrite Ed.
           replace (i + Z.of_nat (S k)) with (i + 1 + Z.of_nat k) by lia.
           apply K3. lia.
        -- intros [|j] Hj.
           ++ rewrite Z.add_0_r. cbn [valueIndex_loop]. intros [_ [S2 S3]].
              apply Z.leb_le in S2. rewrite S2 in Brk. cbn [andb] in Brk.
              apply Z.leb_le in S2. unfold str_get in Brk.
              rewrite (zth_beyond _ _ S2), S3 in Brk. discriminate.
           ++ cbn [valueIndex_loop]. rewrite Ed.
              replace (i + Z.of_nat (S j)) with (i + 1 + Z.of_nat j) by lia.
              apply K4. lia.
    + set (vi' := if (vi <? len value)
                     && jsval_eqb (str_get value vi) (str_get (Pattern.pattern p) i)
                  then vi + 1 else vi).
      change (Pattern.pattern (concealed p)) with (Pattern.pattern p). fold vi'.
      destruct (IH (i + 1) vi') as [k [K1 [K2 [K3 K4]]]].
      exists (S k). split; [lia|]. split; [|split].
      * cbn [firstn app Nat.sub]. rewrite K2. reflexivity.
      * intros Hk. cbn [valueIndex_loop]. rewrite Ed. fold vi'.
        replace (i + Z.of_nat (S k)) with (i + 1 + Z.of_nat k) by lia.
        apply K3. lia.
      * intros [|j] Hj.
        -- rewrite Z.add_0_r. intros [S1 _]. congruence.
        -- cbn [valueIndex_loop]. rewrite Ed. fold vi'.
           replace (i + Z.of_nat (S j)) with (i + 1 + Z.of_nat j) by lia.
           apply K4. lia.
Qed.

(** C7. On a revealing mask [formatValue] walks the slots as on any
    mask until it reaches an editable slot with the candidate characters
    used up whose validator rejects [undefined]; there it stops. The array
    it returns still has one entry per slot: the entries before the stop as
    without the revealing mode, the entries from the stop on unset, so
    that its [join] is the text written so far. Every built-in validator
    rejects [undefined]. On the revealing mask [111-111] with [1] and [2]
    typed, [getValue()] and [getRawValue()] return [12]. *)
Theorem C7_revealing_formatValue :
  (forall (p : Pattern.t) (value : list string),
      Pattern.isRevealingMask p = true ->
      exists k,
        (k <= Z.to_nat (Pattern.length p))%nat /\
        Pattern.formatValue p value =
          firstn k (Pattern.formatValue (concealed p) value)
          ++ repeat None (Z.to_nat (Pattern.length p) - k) /\
        js_join (Pattern.formatValue p value) =
          js_join (firstn k (Pattern.formatValue (concealed p) value)) /\
        ((k < Z.to_nat (Pattern.length p))%nat -> stops_at p value k) /\
        (forall j, (j < k)%nat -> ~ stops_at p value j)) /\
  (forall sym f, fc_lookup DEFAULT_FORMAT_CHARACTERS sym = Some f -> validate f None = false) /\
  match InputMask.new
          {| props_formatCharacters := None;
             props_pattern := Some "111-111";
             props_isRevealingMask := Some true;
             props_placeholderChar := None;
             props_selection := None;
             props_value := None |} with
  | Ok s0 =>
      let s := snd (InputMask.input (snd (InputMask.input s0 "1")) "2") in
      InputMask.value s = [Some "1"; Some "2"; None; None; None; None; None] /\
      fst (InputMask.getValue s) = "12" /\
      InputMask.getRawValue s = "12" /\
      InputMask.getRawValue (snd (InputMask.getValue s)) = "12"
  | Err _ => False
  end.
Proof.
  split; [|split].
  - intros p value Hrev. unfold Pattern.formatValue.
    destruct (formatValue_loop_revealing p value Hrev (Z.to_nat (Pattern.length p)) 0 0)
      as [k [K1 [K2 [K3 K4]]]].
    exists k. split; [exact K1|]. split; [exact K2|]. split; [|split].
    + change (Pattern.length (concealed p)) with (Pattern.length p).
      rewrite K2. apply join_unset_tail.
    + intros Hk. unfold stops_at, valueIndex_at. apply (K3 Hk).
    + intros j Hj. unfold stops_at, valueIndex_at. apply (K4 j Hj).
  - intros sym f. simpl.
    repeat match goal with
           | |- (if ?c then _ else _) = _ -> _ => destruct c
           end; intros H; inversion H; reflexivity.
  - vm_compute. repeat split; reflexivity.
Qed.

(** With a validator that accepts [undefined] (here: any character but a
    space) the loop does not stop when the candidate characters are used
    up: the slots are padded with placeholders. *)
Lemma C7_validator_accepting_undefined_pads :
  match InputMask.new
          {| props_formatCharacters :=
               Some [("1", Some {| validate := fun x => negb (jsval_eqb x (Some " "));
                                   transform := None |})];
             props_pattern := Some "11";
             props_isRevealingMask := Some true;
             props_placeholderChar := None;
             props_selection := None;
             props_value := None |} with
  | Ok s =>
      let p := InputMask.pattern s in
      Pattern.isRevealingMask p = true /\
      Pattern.isEditableIndex p 0 = true /\
      len (@nil string) <= valueIndex_at p [] 0 /\
      Pattern.formatValue p [] = [Some "_"; Some "_"] /\
      fst (InputMask.getValue s) = "__"
  | Err _ => False
  end.
Proof. vm_compute. repeat split; try reflexivity. discriminate. Qed.

(** ** Arrays *)

Lemma arr_get_nil (i : Z) : arr_get [] i = None.
Proof. unfold arr_get. destruct (i <? 0); [reflexivity|]. destruct (Z.to_nat i); reflexivity. Qed.

Lemma arr_get_cons_0 (x : jsval) (l : list jsval) : arr_get (x :: l) 0 = x.
Proof. reflexivity. Qed.

Lemma arr_get_cons_pos (x : jsval) (l : list jsval) (i : Z) :
  0 < i -> arr_get (x :: l) i = arr_get l (i - 1).
Proof.
  intros H. unfold arr_get.
  destruct (i <? 0) eqn:E1; [apply Z.ltb_lt in E1; lia|].
  destruct (i - 1 <? 0) eqn:E2; [apply Z.ltb_lt in E2; lia|].
  replace (Z.to_nat i) with (S (Z.to_nat (i - 1))) by lia. reflexivity.
Qed.

Lemma arr_get_zth (l : list jsval) (i : Z) (x : jsval) :
  zth l i = Some x -> arr_get l i = x.
Proof. unfold zth, arr_get. destruct (i <? 0); [discriminate|]. now intros ->. Qed.

Lemma arr_get_map_Some (l : list string) (i : Z) : arr_get (map Some l) i = zth l i.
Proof.
  unfold arr_get, zth. destruct (i <? 0); [reflexivity|].
  rewrite nth_error_map. destruct (nth_error l (Z.to_nat i)); reflexivity.
Qed.

Lemma set_nth_get_same (a : list jsval) (n : nat) (x : jsval) :
  nth_error (set_nth a n x) n = Some x.
Proof.
  revert a. induction n as [|n IH]; intros [|h t]; simpl; auto.
Qed.

Lemma set_nth_get_other (a : list jsval) (n m : nat) (x : jsval) :
  n <> m ->
  match nth_error (set_nth a n x) m with Some y => y | None => None end =
  match nth_error a m with Some y => y | None => None end.
Proof.
  revert a m. induction n as [|n IH]; intros [|h t] [|m] H; simpl; try congruence.
  - destruct m; reflexivity.
  - rewrite IH by congruence. destruct m; reflexivity.
  - apply IH. congruence.
Qed.

Lemma set_nth_length (a : list jsval) (n : nat) (x : jsval) :
  (n < List.length a)%nat -> List.length (set_nth a n x) = List.length a.
Proof.
  revert a. induction n as [|n IH]; intros [|h t] H; simpl in *; try lia.
  rewrite IH; lia.
Qed.

Lemma arr_get_set_same (a : list jsval) (i : Z) (x : jsval) :
  0 <= i -> arr_get (arr_set a i x) i = x.
Proof.
  intros H. unfold arr_get, arr_set.
  destruct (i <? 0) eqn:E; [apply Z.ltb_lt in E; lia|].
  now rewrite set_nth_get_same.
Qed.

Lemma arr_get_set_other (a : list jsval) (i j : Z) (x : jsval) :
  i <> j -> arr_get (arr_set a i x) j = arr_get a j.
Proof.
  intros H. unfold arr_get, arr_set.
  destruct (i <? 0) eqn:Ei; [reflexivity|].
  destruct (j <? 0) eqn:Ej; [reflexivity|].
  apply Z.ltb_ge in Ei, Ej. apply set_nth_get_other. lia.
Qed.

Lemma len_arr_set (a : list jsval) (i : Z) (x : jsval) :
  0 <= i < len a -> len (arr_set a i x) = len a.
Proof.
  unfold len, arr_set. intros H.
  destruct (i <? 0) eqn:E; [reflexivity|]. rewrite set_nth_length; [reflexivity|lia].
Qed.

(** What [blank_down] leaves in a slot. *)
Lemma blank_down_get (p : Pattern.t) (ph : string) :
  forall fuel e lo v j,
    (Z.to_nat (e - lo) <= fuel)%nat ->
    (forall i, Pattern.isEditableIndex p i = true -> 0 <= i) ->
    arr_get (InputMask.blank_down p ph fuel e lo v) j =
    if (lo <? j) && (j <=? e) && Pattern.isEditableIndex p j
    then Some ph else arr_get v j.
Proof.
  induction fuel as [|f IH]; intros e lo v j Hfuel Hpos; cbn [InputMask.blank_down].
  - destruct (lo <? j) eqn:A; [|reflexivity].
    destruct (j <=? e) eqn:B; [|reflexivity].
    apply Z.ltb_lt in A. apply Z.leb_le in B. lia.
  - destruct (e >? lo) eqn:G.
    + rewrite Z.gtb_ltb in G. apply Z.ltb_lt in G.
      rewrite IH by (auto; lia).
      destruct (Z.eq_dec j e) as [->|Hne].
      * replace (e <=? e - 1) with false by (symmetry; apply Z.leb_gt; lia).
        rewrite andb_false_r. cbn [andb].
        replace (lo <? e) with true by (symmetry; apply Z.ltb_lt; lia).
        rewrite Z.leb_refl. cbn [andb].
        destruct (Pattern.isEditableIndex p e) eqn:Ed; [|reflexivity].
        apply arr_get_set_same. auto.
      * assert (Hv : arr_get (if Pattern.isEditableIndex p e
                              then arr_set v e (Some ph) else v) j = arr_get v j).
        { destruct (Pattern.isEditableIndex p e); [|reflexivity].
          apply arr_get_set_other. congruence. }
        rewrite Hv.
        replace (j <=? e - 1) with (j <=? e); [reflexivity|].
        destruct (j <=? e) eqn:B1; symmetry.
        -- apply Z.leb_le in B1. apply Z.leb_le. lia.
        -- apply Z.leb_gt in B1. apply Z.leb_gt. lia.
    + rewrite Z.gtb_ltb in G. apply Z.ltb_ge in G.
      destruct (lo <? j) eqn:A; [|reflexivity].
      destruct (j <=? e) eqn:B; [|reflexivity].
      apply Z.ltb_lt in A. apply Z.leb_le in B. lia.
Qed.

Lemma blank_down_len (p : Pattern.t) (ph : string) :
  forall fuel e lo v,
    (forall i, Pattern.isEditableIndex p i = true -> 0 <= i < len v) ->
    len (InputMask.blank_down p ph fuel e lo v) = len v.
Proof.
  induction fuel as [|f IH]; intros e lo v Hr; cbn [InputMask.blank_down]; [reflexivity|].
  destruct (e >? lo); [|reflexivity].
  destruct (Pattern.isEditableIndex p e) eqn:Ed.
  - rewrite IH; [apply len_arr_set; auto|].
    intros i Hi. rewrite len_arr_set by auto. auto.
  - apply IH. exact Hr.
Qed.


(** ** Construction *)

Lemma engine_new_inversion (props : InputMaskProps) (s : InputMask.t) :
  InputMask.new props = Ok s ->
  exists source p,
    let ph := match props_placeholderChar props with
              | Some c => c
              | None => DEFAULT_PLACEHOLDER_CHAR
              end in
    let selection := match props_selection props with
                     | Some x => x
                     | None => {| start := 0; end_ := 0 |}
                     end in
    props_pattern props = Some source /\
    slen ph <= 1 /\
    Pattern.new source (mergeFormatCharacters (props_formatCharacters props)) ph
      (match props_isRevealingMask props with Some b => b | None => false end) = Ok p /\
    s = {| InputMask.heap := [selection];
           InputMask.placeholderChar := ph;
           InputMask.formatCharacters := mergeFormatCharacters (props_formatCharacters props);
           InputMask.selection := 0%nat;
           InputMask.value :=
             Pattern.formatValue p
               (js_split (match props_value props with Some v => v | None => EmptyString end));
           InputMask.pattern := p;
           InputMask.emptyValue := js_join (Pattern.formatValue p []);
           InputMask._historyIndex := None;
           InputMask._history := [];
           InputMask._lastOp := None;
           InputMask._lastSelection := Some selection |}.
Proof.
  unfold InputMask.new, copy. destruct (props_pattern props) as [source|]; [|discriminate].
  destruct (slen _ >? 1) eqn:L; [discriminate|].
  unfold InputMask.setPattern, copy.
  destruct (Pattern.new source _ _ _) as [p|e] eqn:P; [|discriminate].
  intros H. inversion H. exists source, p. cbv zeta.
  split; [reflexivity|]. split; [|split; [exact P|reflexivity]].
  rewrite Z.gtb_ltb in L. apply Z.ltb_ge in L. exact L.
Qed.

Lemma pattern_new_fields (source : string) (fc : FormatCharacters) (ph : string)
      (rev : bool) (p : Pattern.t) :
  Pattern.new source fc ph rev = Ok p ->
  Pattern.placeholderChar p = (if String.eqb ph EmptyString then DEFAULT_PLACEHOLDER_CHAR else ph) /\
  Pattern.formatCharacters p = fc /\
  Pattern.isRevealingMask p = rev.
Proof.
  intros H. destruct (new_inversion _ _ _ _ _ H) as [slots [a [b [_ [_ [_ ->]]]]]].
  simpl. auto.
Qed.

Lemma formatValue_loop_empty (p : Pattern.t) :
  Pattern.isRevealingMask p = false ->
  forall n i valueIndex j,
    0 <= valueIndex -> 0 <= j < Z.of_nat n ->
    arr_get (Pattern.formatValue_loop p [] n i valueIndex) j =
    if Pattern.isEditableIndex p (i + j)
    then Some (Pattern.placeholderChar p)
    else str_get (Pattern.pattern p) (i + j).
Proof.
  intros Hrev. induction n as [|n IH]; intros i vi j Hvi Hj; [lia|].
  cbn [Pattern.formatValue_loop]. rewrite Hrev. cbn [andb].
  replace (vi <? len (@nil string)) with false
    by (symmetry; apply Z.ltb_ge; rewrite len_nil; lia).
  cbn [andb].
  destruct (Z.eq_dec j 0) as [->|Hne].
  - rewrite Z.add_0_r. destruct (Pattern.isEditableIndex p i); reflexivity.
  - replace (i + j) with (i + 1 + (j - 1)) by lia.
    destruct (Pattern.isEditableIndex p i);
      rewrite arr_get_cons_pos by lia; apply IH; lia.
Qed.

(** ** Good buffers *)

Lemma Forall_of_indexed (P : jsval -> Prop) (v : list jsval) :
  (forall i, 0 <= i < len v -> P (arr_get v i)) -> Forall P v.
Proof.
  induction v as [|x r IH]; intros H; constructor.
  - apply (H 0). rewrite len_cons. pose proof (len_nonneg r). lia.
  - apply IH. intros i Hi. specialize (H (i + 1)).
    rewrite arr_get_cons_pos in H by lia. replace (i + 1 - 1) with i in H by lia.
    apply H. rewrite len_cons. lia.
Qed.

Lemma append_one_char (c r : string) :
  String.length c = 1%nat -> js_split (String.append c r) = c :: js_split r.
Proof.
  destruct c as [|a [|b t]]; simpl; try discriminate. reflexivity.
Qed.

Lemma split_join_chars (v : list jsval) :
  Forall (fun x => exists c, x = Some c /\ String.length c = 1%nat) v ->
  map Some (js_split (js_join v)) = v.
Proof.
  induction 1 as [|x r [c [-> Hc]] _ IH]; simpl; [reflexivity|].
  rewrite append_one_char by exact Hc. simpl. now rewrite IH.
Qed.

Lemma join_split (s : string) : js_join (map Some (js_split s)) = s.
Proof. induction s as [|a r IH]; simpl; [reflexivity|]. now rewrite IH. Qed.

Lemma good_buffer_chars (p : Pattern.t) (v : list jsval) :
  good_buffer p v ->
  Forall (fun x => exists c, x = Some c /\ String.length c = 1%nat) v.
Proof.
  intros [Hl He]. apply Forall_of_indexed. intros i Hi. rewrite Hl in Hi.
  destruct (He i Hi) as [c [H1 [H2 _]]]. eauto.
Qed.

Lemma good_buffer_split_join (p : Pattern.t) (v : list jsval) :
  good_buffer p v -> map Some (js_split (js_join v)) = v.
Proof. intros H. apply split_join_chars. eapply good_buffer_chars. exact H. Qed.

Lemma good_buffer_set (p : Pattern.t) (v : list jsval) (i : Z) (x : jsval) :
  good_buffer p v -> 0 <= i < Pattern.length p -> good_entry p i x ->
  good_buffer p (arr_set v i x).
Proof.
  intros [Hl He] Hi Hx. split.
  - rewrite len_arr_set by lia. exact Hl.
  - intros j Hj. destruct (Z.eq_dec i j) as [->|Hne].
    + rewrite arr_get_set_same by lia. exact Hx.
    + rewrite arr_get_set_other by exact Hne. auto.
Qed.

Lemma good_placeholder (p : Pattern.t) (ph : string) (i : Z) :
  static_ok p ph -> Pattern.isEditableIndex p i = true -> good_entry p i (Some ph).
Proof.
  intros [_ _ Hph Hph1 _] Hi. exists ph. split; [reflexivity|]. split; [exact Hph1|].
  rewrite Hi. auto.
Qed.

Lemma good_buffer_blank (p : Pattern.t) (ph : string) (v : list jsval) :
  static_ok p ph -> good_buffer p v ->
  forall fuel e lo, good_buffer p (InputMask.blank_down p ph fuel e lo v).
Proof.
  intros Hst Hv fuel. revert v Hv.
  induction fuel as [|f IH]; intros v Hv e lo; cbn [InputMask.blank_down]; [exact Hv|].
  destruct (e >? lo); [|exact Hv]. apply IH.
  destruct (Pattern.isEditableIndex p e) eqn:Ed; [|exact Hv].
  apply good_buffer_set; [exact Hv| |now apply good_placeholder].
  destruct (wf_editable p (st_wf p ph Hst) e Ed). lia.
Qed.

Lemma Forall_firstn {A : Type} (P : A -> Prop) (n : nat) (l : list A) :
  Forall P l -> Forall P (firstn n l).
Proof.
  intros H. revert n. induction H as [|x r Hx Hr IH]; intros [|n]; simpl; constructor; auto.
Qed.

Lemma Forall_skipn {A : Type} (P : A -> Prop) (n : nat) (l : list A) :
  Forall P l -> Forall P (skipn n l).
Proof.
  intros H. revert n. induction H as [|x r Hx Hr IH]; intros [|n]; simpl; auto.
Qed.

Lemma Forall_splice {A : Type} (P : A -> Prop) (l : list A) (a b : Z) :
  Forall P l -> Forall P (js_splice l a b).
Proof.
  intros H. unfold js_splice. apply Forall_app.
  split; [now apply Forall_firstn|now apply Forall_skipn].
Qed.

Lemma Forall_pop {A : Type} (P : A -> Prop) (l : list A) :
  Forall P l -> Forall P (js_pop l).
Proof.
  unfold js_pop. induction 1 as [|x r Hx Hr IH]; simpl; [constructor|].
  destruct r; [constructor|]. constructor; assumption.
Qed.

Lemma zth_In {A : Type} (l : list A) (i : Z) (x : A) : zth l i = Some x -> In x l.
Proof. unfold zth. destruct (i <? 0); [discriminate|]. apply nth_error_In. Qed.

Lemma formatValue_loop_good (p : Pattern.t) (ph : string) (value : list string) :
  static_ok p ph ->
  forall n i valueIndex,
    0 <= i -> i + Z.of_nat n = Pattern.length p -> 0 <= valueIndex ->
    List.length (Pattern.formatValue_loop p value n i valueIndex) = n /\
    forall j, 0 <= j < Z.of_nat n ->
              good_entry p (i + j) (arr_get (Pattern.formatValue_loop p value n i valueIndex) j).
Proof.
  intros Hst. pose proof Hst as [Hwf Hrev Hph Hph1 Hfmt].
  induction n as [|n IH]; intros i vi Hi Hn Hvi.
  - split; [reflexivity|]. intros j Hj. lia.
  - cbn [Pattern.formatValue_loop]. rewrite Hrev. cbn [andb].
    assert (Hstep : forall x vi',
               0 <= vi' ->
               good_entry p i x ->
               List.length (x :: Pattern.formatValue_loop p value n (i + 1) vi') = S n /\
               forall j, 0 <= j < Z.of_nat (S n) ->
                         good_entry p (i + j)
                           (arr_get (x :: Pattern.formatValue_loop p value n (i + 1) vi') j)).
    { intros x vi' Hvi' Hx. destruct (IH (i + 1) vi') as [L E]; try lia.
      split; [simpl; now rewrite L|]. intros j Hj.
      destruct (Z.eq_dec j 0) as [->|Hne].
      - rewrite Z.add_0_r. exact Hx.
      - rewrite arr_get_cons_pos by lia. replace (i + j) with (i + 1 + (j - 1)) by lia.
        apply E. lia. }
    destruct (Pattern.isEditableIndex p i) eqn:Ed.
    + apply Hstep; [lia|].
      destruct ((vi <? len value) && Pattern.isValidAtIndex p (str_get value vi) i) eqn:V.
      * apply andb_true_iff in V. destruct V as [V1 V2]. apply Z.ltb_lt in V1.
        destruct (zth_in_range value vi) as [c Hc]; [lia|].
        unfold str_get in *. rewrite Hc in *. cbn [jsval_str].
        exists (Pattern.transform p c i). split; [reflexivity|].
        split; [now apply Hfmt|]. rewrite Ed. right. exists c. auto.
      * rewrite <- Hph. now apply (good_placeholder p ph).
    + apply Hstep.
      * destruct ((vi <? len value) && _); lia.
      * destruct (zth_in_range (Pattern.pattern p) i) as [c Hc].
        { rewrite <- (wf_length p Hwf). lia. }
        unfold str_get. rewrite Hc. exists c. split; [reflexivity|]. split.
        -- pose proof (wf_chars p Hwf) as Hch. rewrite Forall_forall in Hch.
           apply Hch. eapply zth_In. exact Hc.
        -- rewrite Ed. exact Hc.
Qed.

Lemma formatValue_good (p : Pattern.t) (ph : string) (value : list string) :
  static_ok p ph -> good_buffer p (Pattern.formatValue p value).
Proof.
  intros Hst. unfold Pattern.formatValue.
  pose proof (wf_length p (st_wf p ph Hst)) as Hl. pose proof (len_nonneg (Pattern.pattern p)).
  destruct (formatValue_loop_good p ph value Hst (Z.to_nat (Pattern.length p)) 0 0)
    as [L E]; try lia.
  split.
  - unfold len. rewrite L. lia.
  - intros i Hi. specialize (E i). rewrite Z.add_0_l in E. apply E. lia.
Qed.

(** ** The invariant of the engine *)

Lemma engine_ok_of (s s' : InputMask.t) :
  engine_ok s ->
  InputMask.pattern s' = InputMask.pattern s ->
  InputMask.placeholderChar s' = InputMask.placeholderChar s ->
  good_buffer (InputMask.pattern s) (InputMask.value s') ->
  Forall (good_item (InputMask.pattern s)) (InputMask._history s') ->
  engine_ok s'.
Proof.
  intros [H1 H2 H3] Hp Hph Hv Hh. constructor; rewrite ?Hp, ?Hph; assumption.
Qed.

Lemma good_item_of_value (p : Pattern.t) (v : list jsval) (l : loc)
      (o : option string) (b : bool) :
  good_buffer p v ->
  good_item p {| HistoryItem.value := js_join v; HistoryItem.selection := l;
                 HistoryItem.lastOp := o; HistoryItem.startUndo := b |}.
Proof.
  intros H. unfold good_item. simpl. rewrite (good_buffer_split_join p v H). exact H.
Qed.

Lemma ok_input (s : InputMask.t) (char : string) :
  engine_ok s -> engine_ok (snd (InputMask.input s char)).
Proof.
  intros Hok. pose proof Hok as [Hst Hv Hh].
  unfold InputMask.input, copy.
  destruct ((start (InputMask.sel s) =? end_ (InputMask.sel s)) && _); [exact Hok|].
  rewrite (getValue_concealed s (st_rev _ _ Hst)). cbv beta iota zeta. rewrite max_as_test.
  set (index := Z.max _ _).
  destruct (Pattern.isEditableIndex (InputMask.pattern s) index
            && negb (Pattern.isValidAtIndex (InputMask.pattern s) (Some char) index)) eqn:B;
    [exact Hok|].
  assert (Hv' : good_buffer (InputMask.pattern s)
                  (if Pattern.isEditableIndex (InputMask.pattern s) index
                   then arr_set (InputMask.value s) index
                          (Some (Pattern.transform (InputMask.pattern s) char index))
                   else InputMask.value s)).
  { destruct (Pattern.isEditableIndex (InputMask.pattern s) index) eqn:Ed; [|exact Hv].
    simpl in B. apply negb_false_iff in B.
    apply good_buffer_set; [exact Hv| |].
    - destruct (wf_editable _ (st_wf _ _ Hst) index Ed). lia.
    - eexists. split; [reflexivity|]. split; [now apply (st_fmt _ _ Hst)|].
      rewrite Ed. right. eauto. }
  destruct (Pattern.isEditableIndex (InputMask.pattern s) index);
    destruct (InputMask._historyIndex _) eqn:Hi; 
    destruct (InputMask.starts_entry _ _ _); cbn [snd];
    apply (engine_ok_of s); try reflexivity; simpl.
  all: try (apply good_buffer_blank; assumption).
  all: try (apply Forall_app; split; [|constructor; [now apply good_item_of_value|constructor]]).
  all: try (now apply Forall_splice).
  all: try assumption.
Qed.

Lemma ok_backspace (s : InputMask.t) :
  engine_ok s -> engine_ok (snd (InputMask.backspace s)).
Proof.
  intros Hok. pose proof Hok as [Hst Hv Hh].
  unfold InputMask.backspace, copy.
  destruct ((start (InputMask.sel s) =? 0) && _); [exact Hok|].
  rewrite (getValue_concealed s (st_rev _ _ Hst)). cbv beta iota zeta.
  rewrite (st_rev _ _ Hst).
  assert (Hv' : good_buffer (InputMask.pattern s)
                  (if Pattern.isEditableIndex (InputMask.pattern s)
                        (start (InputMask.sel s) - 1)
                   then arr_set (InputMask.value s) (start (InputMask.sel s) - 1)
                          (Some (InputMask.placeholderChar s))
                   else InputMask.value s)).
  { destruct (Pattern.isEditableIndex (InputMask.pattern s) (start (InputMask.sel s) - 1)) eqn:Ed;
      [|exact Hv].
    apply good_buffer_set; [exact Hv| |now apply good_placeholder].
    destruct (wf_editable _ (st_wf _ _ Hst) _ Ed). lia. }
  destruct (start (InputMask.sel s) =? end_ (InputMask.sel s));
    [destruct (Pattern.isEditableIndex (InputMask.pattern s) (start (InputMask.sel s) - 1))|];
    destruct (InputMask._historyIndex _) eqn:Hi;
    destruct (InputMask.starts_entry _ _ _); cbn [snd];
    apply (engine_ok_of s); try reflexivity; simpl.
  all: try (apply good_buffer_blank; assumption).
  all: try (apply Forall_app; split; [|constructor; [now apply good_item_of_value|constructor]]).
  all: try (now apply Forall_splice).
  all: try assumption.
Qed.

Lemma same_static_refl (s : InputMask.t) : same_static s s.
Proof. split; reflexivity. Qed.

Lemma same_static_trans (s1 s2 s3 : InputMask.t) :
  same_static s1 s2 -> same_static s2 s3 -> same_static s1 s3.
Proof. intros [A B] [C D]. split; congruence. Qed.

Lemma getValue_static (s : InputMask.t) : same_static s (snd (InputMask.getValue s)).
Proof.
  unfold InputMask.getValue. destruct (Pattern.isRevealingMask _); split; reflexivity.
Qed.

Lemma input_static (s : InputMask.t) (char : string) :
  same_static s (snd (InputMask.input s char)).
Proof.
  unfold InputMask.input, copy.
  destruct ((start (InputMask.sel s) =? end_ (InputMask.sel s)) && _); [apply same_static_refl|].
  destruct (getValue_static s) as [Hp Hph].
  destruct (InputMask.getValue s) as [v s1]. cbn [snd] in Hp, Hph. cbv beta iota zeta.
  match goal with
  | |- context [if ?c && negb ?d then _ else _] => destruct (c && negb d)
  end; [split; assumption|].
  match goal with
  | |- context [if Pattern.isEditableIndex ?p ?i then _ else _] =>
      destruct (Pattern.isEditableIndex p i)
  end;
    destruct (InputMask._historyIndex _); destruct (InputMask.starts_entry _ _ _);
    split; cbn; assumption.
Qed.

Lemma backspace_static (s : InputMask.t) : same_static s (snd (InputMask.backspace s)).
Proof.
  unfold InputMask.backspace, copy.
  destruct ((start (InputMask.sel s) =? 0) && _); [apply same_static_refl|].
  destruct (getValue_static s) as [Hp Hph].
  destruct (InputMask.getValue s) as [v s1]. cbn [snd] in Hp, Hph. cbv beta iota zeta.
  destruct (start (InputMask.sel s1) =? end_ (InputMask.sel s1));
    [destruct (Pattern.isEditableIndex _ _); [destruct (Pattern.isRevealingMask _)|]|];
    destruct (InputMask._historyIndex _); destruct (InputMask.starts_entry _ _ _);
    split; cbn; assumption.
Qed.

Lemma ok_paste_loop (snap : InputMask.snapshot) (pastedInput : string) :
  forall fuel i s,
    engine_ok s ->
    good_buffer (InputMask.pattern s) (InputMask.snap_value snap) ->
    Forall (good_item (InputMask.pattern s)) (InputMask.snap_history snap) ->
    engine_ok (snd (InputMask.paste_loop snap pastedInput fuel i s)).
Proof.
  induction fuel as [|f IH]; intros i s Hok Hsv Hsh; cbn [InputMask.paste_loop]; [exact Hok|].
  destruct ((i <? slen pastedInput) && _); [|exact Hok].
  pose proof (ok_input s (charAt pastedInput i) Hok) as Hok'.
  destruct (input_static s (charAt pastedInput i)) as [Hp Hph].
  destruct (InputMask.input s (charAt pastedInput i)) as [valid s'].
  cbn [snd] in *. destruct valid.
  - apply IH; rewrite ?Hp; assumption.
  - match goal with |- context [if ?c then _ else _] => destruct c end.
    + apply IH; rewrite ?Hp; assumption.
    + cbn [snd]. apply (engine_ok_of s'); try reflexivity; simpl;
        rewrite ?Hp; assumption.
Qed.

Lemma ok_paste (s : InputMask.t) (input : string) :
  engine_ok s -> engine_ok (snd (InputMask.paste s input)).
Proof.
  intros Hok. pose proof Hok as [Hst Hv Hh]. unfold InputMask.paste, copy.
  destruct (start (InputMask.sel s) <? _).
  - destruct (InputMask.static_prefix_matches _ _ _ _ _); [|exact Hok].
    apply ok_paste_loop; simpl; try assumption.
    apply (engine_ok_of s); try reflexivity; assumption.
  - apply ok_paste_loop; simpl; assumption.
Qed.

Lemma ok_restore_item (s : InputMask.t) (h : HistoryItem.t) :
  engine_ok s -> good_item (InputMask.pattern s) h ->
  engine_ok (InputMask.restore_item s h).
Proof.
  intros Hok Hh. apply (engine_ok_of s _ Hok); try reflexivity; simpl.
  - exact Hh.
  - apply (ok_history s Hok).
Qed.

Lemma zth_Forall {A : Type} (P : A -> Prop) (l : list A) (i : Z) (x : A) :
  Forall P l -> zth l i = Some x -> P x.
Proof. intros H Hx. rewrite Forall_forall in H. apply H. eapply zth_In. exact Hx. Qed.

Lemma ok_undo (s : InputMask.t) :
  engine_ok s -> engine_ok (state_of (InputMask.undo s)).
Proof.
  intros Hok. pose proof Hok as [Hst Hv Hh]. unfold InputMask.undo, copy.
  destruct ((len (InputMask._history s) =? 0) || _); [exact Hok|].
  destruct (InputMask._historyIndex s) as [k|].
  - cbn [InputMask._history InputMask.with_historyIndex].
    destruct (zth (InputMask._history s) (k - 1)) as [h|] eqn:Z; cbn [state_of].
    + apply ok_restore_item.
      * apply (engine_ok_of s); try reflexivity; assumption.
      * simpl. eapply zth_Forall; eassumption.
    + apply (engine_ok_of s); try reflexivity; assumption.
  - cbn [InputMask._history InputMask.with_historyIndex].
    destruct (zth (InputMask._history s) (len (InputMask._history s) - 1)) as [h|] eqn:Z;
      cbn [state_of].
    + unfold InputMask.getValue. cbn [InputMask.pattern InputMask.with_historyIndex].
      rewrite (st_rev _ _ Hst).
      match goal with |- context [if ?c then _ else _] => destruct c end;
        apply ok_restore_item; try (simpl; eapply zth_Forall; eassumption);
        apply (engine_ok_of s); try reflexivity; simpl; try assumption.
      apply Forall_app; split; [assumption|].
      constructor; [now apply good_item_of_value|constructor].
    + apply (engine_ok_of s); try reflexivity; assumption.
Qed.

Lemma ok_redo (s : InputMask.t) :
  engine_ok s -> engine_ok (state_of (InputMask.redo s)).
Proof.
  intros Hok. pose proof Hok as [Hst Hv Hh]. unfold InputMask.redo.
  destruct (len (InputMask._history s) =? 0); [exact Hok|].
  destruct (InputMask._historyIndex s) as [k|]; [|exact Hok].
  cbn [InputMask._history InputMask.with_historyIndex].
  destruct (zth (InputMask._history s) (k + 1)) as [h|] eqn:Z; cbn [state_of].
  - apply ok_restore_item; [|simpl; destruct (k + 1 =? _); [destruct (HistoryItem.startUndo h)|];
                              simpl; eapply zth_Forall; eassumption].
    destruct (k + 1 =? _); [destruct (HistoryItem.startUndo h)|];
      apply (engine_ok_of s); try reflexivity; simpl; try assumption.
    now apply Forall_pop.
  - apply (engine_ok_of s); try reflexivity; assumption.
Qed.

Lemma ok_setSelection (s : InputMask.t) (x : Selection) :
  engine_ok s -> engine_ok (snd (InputMask.setSelection s x)).
Proof.
  intros Hok. pose proof Hok as [Hst Hv Hh]. unfold InputMask.setSelection, copy.
  cbv zeta. destruct (start _ =? end_ _); [|apply (engine_ok_of s); try reflexivity; assumption].
  destruct (start _ <? _); [apply (engine_ok_of s); try reflexivity; assumption|].
  destruct (InputMask.find_cursor _ _ _);
    apply (engine_ok_of s); try reflexivity; assumption.
Qed.

Lemma ok_setValue (s : InputMask.t) (v : string) :
  engine_ok s -> engine_ok (InputMask.setValue s v).
Proof.
  intros Hok. pose proof Hok as [Hst Hv Hh].
  apply (engine_ok_of s); try reflexivity; simpl; try assumption.
  eapply formatValue_good. exact Hst.
Qed.

Lemma ok_step (o : op) (s : InputMask.t) : engine_ok s -> engine_ok (step o s).
Proof.
  intros Hok. destruct o; cbn [step].
  - now apply ok_input.
  - now apply ok_backspace.
  - now apply ok_paste.
  - now apply ok_undo.
  - now apply ok_redo.
  - now apply ok_setSelection.
  - now apply ok_setValue.
  - rewrite (getValue_concealed s (st_rev _ _ (ok_static s Hok))). exact Hok.
Qed.

Lemma ok_run (ops : list op) : forall s, engine_ok s -> engine_ok (run ops s).
Proof.
  unfold run. induction ops as [|o r IH]; intros s Hok; simpl; [exact Hok|].
  apply IH. now apply ok_step.
Qed.

Lemma engine_ok_buffer (s : InputMask.t) : engine_ok s -> buffer_ok s.
Proof.
  intros [Hst [Hl He] _]. unfold buffer_ok. cbv zeta. split; [exact Hl|]. split.
  - intros i Hi Hed. destruct (He i Hi) as [c [H1 [_ H3]]].
    rewrite Hed in H3. congruence.
  - intros i Hed. destruct (wf_editable _ (st_wf _ _ Hst) i Hed) as [Hi _].
    destruct (He i Hi) as [c [H1 [_ H3]]]. rewrite Hed in H3.
    destruct H3 as [H3|[c0 [H3 H4]]].
    + left. rewrite (st_ph _ _ Hst). congruence.
    + right. exists c0. split; [exact H3|congruence].
Qed.

Lemma transform_as_format (p : Pattern.t) (i : Z) (c : string) (f : Format) :
  Pattern.format_at p i = Some f -> Pattern.transform p c i = apply_format f c.
Proof. intros H. unfold Pattern.transform, apply_format. now rewrite H. Qed.

Lemma static_ok_new (props : InputMaskProps) (s : InputMask.t) :
  InputMask.new props = Ok s ->
  props_isRevealingMask props <> Some true ->
  String.length (match props_placeholderChar props with
                 | Some c => c
                 | None => DEFAULT_PLACEHOLDER_CHAR
                 end) = 1%nat ->
  one_char_formats (mergeFormatCharacters (props_formatCharacters props)) ->
  static_ok (InputMask.pattern s) (InputMask.placeholderChar s).
Proof.
  intros Hnew Hrev Hph Hfc.
  destruct (engine_new_inversion props s Hnew) as [source [p [Hsrc [Hlen [Hp Hs]]]]].
  cbv zeta in *. rewrite Hs. simpl.
  destruct (pattern_new_fields _ _ _ _ _ Hp) as [Pph [Pfc Prev]].
  constructor.
  - eapply new_wf. exact Hp.
  - rewrite Prev. destruct (props_isRevealingMask props) as [[|]|]; congruence.
  - rewrite Pph.
    destruct (match props_placeholderChar props with
              | Some c => c
              | None => DEFAULT_PLACEHOLDER_CHAR
              end); [discriminate|reflexivity].
  - exact Hph.
  - intros i c Hed Hval. unfold Pattern.isValidAtIndex in Hval.
    destruct (Pattern.format_at p i) as [f|] eqn:F; [|discriminate].
    rewrite (transform_as_format p i c f F).
    unfold Pattern.format_at in F. destruct (str_get (Pattern.pattern p) i) as [sym|];
      [|discriminate].
    rewrite Pfc in F. eapply Hfc; eassumption.
Qed.

Lemma engine_ok_new (props : InputMaskProps) (s : InputMask.t) :
  InputMask.new props = Ok s ->
  props_isRevealingMask props <> Some true ->
  String.length (match props_placeholderChar props with
                 | Some c => c
                 | None => DEFAULT_PLACEHOLDER_CHAR
                 end) = 1%nat ->
  one_char_formats (mergeFormatCharacters (props_formatCharacters props)) ->
  engine_ok s.
Proof.
  intros Hnew Hrev Hph Hfc.
  pose proof (static_ok_new props s Hnew Hrev Hph Hfc) as Hst.
  destruct (engine_new_inversion props s Hnew) as [source [p [Hsrc [Hlen [Hp Hs]]]]].
  cbv zeta in *. rewrite Hs in *. simpl in Hst. constructor; simpl.
  - exact Hst.
  - eapply formatValue_good. exact Hst.
  - constructor.
Qed.

Lemma single_char_test_length (cls : ascii -> bool) (c : string) :
  single_char_test cls c = true -> String.length c = 1%nat.
Proof. destruct c as [|a [|b r]]; simpl; try discriminate. reflexivity. Qed.

Lemma toUpperCase_length (c : string) : String.length (toUpperCase c) = String.length c.
Proof. induction c as [|a r IH]; simpl; [reflexivity|]. now rewrite IH. Qed.

(** The built-in validators accept single characters only, and the
    built-in transforms keep the length. *)
Lemma default_one_char : one_char_formats DEFAULT_FORMAT_CHARACTERS.
Proof.
  intros sym f c. simpl.
  repeat match goal with
         | |- (if ?b then _ else _) = _ -> _ => destruct b
         end; intros H; inversion H; subst; clear H;
    unfold apply_format; simpl; intros Hv;
    rewrite ?toUpperCase_length; eapply single_char_test_length; exact Hv.
Qed.

(** C3. In an engine that is not revealing, that was constructed with a
    placeholder of one character and whose format characters store one
    character for every character they accept, after any sequence of
    [input], [backspace], [paste], [undo], [redo], [setSelection],
    [setValue] and [getValue] calls the buffer has one entry per slot of
    the pattern, every literal slot holds the pattern's character, and
    every editable slot holds the placeholder or what the slot's format
    stores for a character that its validator accepts. *)
Theorem C3_buffer_invariant (props : InputMaskProps) (s0 : InputMask.t) (ops : list op) :
  InputMask.new props = Ok s0 ->
  props_isRevealingMask props <> Some true ->
  String.length (match props_placeholderChar props with
                 | Some c => c
                 | None => DEFAULT_PLACEHOLDER_CHAR
                 end) = 1%nat ->
  one_char_formats (mergeFormatCharacters (props_formatCharacters props)) ->
  buffer_ok (run ops s0).
Proof.
  intros Hnew Hrev Hph Hfc. apply engine_ok_buffer, ok_run.
  eapply engine_ok_new; eassumption.
Qed.

(** [C3_buffer_invariant] on the mask [(111) 111-1111] with the built-in
    format characters, for a run that uses every operation. *)
Lemma C3_buffer_invariant_witness :
  match InputMask.new (props_of "(111) 111-1111") with
  | Ok s0 =>
      buffer_ok
        (run [Input "5"; Input "x"; Backspace; Paste "(555) 12"; Undo; Undo; Redo;
              SetSelection {| start := 3; end_ := 7 |}; Input "9";
              SetValue "4155552671"; GetValue; Redo; Undo] s0)
  | Err _ => False
  end.
Proof.
  destruct (InputMask.new (props_of "(111) 111-1111")) as [s0|e] eqn:E.
  - apply (C3_buffer_invariant (props_of "(111) 111-1111") s0 _ E).
    + discriminate.
    + reflexivity.
    + exact default_one_char.
  - hnf in E. discriminate.
Defined.

(** On a revealing mask the buffer does not keep the length of the
    pattern: [backspace] cuts it. *)
Lemma C3_revealing_backspace_truncates :
  match InputMask.new
          {| props_formatCharacters := None;
             props_pattern := Some "11";
             props_isRevealingMask := Some true;
             props_placeholderChar := None;
             props_selection := None;
             props_value := None |} with
  | Ok s0 =>
      let s := run [Input "1"; Backspace] s0 in
      InputMask.value s = [] /\
      Pattern.length (InputMask.pattern s) = 2 /\
      len (InputMask.value s) <> Pattern.length (InputMask.pattern s)
  | Err _ => False
  end.
Proof. vm_compute. repeat split; try reflexivity. discriminate. Qed.

(** ** What no operation changes *)

Lemma paste_loop_static (snap : InputMask.snapshot) (pastedInput : string) :
  forall fuel i s, same_static s (snd (InputMask.paste_loop snap pastedInput fuel i s)).
Proof.
  induction fuel as [|f IH]; intros i s; cbn [InputMask.paste_loop];
    [apply same_static_refl|].
  destruct ((i <? slen pastedInput) && _); [|apply same_static_refl].
  pose proof (input_static s (charAt pastedInput i)) as Hin.
  destruct (InputMask.input s (charAt pastedInput i)) as [valid s']. cbn [snd] in Hin.
  destruct valid.
  - eapply same_static_trans; [exact Hin|apply IH].
  - match goal with |- context [if ?c then _ else _] => destruct c end.
    + eapply same_static_trans; [exact Hin|apply IH].
    + eapply same_static_trans; [exact Hin|]. split; reflexivity.
Qed.

Lemma paste_static (s : InputMask.t) (input : string) :
  same_static s (snd (InputMask.paste s input)).
Proof.
  unfold InputMask.paste, copy. destruct (start (InputMask.sel s) <? _).
  - destruct (InputMask.static_prefix_matches _ _ _ _ _); [|apply same_static_refl].
    eapply same_static_trans; [|apply paste_loop_static]. split; reflexivity.
  - apply paste_loop_static.
Qed.

Lemma undo_static (s : InputMask.t) : same_static s (state_of (InputMask.undo s)).
Proof.
  unfold InputMask.undo, copy.
  destruct ((len (InputMask._history s) =? 0) || _); [apply same_static_refl|].
  destruct (InputMask._historyIndex s) as [k|].
  - destruct (zth _ _); split; reflexivity.
  - destruct (zth _ _); [|split; reflexivity].
    unfold InputMask.getValue. destruct (Pattern.isRevealingMask _); cbv beta iota zeta;
      match goal with |- context [if ?c then _ else _] => destruct c end;
      split; reflexivity.
Qed.

Lemma redo_static (s : InputMask.t) : same_static s (state_of (InputMask.redo s)).
Proof.
  unfold InputMask.redo.
  destruct (len (InputMask._history s) =? 0); [apply same_static_refl|].
  destruct (InputMask._historyIndex s) as [k|]; [|apply same_static_refl].
  cbv zeta. destruct (zth _ _) as [h|]; [|split; reflexivity].
  destruct (k + 1 =? _); [destruct (HistoryItem.startUndo h)|]; split; reflexivity.
Qed.

Lemma setSelection_static (s : InputMask.t) (x : Selection) :
  same_static s (snd (InputMask.setSelection s x)).
Proof.
  unfold InputMask.setSelection, copy. cbv zeta.
  destruct (start _ =? end_ _); [|split; reflexivity].
  destruct (start _ <? _); [split; reflexivity|].
  destruct (InputMask.find_cursor _ _ _); split; reflexivity.
Qed.

Lemma step_static (o : op) (s : InputMask.t) : same_static s (step o s).
Proof.
  destruct o; cbn [step].
  - apply input_static.
  - apply backspace_static.
  - apply paste_static.
  - apply undo_static.
  - apply redo_static.
  - apply setSelection_static.
  - split; reflexivity.
  - apply getValue_static.
Qed.

Lemma run_static (ops : list op) : forall s, same_static s (run ops s).
Proof.
  unfold run. induction ops as [|o r IH]; intros s; simpl; [apply same_static_refl|].
  eapply same_static_trans; [apply step_static|apply IH].
Qed.

(** ** The raw value fed back to [setValue] *)

Lemma raw_chars_nil (p : Pattern.t) (i : Z) : raw_chars p [] i = [].
Proof. reflexivity. Qed.

Lemma raw_chars_cons (p : Pattern.t) (c : string) (rest : list jsval) (i : Z) :
  String.length c = 1%nat ->
  raw_chars p (Some c :: rest) i =
  if Pattern.isEditableIndex p i then c :: raw_chars p rest (i + 1)
  else raw_chars p rest (i + 1).
Proof.
  intros Hc. unfold raw_chars. cbn [InputMask.getRawValue_loop].
  destruct (Pattern.isEditableIndex p i); [|reflexivity].
  cbn [js_join jsval_str]. now apply append_one_char.
Qed.

Lemma raw_chars_head (p : Pattern.t) :
  forall rest i d tl,
    (forall j, 0 <= j < len rest -> stable_entry p (i + j) (arr_get rest j)) ->
    raw_chars p rest i = d :: tl ->
    exists j, 0 <= j < len rest /\
              Pattern.isEditableIndex p (i + j) = true /\
              arr_get rest j = Some d.
Proof.
  induction rest as [|x r IH]; intros i d tl Hst Hraw; [discriminate|].
  pose proof (len_nonneg r) as Hr.
  destruct (Hst 0) as [c [Hx [Hc Hk]]]; [rewrite len_cons; lia|].
  rewrite arr_get_cons_0 in Hx. subst x. rewrite Z.add_0_r in Hk.
  rewrite raw_chars_cons in Hraw by exact Hc.
  destruct (Pattern.isEditableIndex p i) eqn:Ed.
  - inversion Hraw; subst. exists 0. rewrite len_cons, Z.add_0_r. repeat split; auto; lia.
  - destruct (IH (i + 1) d tl) as [j [Hj [He Hg]]]; [|exact Hraw|].
    + intros j Hj. specialize (Hst (j + 1)). rewrite arr_get_cons_pos in Hst by lia.
      replace (j + 1 - 1) with j in Hst by lia.
      replace (i + 1 + j) with (i + (j + 1)) by lia. apply Hst. rewrite len_cons. lia.
    + exists (j + 1). rewrite len_cons. split; [lia|]. split.
      * replace (i + (j + 1)) with (i + 1 + j) by lia. exact He.
      * rewrite arr_get_cons_pos by lia. replace (j + 1 - 1) with j by lia. exact Hg.
Qed.

Lemma forallb_editable (p : Pattern.t) (P : Z -> bool) (i : Z) :
  forallb P (Pattern._editableIndices p) = true ->
  Pattern.isEditableIndex p i = true -> P i = true.
Proof.
  intros H Hi. rewrite forallb_forall in H. apply H.
  apply existsb_Zeqb_In. exact Hi.
Qed.

Lemma literals_apart_from_spec (p : Pattern.t) :
  forall l i k c,
    literals_apart_from p l i = true ->
    zth l k = Some c -> Pattern.isEditableIndex p (i + k) = false ->
    literal_apart p (i + k) c = true.
Proof.
  induction l as [|x r IH]; intros i k c H Hk Hed; [rewrite zth_nil in Hk; discriminate|].
  cbn [literals_apart_from] in H. apply andb_true_iff in H. destruct H as [H1 H2].
  pose proof (zth_Some_range _ _ _ Hk) as Hr.
  destruct (Z.eq_dec k 0) as [->|Hne].
  - rewrite zth_cons_0 in Hk. inversion Hk; subst. rewrite Z.add_0_r in *.
    rewrite Hed in H1. exact H1.
  - rewrite zth_cons_pos in Hk by lia.
    replace (i + k) with (i + 1 + (k - 1)) in * by lia. eapply IH; eassumption.
Qed.

Lemma zth_app_head {A : Type} (pre : list A) (x : A) (tl : list A) :
  zth (pre ++ x :: tl) (len pre) = Some x.
Proof.
  pose proof (len_nonneg pre). rewrite zth_app_r by lia. now rewrite Z.sub_diag.
Qed.

Lemma formatValue_loop_round_trip (p : Pattern.t) :
  Pattern.isRevealingMask p = false ->
  literals_apart p = true ->
  forall rest i pre,
    0 <= i ->
    (forall j, 0 <= j < len rest -> stable_entry p (i + j) (arr_get rest j)) ->
    Pattern.formatValue_loop p (pre ++ raw_chars p rest i) (List.length rest) i (len pre) = rest.
Proof.
  intros Hrev Hlit. induction rest as [|x r IH]; intros i pre Hi Hst; [reflexivity|].
  pose proof (len_nonneg r) as Hr. pose proof (len_nonneg pre) as Hpre.
  assert (Hst' : forall j, 0 <= j < len r -> stable_entry p (i + 1 + j) (arr_get r j)).
  { intros j Hj. specialize (Hst (j + 1)). rewrite arr_get_cons_pos in Hst by lia.
    replace (j + 1 - 1) with j in Hst by lia.
    replace (i + 1 + j) with (i + (j + 1)) by lia. apply Hst. rewrite len_cons. lia. }
  destruct (Hst 0) as [c [Hx [Hc Hk]]]; [rewrite len_cons; lia|].
  rewrite arr_get_cons_0 in Hx. subst x. rewrite Z.add_0_r in Hk.
  cbn [List.length Pattern.formatValue_loop]. rewrite Hrev. cbn [andb].
  rewrite raw_chars_cons by exact Hc.
  destruct (Pattern.isEditableIndex p i) eqn:Ed.
  - unfold str_get. rewrite zth_app_head. cbn [jsval_str].
    replace (len pre <? len (pre ++ c :: raw_chars p r (i + 1))) with true
      by (symmetry; apply Z.ltb_lt; rewrite len_app, len_cons;
          pose proof (len_nonneg (raw_chars p r (i + 1))); lia).
    cbn [andb].
    replace (pre ++ c :: raw_chars p r (i + 1)) with ((pre ++ [c]) ++ raw_chars p r (i + 1))
      by (rewrite <- app_assoc; reflexivity).
    replace (len pre + 1) with (len (pre ++ [c])) by (rewrite len_app, len_cons, len_nil; lia).
    rewrite IH by (auto; lia).
    destruct Hk as [[Hph Hinv]|[Hval Htr]].
    + rewrite Hinv. now rewrite Hph.
    + rewrite Hval, Htr. reflexivity.
  - rewrite Hk. f_equal.
    assert (Hno : (len pre <? len (pre ++ raw_chars p r (i + 1)))
                  && jsval_eqb (str_get (pre ++ raw_chars p r (i + 1)) (len pre)) (Some c)
                  = false).
    { destruct (raw_chars p r (i + 1)) as [|d tl] eqn:Raw.
      - rewrite app_nil_r, Z.ltb_irrefl. reflexivity.
      - unfold str_get. rewrite zth_app_head.
        apply andb_false_iff. right. apply jsval_eqb_neq. intros Heq.
        inversion Heq; subst d.
        destruct (raw_chars_head p r (i + 1) c tl Hst' Raw) as [j [Hj [Hej Hgj]]].
        destruct (Hst' j Hj) as [c' [Hc'1 [Hc'2 Hc'3]]]. rewrite Hej in Hc'3.
        rewrite Hgj in Hc'1. inversion Hc'1; subst c'.
        assert (Hap : literal_apart p i c = true).
        { pose proof (literals_apart_from_spec p (Pattern.pattern p) 0 i c Hlit) as H.
          rewrite Z.add_0_l in H. apply H; [exact Hk|exact Ed]. }
        unfold literal_apart in Hap. apply andb_true_iff in Hap. destruct Hap as [A1 A2].
        apply negb_true_iff, String.eqb_neq in A1.
        pose proof (forallb_editable p _ (i + 1 + j) A2 Hej) as A3. cbv beta in A3.
        replace (i <? i + 1 + j) with true in A3 by (symmetry; apply Z.ltb_lt; lia).
        cbn [negb orb] in A3. apply negb_true_iff in A3.
        destruct Hc'3 as [[B1 B2]|[B1 B2]]; congruence. }
    rewrite Hno. apply IH; [lia|exact Hst'].
Qed.

Lemma good_to_stable (p : Pattern.t) (i : Z) (x : jsval) :
  (forall j c, Pattern.isValidAtIndex p (Some c) j = true ->
               Pattern.isValidAtIndex p (Some (Pattern.transform p c j)) j = true /\
               Pattern.transform p (Pattern.transform p c j) j = Pattern.transform p c j) ->
  placeholder_rejected p = true ->
  good_entry p i x -> stable_entry p i x.
Proof.
  intros Hfa Hpr [c [Hx [Hc Hk]]]. exists c. split; [exact Hx|]. split; [exact Hc|].
  destruct (Pattern.isEditableIndex p i) eqn:Ed; [|exact Hk].
  pose proof (forallb_editable p _ i Hpr Ed) as Hrej. cbv beta in Hrej.
  apply negb_true_iff in Hrej.
  destruct Hk as [->|[c0 [Hv ->]]].
  - left. auto.
  - right. apply Hfa. exact Hv.
Qed.

Lemma pattern_faithful (p : Pattern.t) :
  faithful_formats (Pattern.formatCharacters p) ->
  forall j c, Pattern.isValidAtIndex p (Some c) j = true ->
              Pattern.isValidAtIndex p (Some (Pattern.transform p c j)) j = true /\
              Pattern.transform p (Pattern.transform p c j) j = Pattern.transform p c j.
Proof.
  intros Hfa j c Hv. unfold Pattern.isValidAtIndex in *.
  destruct (Pattern.format_at p j) as [f|] eqn:F; [|discriminate].
  rewrite !(transform_as_format p j _ f F).
  unfold Pattern.format_at in F. destruct (str_get (Pattern.pattern p) j) as [sym|];
    [|discriminate].
  destruct (Hfa sym f c F Hv) as [_ [H2 H3]]. auto.
Qed.

Lemma faithful_one_char (fc : FormatCharacters) : faithful_formats fc -> one_char_formats fc.
Proof. intros H sym f c Hl Hv. apply (H sym f c Hl Hv). Qed.

Lemma round_trip (s : InputMask.t) :
  engine_ok s ->
  faithful_formats (Pattern.formatCharacters (InputMask.pattern s)) ->
  placeholder_rejected (InputMask.pattern s) = true ->
  literals_apart (InputMask.pattern s) = true ->
  InputMask.value (InputMask.setValue s (InputMask.getRawValue s)) = InputMask.value s.
Proof.
  intros [Hst [Hl He] _] Hfa Hpr Hlit.
  unfold InputMask.setValue, InputMask.getRawValue, Pattern.formatValue. simpl.
  pose proof (formatValue_loop_round_trip (InputMask.pattern s) (st_rev _ _ Hst) Hlit
                (InputMask.value s) 0 []) as H.
  unfold raw_chars in H. cbn [app len List.length Z.of_nat] in H.
  replace (Z.to_nat (Pattern.length (InputMask.pattern s)))
    with (List.length (InputMask.value s)) by (unfold len in Hl; lia).
  apply H; [lia|]. intros j Hj. rewrite Z.add_0_l.
  apply good_to_stable; [now apply pattern_faithful|exact Hpr|].
  apply He. lia.
Qed.

Lemma upper_ascii_letter (a : ascii) :
  is_letter a = true ->
  is_letter (upper_ascii a) = true /\ upper_ascii (upper_ascii a) = upper_ascii a.
Proof.
  destruct a as [[] [] [] [] [] [] [] []]; vm_compute; intros H;
    try discriminate; split; reflexivity.
Qed.

Lemma upper_ascii_digit (a : ascii) : is_digit a = true -> upper_ascii a = a.
Proof.
  destruct a as [[] [] [] [] [] [] [] []]; vm_compute; intros H;
    try discriminate; reflexivity.
Qed.

Lemma single_char_test_inv (cls : ascii -> bool) (c : string) :
  single_char_test cls c = true -> exists a, c = String a EmptyString /\ cls a = true.
Proof. destruct c as [|a [|b r]]; simpl; try discriminate. eauto. Qed.

(** The built-in formats store what their validators accept again and
    their transforms fix. *)
Lemma default_faithful : faithful_formats DEFAULT_FORMAT_CHARACTERS.
Proof.
  intros sym f c. simpl.
  repeat match goal with
         | |- (if ?b then _ else _) = _ -> _ => destruct b
         end; intros H; inversion H; subst; clear H;
    unfold apply_format; simpl;
    unfold ALPHANNUMERIC_RE, DIGIT_RE, LETTER_RE; cbn [ToString];
    intros Hv; destruct (single_char_test_inv _ _ Hv) as [a [-> Ha]];
    simpl; try (repeat split; (reflexivity || exact Ha)).
  - destruct (upper_ascii_letter a Ha) as [U1 U2]. rewrite U1, U2. auto.
  - apply orb_true_iff in Ha. destruct Ha as [Ha|Ha].
    + rewrite !(upper_ascii_digit a Ha), Ha. auto.
    + destruct (upper_ascii_letter a Ha) as [U1 U2]. rewrite U1, U2, orb_true_r. auto.
Qed.

(** C5. On a mask that is not revealing, with a placeholder of one
    character that no editable slot accepts, with format characters that
    store each accepted character as one character which they accept
    again and leave unchanged, and with literals that differ from the
    placeholder and are rejected by the editable slots after them,
    [setValue(getRawValue())] gives back the buffer it started from, in
    any state that the engine's operations reach. *)
Theorem C5_raw_value_round_trip (props : InputMaskProps) (s0 : InputMask.t) (ops : list op) :
  InputMask.new props = Ok s0 ->
  props_isRevealingMask props <> Some true ->
  String.length (match props_placeholderChar props with
                 | Some c => c
                 | None => DEFAULT_PLACEHOLDER_CHAR
                 end) = 1%nat ->
  faithful_formats (mergeFormatCharacters (props_formatCharacters props)) ->
  placeholder_rejected (InputMask.pattern s0) = true ->
  literals_apart (InputMask.pattern s0) = true ->
  let s := run ops s0 in
  InputMask.value (InputMask.setValue s (InputMask.getRawValue s)) = InputMask.value s.
Proof.
  intros Hnew Hrev Hph Hfa Hpr Hlit s.
  destruct (run_static ops s0) as [Hp _]. fold s in Hp.
  apply round_trip.
  - apply ok_run. eapply engine_ok_new; try eassumption. now apply faithful_one_char.
  - rewrite Hp.
    destruct (engine_new_inversion props s0 Hnew) as [source [p [_ [_ [Hpn Hs]]]]].
    destruct (pattern_new_fields _ _ _ _ _ Hpn) as [_ [Pfc _]].
    rewrite Hs. simpl. rewrite Pfc. exact Hfa.
  - rewrite Hp. exact Hpr.
  - rewrite Hp. exact Hlit.
Qed.

(** [C5_raw_value_round_trip] on the mask [(111) 111-1111] with the
    built-in format characters, after a few edits. *)
Lemma C5_raw_value_round_trip_witness :
  match InputMask.new (props_of "(111) 111-1111") with
  | Ok s0 =>
      let s := run [Input "4"; Input "1"; Input "5"; Backspace; Paste "55512"] s0 in
      InputMask.value (InputMask.setValue s (InputMask.getRawValue s)) = InputMask.value s
  | Err _ => False
  end.
Proof.
  assert (A : match InputMask.new (props_of "(111) 111-1111") with
              | Ok s0 =>
                  placeholder_rejected (InputMask.pattern s0) = true /\
                  literals_apart (InputMask.pattern s0) = true
              | Err _ => False
              end) by (vm_compute; split; reflexivity).
  destruct (InputMask.new (props_of "(111) 111-1111")) as [s0|e] eqn:E; [|exact A].
  destruct A as [A1 A2].
  apply (C5_raw_value_round_trip (props_of "(111) 111-1111") s0 _ E).
  - discriminate.
  - reflexivity.
  - exact default_faithful.
  - exact A1.
  - exact A2.
Defined.

(** On the mask [axa] the literal [x] is also a letter: after [q] and
    [x] are typed the raw value is [qx], and [setValue] takes its [x] for
    the literal. *)
Lemma C5_literal_taken_from_raw_value :
  match InputMask.new (props_of "axa") with
  | Ok s0 =>
      let s := run [Input "q"; Input "x"] s0 in
      Pattern.isRevealingMask (InputMask.pattern s) = false /\
      InputMask.value s = [Some "q"; Some "x"; Some "x"] /\
      InputMask.getRawValue s = "qx" /\
      InputMask.value (InputMask.setValue s (InputMask.getRawValue s))
      = [Some "q"; Some "x"; Some "_"]
  | Err _ => False
  end.
Proof. vm_compute. repeat split; reflexivity. Qed.

(** ** Undo and redo after keystrokes *)

Lemma skip_static_ge (p : Pattern.t) : forall fuel pos, pos <= InputMask.skip_static p fuel pos.
Proof.
  induction fuel as [|f IH]; intros pos; cbn [InputMask.skip_static]; [lia|].
  destruct ((Pattern.length p >? pos) && _); [|lia].
  specialize (IH (pos + 1)). lia.
Qed.

Lemma app_last_inj {A : Type} (l1 l2 : list A) (x y : A) :
  l1 ++ [x] = l2 ++ [y] -> l1 = l2 /\ x = y.
Proof. intros H. apply app_inj_tail in H. exact H. Qed.

Lemma opt_str_eqb_true (a : option string) (b : string) :
  InputMask.opt_str_eqb a b = true -> a = Some b.
Proof.
  destruct a as [x|]; simpl; [|discriminate]. intros H. apply String.eqb_eq in H. now subst.
Qed.

Lemma starts_entry_false (s : InputMask.t) (op : string) (sb : Selection) :
  InputMask.starts_entry s op sb = false ->
  InputMask._lastOp s = Some op /\ start sb = end_ sb.
Proof.
  unfold InputMask.starts_entry. intros H.
  apply orb_false_iff in H. destruct H as [H _].
  apply orb_false_iff in H. destruct H as [H1 H2].
  apply negb_false_iff in H1, H2. apply Z.eqb_eq in H2.
  split; [now apply opt_str_eqb_true|exact H2].
Qed.

Lemma Forall_items_grow (h : store) (v w : Selection) (l : loc) (items : list HistoryItem.t) :
  (l < List.length h)%nat ->
  Forall (fun i => (HistoryItem.selection i < List.length h)%nat /\
                   HistoryItem.selection i <> l) items ->
  Forall (fun i => (HistoryItem.selection i < List.length (store_set h l v ++ [w]))%nat /\
                   HistoryItem.selection i <> l) items.
Proof.
  intros Hl H. eapply Forall_impl; [|exact H]. cbv beta. intros i [A B].
  rewrite length_app, store_set_length. simpl. split; [lia|exact B].
Qed.


Lemma input_effect (s : InputMask.t) (char : string) :
  Pattern.isRevealingMask (InputMask.pattern s) = false ->
  InputMask._historyIndex s = None ->
  (fst (InputMask.input s char) = false /\ snd (InputMask.input s char) = s) \/
  (fst (InputMask.input s char) = true /\
   exists pos,
     start (InputMask.sel s) < pos /\
     edit_effect s (snd (InputMask.input s char)) "input" {| start := pos; end_ := pos |}).
Proof.
  intros Hrev Hidx. unfold InputMask.input, copy.
  destruct ((start (InputMask.sel s) =? end_ (InputMask.sel s)) && _); [left; auto|].
  rewrite (getValue_concealed s Hrev). cbv beta iota zeta. rewrite max_as_test.
  set (index := Z.max _ _).
  destruct (Pattern.isEditableIndex (InputMask.pattern s) index
            && negb (Pattern.isValidAtIndex (InputMask.pattern s) (Some char) index));
    [left; auto|].
  right. set (pos := InputMask.skip_static _ _ _).
  assert (Hpos : start (InputMask.sel s) < pos).
  { pose proof (skip_static_ge (InputMask.pattern s)
                  (Z.to_nat (Pattern.length (InputMask.pattern s) - (index + 1))) (index + 1)).
    fold pos in H. unfold index in *. lia. }
  destruct (Pattern.isEditableIndex (InputMask.pattern s) index);
    cbn [InputMask._historyIndex InputMask.set_sel InputMask.with_heap InputMask.with_value];
    rewrite Hidx;
    match goal with
    | |- context [InputMask.starts_entry ?a ?b ?c] =>
        change (InputMask.starts_entry a b c)
          with (InputMask.starts_entry s "input" (InputMask.sel s));
        destruct (InputMask.starts_entry s "input" (InputMask.sel s)) eqn:SE
    end; cbn [fst snd]; (split; [reflexivity|]); exists pos; (split; [exact Hpos|]);
    unfold edit_effect; rewrite SE; cbn;
    rewrite ?store_set_length; repeat split; auto.
Qed.

Lemma backspace_effect (s : InputMask.t) :
  Pattern.isRevealingMask (InputMask.pattern s) = false ->
  InputMask._historyIndex s = None ->
  (fst (InputMask.backspace s) = false /\ snd (InputMask.backspace s) = s) \/
  (fst (InputMask.backspace s) = true /\
   exists ns,
     ((start (InputMask.sel s) = end_ (InputMask.sel s) /\
       start ns < start (InputMask.sel s)) \/
      (start (InputMask.sel s) <> end_ (InputMask.sel s) /\
       start ns = start (InputMask.sel s) /\ end_ ns = start (InputMask.sel s))) /\
     edit_effect s (snd (InputMask.backspace s)) "backspace" ns).
Proof.
  intros Hrev Hidx. unfold InputMask.backspace, copy.
  destruct ((start (InputMask.sel s) =? 0) && _); [left; auto|].
  rewrite (getValue_concealed s Hrev). cbv beta iota zeta. rewrite Hrev.
  right.
  destruct (start (InputMask.sel s) =? end_ (InputMask.sel s)) eqn:C;
    [apply Z.eqb_eq in C; destruct (Pattern.isEditableIndex _ _)|apply Z.eqb_neq in C];
    cbn [InputMask._historyIndex InputMask.set_sel InputMask.with_heap InputMask.with_value];
    rewrite Hidx;
    match goal with
    | |- context [InputMask.starts_entry ?a ?b ?c] =>
        change (InputMask.starts_entry a b c)
          with (InputMask.starts_entry s "backspace" (InputMask.sel s));
        destruct (InputMask.starts_entry s "backspace" (InputMask.sel s)) eqn:SE
    end; cbn [fst snd]; (split; [reflexivity|]).
  1-4: exists {| start := start (InputMask.sel s) - 1; end_ := end_ (InputMask.sel s) - 1 |}.
  5-6: exists {| start := start (InputMask.sel s); end_ := start (InputMask.sel s) |}.
  all: split; [cbn [start end_]|].
  all: try (first [left; split; [exact C|lia] | right; split; [exact C|split; reflexivity]]).
  all: unfold edit_effect; rewrite SE; cbn; rewrite ?store_set_length.
  all: (split; [reflexivity|]); (split; [exact Hidx|]);
    (split; [reflexivity|]); (split; [reflexivity|]);
    first [left; repeat split; reflexivity | right; repeat split; reflexivity].
Qed.

Lemma edit_keeps_keys_ok (s r : InputMask.t) (opname : string) (ns : Selection) :
  keys_ok s ->
  edit_effect s r opname ns ->
  (opname = "input" /\ start (InputMask.sel s) < start ns) \/
  (opname = "backspace" /\
   ((start (InputMask.sel s) = end_ (InputMask.sel s) /\ start ns < start (InputMask.sel s)) \/
    (start (InputMask.sel s) <> end_ (InputMask.sel s) /\
     start ns = start (InputMask.sel s) /\ end_ ns = start (InputMask.sel s)))) ->
  keys_ok r.
Proof.
  intros [Hrev Hidx Hsel Hitems Hlast] [Ep [Ei [Eo [Es Eh]]]] Hmove.
  assert (Hold : forall h, In h (InputMask._history s) ->
                           deref (store_set (InputMask.heap s) (InputMask.selection s) ns)
                                 (HistoryItem.selection h)
                           = deref (InputMask.heap s) (HistoryItem.selection h)).
  { intros h Hin. rewrite Forall_forall in Hitems. destruct (Hitems h Hin) as [_ Hne].
    apply deref_set_other. congruence. }
  destruct Eh as [[SE [Eheap Ehist]]|[SE [Eheap Ehist]]].
  - assert (Hselr : InputMask.sel r = ns).
    { unfold InputMask.sel. rewrite Eheap, Es.
      rewrite deref_alloc_old by (rewrite store_set_length; exact Hsel).
      now apply deref_set_same. }
    constructor.
    + now rewrite Ep.
    + exact Ei.
    + rewrite Es, Eheap, length_app, store_set_length. simpl. lia.
    + rewrite Ehist, Eheap, Es. apply Forall_app. split.
      * eapply Forall_impl; [|exact Hitems]. cbv beta. intros h [A B].
        rewrite length_app, store_set_length. simpl. split; [lia|exact B].
      * constructor; [|constructor]. simpl.
        rewrite length_app, store_set_length. simpl. split; lia.
    + intros pre h Hh. rewrite Ehist in Hh. apply app_inj_tail in Hh.
      destruct Hh as [_ <-]. cbv zeta. cbn [HistoryItem.selection].
      rewrite Hselr, Eo. rewrite Eheap.
      replace (List.length (InputMask.heap s))
        with (List.length (store_set (InputMask.heap s) (InputMask.selection s) ns))
        by apply store_set_length.
      rewrite deref_alloc_new.
      destruct Hmove as [[-> Hm]|[-> [[Hc Hm]|[Hc [Hm1 Hm2]]]]].
      * left. split; [reflexivity|lia].
      * right. split; [reflexivity|]. left. lia.
      * right. split; [reflexivity|]. right. split; [lia|]. rewrite Hm2. exact Hc.
  - assert (Hselr : InputMask.sel r = ns).
    { unfold InputMask.sel. rewrite Eheap, Es. now apply deref_set_same. }
    destruct (starts_entry_false s opname (InputMask.sel s) SE) as [Hop Hcol].
    constructor.
    + now rewrite Ep.
    + exact Ei.
    + rewrite Es, Eheap, store_set_length. exact Hsel.
    + rewrite Ehist, Eheap, Es. eapply Forall_impl; [|exact Hitems]. cbv beta.
      intros h [A B]. rewrite store_set_length. split; assumption.
    + intros pre h Hh. rewrite Ehist in Hh. cbv zeta. rewrite Hselr, Eo, Eheap.
      rewrite Hold by (rewrite Hh; apply in_or_app; right; left; reflexivity).
      specialize (Hlast pre h Hh). cbv zeta in Hlast. rewrite Hop in Hlast.
      destruct Hmove as [[-> Hm]|[-> [[Hc Hm]|[Hc _]]]].
      * destruct Hlast as [[_ Hl]|[Hl _]]; [|discriminate].
        left. split; [reflexivity|lia].
      * destruct Hlast as [[Hl _]|[_ Hl]]; [discriminate|].
        right. split; [reflexivity|]. left. lia.
      * contradiction.
Qed.

Lemma ok_keys_step (o : op) (s : InputMask.t) :
  is_keystroke o = true -> keys_ok s -> keys_ok (step o s).
Proof.
  intros Hk Hok. destruct o; try discriminate; cbn [step].
  - destruct (input_effect s char (ko_rev s Hok) (ko_index s Hok))
      as [[_ ->]|[_ [pos [Hpos He]]]]; [exact Hok|].
    eapply edit_keeps_keys_ok; [exact Hok|exact He|]. left. auto.
  - destruct (backspace_effect s (ko_rev s Hok) (ko_index s Hok))
      as [[_ ->]|[_ [ns [Hns He]]]]; [exact Hok|].
    eapply edit_keeps_keys_ok; [exact Hok|exact He|]. right. auto.
Qed.


Lemma keys_ok_new (props : InputMaskProps) (s : InputMask.t) :
  InputMask.new props = Ok s ->
  props_isRevealingMask props <> Some true ->
  keys_ok s.
Proof.
  intros Hnew Hrev.
  destruct (engine_new_inversion props s Hnew) as [source [p [_ [_ [Hp Hs]]]]].
  destruct (pattern_new_fields _ _ _ _ _ Hp) as [_ [_ Prev]].
  rewrite Hs. constructor; simpl.
  - rewrite Prev. destruct (props_isRevealingMask props) as [[|]|]; congruence.
  - reflexivity.
  - lia.
  - constructor.
  - intros pre h Hh. simpl in Hh. destruct pre; discriminate.
Qed.

Lemma zth_last {A : Type} (pre : list A) (x : A) :
  zth (pre ++ [x]) (len (pre ++ [x]) - 1) = Some x.
Proof.
  rewrite len_app, len_cons, len_nil.
  replace (len pre + (1 + 0) - 1) with (len pre) by lia. apply zth_app_head.
Qed.

Lemma undo_first (s : InputMask.t) (pre : list HistoryItem.t) (hl : HistoryItem.t) :
  keys_ok s ->
  InputMask._history s = pre ++ [hl] ->
  InputMask.undo s =
  Returns true
    (InputMask.restore_item
       (InputMask.push_history
          (InputMask.with_historyIndex s (Some (len (InputMask._history s) - 1)))
          (js_join (InputMask.value s)) (InputMask.sel s) (InputMask._lastOp s) true)
       hl).
Proof.
  intros [Hrev Hidx Hsel Hitems Hlast] Hh. unfold InputMask.undo, copy.
  rewrite Hidx. cbn [InputMask.opt_Z_eqb]. rewrite orb_false_r.
  replace (len (InputMask._history s) =? 0) with false
    by (symmetry; apply Z.eqb_neq; rewrite Hh, len_app, len_cons, len_nil;
        pose proof (len_nonneg pre); lia).
  cbn [InputMask._history InputMask.with_historyIndex].
  assert (Hz : zth (InputMask._history s) (len (InputMask._history s) - 1) = Some hl)
    by (rewrite Hh; apply zth_last).
  rewrite Hz.
  rewrite getValue_concealed by exact Hrev.
  cbv beta iota zeta.
  match goal with
  | |- Returns true (InputMask.restore_item (if ?c then _ else _) _) = _ =>
      replace c with true; [reflexivity|]
  end.
  symmetry. specialize (Hlast pre hl Hh). cbv zeta in Hlast.
  unfold InputMask.sel in *.
  cbn [InputMask.heap InputMask.selection InputMask.with_historyIndex].
  destruct Hlast as [[_ Hl]|[_ [Hl|[_ Hl]]]].
  - apply orb_true_iff. left. apply orb_true_iff. right.
    apply negb_true_iff, Z.eqb_neq. lia.
  - apply orb_true_iff. left. apply orb_true_iff. right.
    apply negb_true_iff, Z.eqb_neq. lia.
  - apply orb_true_iff. right. apply negb_true_iff, Z.eqb_neq. congruence.
Qed.









(** ** Paste and the aliasing of the selection object *)

Lemma In_firstn {A : Type} (x : A) (n : nat) (l : list A) : In x (firstn n l) -> In x l.
Proof.
  revert n. induction l as [|y r IH]; intros n H.
  - destruct n; simpl in H; contradiction.
  - destruct n; simpl in H; [contradiction|].
    destruct H as [H|H]; [left; exact H|right; eapply IH; exact H].
Qed.

Lemma In_skipn' {A : Type} (x : A) (n : nat) (l : list A) : In x (skipn n l) -> In x l.
Proof.
  revert n. induction l as [|y r IH]; intros n H.
  - destruct n; simpl in H; contradiction.
  - destruct n; simpl in H; [exact H|]. right. eapply IH. exact H.
Qed.

Lemma In_splice {A : Type} (x : A) (l : list A) (a b : Z) : In x (js_splice l a b) -> In x l.
Proof.
  unfold js_splice. intros H. apply in_app_or in H.
  destruct H as [H|H]; [eapply In_firstn|eapply In_skipn']; exact H.
Qed.

Lemma edit_shape_refl (s : InputMask.t) : edit_shape s s.
Proof.
  split; [reflexivity|]. exists {| start := 0; end_ := 0 |}. split; auto.
Qed.

Lemma getValue_heap (s : InputMask.t) :
  InputMask.heap (snd (InputMask.getValue s)) = InputMask.heap s /\
  InputMask.selection (snd (InputMask.getValue s)) = InputMask.selection s /\
  InputMask._history (snd (InputMask.getValue s)) = InputMask._history s /\
  InputMask._historyIndex (snd (InputMask.getValue s)) = InputMask._historyIndex s.
Proof.
  unfold InputMask.getValue. destruct (Pattern.isRevealingMask _); simpl; auto.
Qed.

Lemma input_shape (s : InputMask.t) (char : string) :
  edit_shape s (snd (InputMask.input s char)).
Proof.
  unfold InputMask.input, copy.
  destruct ((start (InputMask.sel s) =? end_ (InputMask.sel s)) && _);
    [apply edit_shape_refl|].
  destruct (getValue_heap s) as [Hh [Hs [Hhi Hidx]]].
  destruct (InputMask.getValue s) as [v s1]. cbn [snd] in Hh, Hs, Hhi, Hidx.
  cbv beta iota zeta.
  match goal with
  | |- context [if ?c && negb ?d then _ else _] => destruct (c && negb d)
  end.
  { cbn [snd]. split; [exact Hs|]. exists {| start := 0; end_ := 0 |}.
    split; [left; exact Hh|]. intros h Hin. left. now rewrite <- Hhi. }
  match goal with
  | |- context [InputMask.skip_static ?a ?b ?c] => set (pos := InputMask.skip_static a b c)
  end.
  match goal with
  | |- context [if Pattern.isEditableIndex ?p ?i then _ else _] =>
      destruct (Pattern.isEditableIndex p i)
  end;
    destruct (InputMask._historyIndex _) eqn:Hi; destruct (InputMask.starts_entry _ _ _);
    cbn [snd]; (split; [exact Hs|]); exists {| start := pos; end_ := pos |};
    cbn; rewrite ?store_set_length, Hh, Hs, Hhi.
  all: split; [auto; right; right; eexists; reflexivity|].
  all: intros h Hin; try (apply in_app_or in Hin; destruct Hin as [Hin|[<-|[]]]).
  all: try (left; eapply In_splice; exact Hin).
  all: try (left; exact Hin).
  all: right; cbn; rewrite ?length_app, ?store_set_length; simpl; split; [reflexivity|lia].
Qed.

Lemma backspace_shape (s : InputMask.t) : edit_shape s (snd (InputMask.backspace s)).
Proof.
  unfold InputMask.backspace, copy.
  destruct ((start (InputMask.sel s) =? 0) && _); [apply edit_shape_refl|].
  destruct (getValue_heap s) as [Hh [Hs [Hhi Hidx]]].
  destruct (InputMask.getValue s) as [v s1]. cbn [snd] in Hh, Hs, Hhi, Hidx.
  cbv beta iota zeta.
  destruct (start (InputMask.sel s1) =? end_ (InputMask.sel s1));
    [destruct (Pattern.isEditableIndex _ _); [destruct (Pattern.isRevealingMask _)|]|];
    destruct (InputMask._historyIndex _) eqn:Hi; destruct (InputMask.starts_entry _ _ _);
    cbn [snd]; (split; [exact Hs|]); eexists;
    cbn; rewrite ?store_set_length, Hh, Hs, Hhi.
  all: split; [auto; right; right; eexists; reflexivity|].
  all: intros h Hin; try (apply in_app_or in Hin; destruct Hin as [Hin|[<-|[]]]).
  all: try (left; eapply In_splice; exact Hin).
  all: try (left; exact Hin).
  all: right; cbn; rewrite ?length_app, ?store_set_length; simpl; split; [reflexivity|lia].
Qed.

Lemma frame_refl (s : InputMask.t) : frame s s.
Proof. split; [reflexivity|]. split; [lia|]. auto. Qed.

Lemma frame_trans (s1 s2 s3 : InputMask.t) : frame s1 s2 -> frame s2 s3 -> frame s1 s3.
Proof.
  intros [A1 [A2 A3]] [B1 [B2 B3]]. split; [congruence|]. split; [lia|].
  intros l Hl Hne. rewrite B3 by (try lia; congruence). auto.
Qed.

Lemma edit_shape_frame (s r : InputMask.t) : edit_shape s r -> frame s r.
Proof.
  intros [Hs [ns [Hh _]]]. split; [exact Hs|].
  destruct Hh as [Hh|[Hh|[x Hh]]]; rewrite Hh.
  - split; [lia|]. auto.
  - rewrite store_set_length. split; [lia|]. intros l Hl Hne.
    apply deref_set_other. congruence.
  - rewrite length_app, store_set_length. split; [simpl; lia|]. intros l Hl Hne.
    rewrite deref_alloc_old by (rewrite store_set_length; exact Hl).
    apply deref_set_other. congruence.
Qed.

Lemma edit_shape_unaliased (s r : InputMask.t) :
  edit_shape s r -> unaliased s -> unaliased r.
Proof.
  intros [Hs [ns [Hh Hin]]] [U1 U2]. rewrite Forall_forall in U2.
  assert (Hlen : (List.length (InputMask.heap s) <= List.length (InputMask.heap r))%nat).
  { destruct Hh as [Hh|[Hh|[x Hh]]]; rewrite Hh, ?length_app, ?store_set_length;
      simpl; lia. }
  split; [rewrite Hs; lia|]. apply Forall_forall. intros h Hh'. rewrite Hs.
  destruct (Hin h Hh') as [Hold|[Hnew Hl]].
  - destruct (U2 h Hold). split; [lia|assumption].
  - rewrite Hnew, Hl. split; lia.
Qed.

Lemma paste_loop_false (snap : InputMask.snapshot) (pastedInput : string) :
  forall fuel i s,
    fst (InputMask.paste_loop snap pastedInput fuel i s) = false ->
    exists s', frame s s' /\
               snd (InputMask.paste_loop snap pastedInput fuel i s)
               = InputMask.restore_snapshot s' snap.
Proof.
  induction fuel as [|f IH]; intros i s; cbn [InputMask.paste_loop]; [discriminate|].
  destruct ((i <? slen pastedInput) && _); [|discriminate].
  pose proof (edit_shape_frame _ _ (input_shape s (charAt pastedInput i))) as Hfr.
  destruct (InputMask.input s (charAt pastedInput i)) as [valid s1]. cbn [snd] in Hfr.
  destruct valid.
  - intros H. destruct (IH _ _ H) as [s' [F E]]. exists s'.
    split; [eapply frame_trans; eassumption|exact E].
  - match goal with |- context [if ?c then _ else _] => destruct c end.
    + intros H. destruct (IH _ _ H) as [s' [F E]]. exists s'.
      split; [eapply frame_trans; eassumption|exact E].
    + intros _. exists s1. split; [exact Hfr|reflexivity].
Qed.

Lemma restore_snapshot_view (s s' : InputMask.t) :
  unaliased s -> frame s s' ->
  state_view (InputMask.restore_snapshot s' (InputMask.take_snapshot s)) = state_view s.
Proof.
  intros [U1 U2] [F1 [F2 F3]]. unfold state_view.
  assert (Hsel : InputMask.sel (InputMask.restore_snapshot s' (InputMask.take_snapshot s))
                 = InputMask.sel s).
  { unfold InputMask.sel at 1. simpl. apply deref_alloc_new. }
  assert (Hhist : history_view (InputMask.restore_snapshot s' (InputMask.take_snapshot s))
                  = history_view s).
  { unfold history_view. simpl. apply map_ext_in. intros h Hin.
    rewrite Forall_forall in U2. destruct (U2 h Hin) as [A B].
    unfold item_view. rewrite deref_alloc_old by lia. rewrite F3; auto. }
  rewrite Hsel, Hhist. simpl. unfold copy.
  destruct (InputMask._lastSelection s); reflexivity.
Qed.

Theorem paste_atomic_unaliased (s : InputMask.t) (input : string) :
  unaliased s ->
  fst (InputMask.paste s input) = false ->
  state_view (snd (InputMask.paste s input)) = state_view s.
Proof.
  intros Hu. unfold InputMask.paste, copy.
  destruct (start (InputMask.sel s) <? _).
  - destruct (InputMask.static_prefix_matches _ _ _ _ _); [|reflexivity].
    intros H. destruct (paste_loop_false _ _ _ _ _ H) as [s' [F E]]. rewrite E.
    apply restore_snapshot_view; [exact Hu|].
    eapply frame_trans; [|exact F].
    split; [reflexivity|]. simpl. rewrite store_set_length. split; [lia|].
    intros l Hl Hne. apply deref_set_other. congruence.
  - intros H. destruct (paste_loop_false _ _ _ _ _ H) as [s' [F E]]. rewrite E.
    now apply restore_snapshot_view.
Qed.

Lemma new_unaliased (props : InputMaskProps) (s : InputMask.t) :
  InputMask.new props = Ok s -> unaliased s.
Proof.
  intros H. destruct (engine_new_inversion props s H) as [source [p [_ [_ [_ Hs]]]]].
  rewrite Hs. split; simpl; [lia|constructor].
Qed.

Lemma paste_loop_unaliased (snap : InputMask.snapshot) (pastedInput : string) :
  forall fuel i s,
    unaliased s ->
    Forall (fun h => (HistoryItem.selection h < List.length (InputMask.heap s))%nat)
           (InputMask.snap_history snap) ->
    unaliased (snd (InputMask.paste_loop snap pastedInput fuel i s)).
Proof.
  induction fuel as [|f IH]; intros i s Hu Hsnap; cbn [InputMask.paste_loop]; [exact Hu|].
  destruct ((i <? slen pastedInput) && _); [|exact Hu].
  pose proof (input_shape s (charAt pastedInput i)) as Hsh.
  pose proof (edit_shape_frame _ _ Hsh) as [_ [Hlen _]].
  pose proof (edit_shape_unaliased _ _ Hsh Hu) as Hu1.
  destruct (InputMask.input s (charAt pastedInput i)) as [valid s1].
  cbn [snd] in Hlen, Hu1.
  assert (Hsnap1 : Forall (fun h => (HistoryItem.selection h
                                     < List.length (InputMask.heap s1))%nat)
                          (InputMask.snap_history snap)).
  { eapply Forall_impl; [|exact Hsnap]. cbv beta. intros h Hh. lia. }
  destruct valid; [now apply IH|].
  match goal with |- context [if ?c then _ else _] => destruct c end; [now apply IH|].
  cbn [snd]. split; simpl.
  - rewrite length_app. simpl. lia.
  - eapply Forall_impl; [|exact Hsnap1]. cbv beta. intros h Hh.
    rewrite length_app. simpl. split; lia.
Qed.

Lemma paste_unaliased (s : InputMask.t) (input : string) :
  unaliased s -> unaliased (snd (InputMask.paste s input)).
Proof.
  intros Hu. pose proof Hu as [U1 U2]. unfold InputMask.paste, copy.
  assert (Hsnap : Forall (fun h => (HistoryItem.selection h
                                    < List.length (InputMask.heap s))%nat)
                         (InputMask.snap_history (InputMask.take_snapshot s))).
  { simpl. eapply Forall_impl; [|exact U2]. cbv beta. intros h [A _]. exact A. }
  destruct (start (InputMask.sel s) <? _).
  - destruct (InputMask.static_prefix_matches _ _ _ _ _); [|exact Hu].
    apply paste_loop_unaliased.
    + split; simpl; rewrite store_set_length; [exact U1|exact U2].
    + simpl. rewrite store_set_length. exact Hsnap.
  - now apply paste_loop_unaliased.
Qed.

Lemma setSelection_unaliased (s : InputMask.t) (x : Selection) :
  unaliased s -> unaliased (snd (InputMask.setSelection s x)).
Proof.
  intros [U1 U2]. unfold InputMask.setSelection, copy. cbv zeta.
  assert (Hnew : unaliased (InputMask.new_sel s x)).
  { split; simpl; rewrite length_app; simpl; [lia|].
    eapply Forall_impl; [|exact U2]. cbv beta. intros h [A _]. split; lia. }
  assert (Hset : forall v, unaliased (InputMask.set_sel (InputMask.new_sel s x) v)).
  { intros v. destruct Hnew as [N1 N2]. split; simpl in *; rewrite store_set_length;
      assumption. }
  destruct (start _ =? end_ _); [|exact Hnew].
  destruct (start _ <? _); [apply Hset|].
  destruct (InputMask.find_cursor _ _ _); [apply Hset|exact Hnew].
Qed.

Lemma step_unaliased (o : op) (s : InputMask.t) :
  no_replay o = true -> unaliased s -> unaliased (step o s).
Proof.
  intros Ho Hu. destruct o; try discriminate; cbn [step].
  - eapply edit_shape_unaliased; [apply input_shape|exact Hu].
  - eapply edit_shape_unaliased; [apply backspace_shape|exact Hu].
  - now apply paste_unaliased.
  - now apply setSelection_unaliased.
  - exact Hu.
  - destruct (getValue_heap s) as [Hh [Hs [Hhi _]]]. destruct Hu as [U1 U2].
    split; rewrite ?Hh, ?Hs, ?Hhi; assumption.
Qed.

Lemma run_unaliased (ops : list op) :
  forall s, forallb no_replay ops = true -> unaliased s -> unaliased (run ops s).
Proof.
  unfold run. induction ops as [|o r IH]; intros s Ho Hu; simpl; [exact Hu|].
  simpl in Ho. apply andb_true_iff in Ho. destruct Ho as [Ho1 Ho2].
  apply IH; [exact Ho2|]. now apply step_unaliased.
Qed.

(** X20. In every state that a new engine reaches without [undo] and
    [redo], a paste that fails leaves the whole observable state as it
    was: the buffer, the selection, the history with its selections, the
    history index, the last operation and the last selection. *)
Theorem paste_atomic_before_undo (props : InputMaskProps) (s0 : InputMask.t)
        (ops : list op) (input : string) :
  InputMask.new props = Ok s0 ->
  forallb no_replay ops = true ->
  fst (InputMask.paste (run ops s0) input) = false ->
  state_view (snd (InputMask.paste (run ops s0) input)) = state_view (run ops s0).
Proof.
  intros Hnew Hops. apply paste_atomic_unaliased.
  apply run_unaliased; [exact Hops|]. eapply new_unaliased. exact Hnew.
Qed.

(** An engine that is undoing stays so through [backspace], which cuts
    the history and leaves [_historyIndex] as it is ([input] resets it).
    On the mask [11], after the keystrokes 1, backspace, 1 and two undos,
    a backspace empties the field; the undos and redos that follow end at
    [1_] with the cursor at 1. *)
Lemma backspace_while_undoing_keeps_index :
  match InputMask.new (props_of "11") with
  | Ok s0 =>
      let s := run [Input "1"; Backspace; Input "1"; Undo; Undo; Backspace] s0 in
      InputMask._historyIndex s = Some 1 /\
      fst (InputMask.getValue s) = "__" /\
      InputMask.sel s = {| start := 0; end_ := 0 |} /\
      match undo_until_false 3 s with
      | Some u =>
          match redo_until_false 3 u with
          | Some r =>
              fst (InputMask.getValue r) = "1_" /\
              InputMask.sel r = {| start := 1; end_ := 1 |}
          | None => False
          end
      | None => False
      end
  | Err _ => False
  end.
Proof. vm_compute. repeat split; reflexivity. Qed.

(** ** The merge of the format characters *)

Lemma fc_lookup_set_same (fc : FormatCharacters) (k : string) (f : Format) :
  fc_lookup (fc_set fc k f) k = Some f.
Proof.
  induction fc as [|[k' f'] r IH]; simpl.
  - now rewrite String.eqb_refl.
  - destruct (String.eqb k' k) eqn:E; simpl.
    + now rewrite String.eqb_refl.
    + now rewrite E.
Qed.

Lemma fc_lookup_set_other (fc : FormatCharacters) (k k' : string) (f : Format) :
  k <> k' -> fc_lookup (fc_set fc k f) k' = fc_lookup fc k'.
Proof.
  intros Hne. induction fc as [|[k0 f0] r IH]; simpl.
  - apply String.eqb_neq in Hne. now rewrite Hne.
  - destruct (String.eqb k0 k) eqn:E; simpl.
    + apply String.eqb_eq in E. subst k0.
      apply String.eqb_neq in Hne. now rewrite Hne.
    + destruct (String.eqb k0 k'); [reflexivity|exact IH].
Qed.

Lemma fc_lookup_delete_same (fc : FormatCharacters) (k : string) :
  fc_lookup (fc_delete fc k) k = None.
Proof.
  induction fc as [|[k' f'] r IH]; simpl; [reflexivity|].
  destruct (String.eqb k' k) eqn:E; simpl; [exact IH|]. now rewrite E.
Qed.

Lemma fc_lookup_delete_other (fc : FormatCharacters) (k k' : string) :
  k <> k' -> fc_lookup (fc_delete fc k) k' = fc_lookup fc k'.
Proof.
  intros Hne. induction fc as [|[k0 f0] r IH]; simpl; [reflexivity|].
  destruct (String.eqb k0 k) eqn:E; simpl.
  - apply String.eqb_eq in E. subst k0.
    apply String.eqb_neq in Hne. now rewrite Hne.
  - destruct (String.eqb k0 k'); [reflexivity|exact IH].
Qed.

Lemma merge_loop_lookup (o : FormatOverrides) :
  forall merged k,
    fc_lookup (merge_loop merged o) k =
    match last_override o k with
    | Some d => d
    | None => fc_lookup merged k
    end.
Proof.
  induction o as [|[k' d] r IH]; intros merged k; [reflexivity|].
  cbn [merge_loop last_override].
  destruct d as [f|]; rewrite IH; destruct (last_override r k); try reflexivity;
    destruct (String.eqb k' k) eqn:E;
    try (apply String.eqb_eq in E; subst k');
    try (apply String.eqb_neq in E).
  - apply fc_lookup_set_same.
  - now apply fc_lookup_set_other.
  - apply fc_lookup_delete_same.
  - now apply fc_lookup_delete_other.
Qed.

(** X1. After [mergeFormatCharacters], a symbol has the definition that
    the overrides give it last; it is unregistered if they remove it last
    (a [null] definition); and it keeps its built-in definition, if it has
    one, when the overrides do not name it. Without overrides the result
    is the built-in table. *)
Theorem mergeFormatCharacters_lookup (o : FormatOverrides) (k : string) :
  fc_lookup (mergeFormatCharacters (Some o)) k =
  match last_override o k with
  | Some d => d
  | None => fc_lookup DEFAULT_FORMAT_CHARACTERS k
  end
  /\ fc_lookup (mergeFormatCharacters None) k = fc_lookup DEFAULT_FORMAT_CHARACTERS k.
Proof.
  unfold mergeFormatCharacters, copy. split; [apply merge_loop_lookup|reflexivity].
Qed.

(** ** The constructor *)

(** X2. What [new InputMask(props)] does, case by case, for props whose
    [placeholderChar] key is absent or holds a string (the props of the
    model; on any other value of that key the constructor raises):
    without a pattern it raises; with a placeholder of more than one character it raises,
    whatever the pattern; otherwise it raises exactly when the pattern
    ends in an escape character or, failing that, has no editable slot;
    in every other case it returns an engine with an empty history, not
    undoing, with the selection as given (or [{0,0}]), the placeholder as
    given, and on which [undo] and [redo] return [false] and change
    nothing. *)
Theorem constructor_outcome (props : InputMaskProps) :
  let ph := match props_placeholderChar props with
            | Some c => c
            | None => DEFAULT_PLACEHOLDER_CHAR
            end in
  let selection := match props_selection props with
                   | Some x => x
                   | None => {| start := 0; end_ := 0 |}
                   end in
  match props_pattern props with
  | None => InputMask.new props = Err MissingPattern
  | Some source =>
      if slen ph >? 1 then InputMask.new props = Err InvalidPlaceholder
      else
        match resolve (mergeFormatCharacters (props_formatCharacters props))
                      (js_split source) with
        | Err _ => InputMask.new props = Err UnterminatedEscape
        | Ok slots =>
            if existsb slot_editable slots
            then exists s,
                InputMask.new props = Ok s /\
                InputMask._history s = [] /\
                InputMask._historyIndex s = None /\
                InputMask._lastOp s = None /\
                InputMask.sel s = selection /\
                InputMask._lastSelection s = Some selection /\
                InputMask.placeholderChar s = ph /\
                Pattern.pattern (InputMask.pattern s) = map slot_char slots /\
                InputMask.emptyValue s =
                  js_join (Pattern.formatValue (InputMask.pattern s) []) /\
                InputMask.undo s = Returns false s /\
                InputMask.redo s = Returns false s
            else InputMask.new props = Err EmptyPattern
        end
  end.
Proof.
  intros ph selection. unfold InputMask.new.
  destruct (props_pattern props) as [source|]; [|reflexivity].
  fold ph. destruct (slen ph >? 1); [reflexivity|].
  unfold InputMask.setPattern, copy.
  pose proof (new_of_resolve (mergeFormatCharacters (props_formatCharacters props))
                source ph
                (match props_isRevealingMask props with Some b => b | None => false end))
    as H.
  destruct (resolve _ (js_split source)) as [slots|e].
  - destruct (existsb slot_editable slots).
    + destruct H as [p [Hp [Hpat _]]]. rewrite Hp.
      eexists. split; [reflexivity|]. cbn. fold selection.
      repeat split; try reflexivity. exact Hpat.
    + rewrite H. reflexivity.
  - rewrite H. reflexivity.
Qed.

(** ** The bounds of a compiled pattern *)

Lemma scan_extend_last (slots : list slot) :
  forall st idx,
    (forall b, Pattern.s_lastEditableIndex st = Some b ->
               In b (Pattern.s_editableIndices st)) ->
    forall b, Pattern.s_lastEditableIndex (scan_extend st idx slots) = Some b ->
              In b (Pattern.s_editableIndices (scan_extend st idx slots)).
Proof.
  induction slots as [|[c|c] r IH]; intros st idx H; cbn [scan_extend].
  - exact H.
  - apply IH. exact H.
  - apply IH. simpl. intros b Hb. inversion Hb. now left.
Qed.

Lemma wf_index_nonneg (p : Pattern.t) :
  wf_pattern p -> forall i, Pattern.isEditableIndex p i = true -> 0 <= i.
Proof. intros W i Hi. apply (wf_editable p W) in Hi. lia. Qed.

(** X3. In a pattern that compiled, [firstEditableIndex] and
    [lastEditableIndex] are editable slots inside the pattern, the first
    not after the last, and every editable slot lies between them, inside
    the pattern, and holds a registered symbol; [length] is the number of
    slots. *)
Theorem compiled_pattern_bounds (source : string) (fc : FormatCharacters) (ph : string)
        (rev : bool) (p : Pattern.t) :
  Pattern.new source fc ph rev = Ok p ->
  Pattern.length p = len (Pattern.pattern p) /\
  0 <= Pattern.firstEditableIndex p /\
  Pattern.firstEditableIndex p <= Pattern.lastEditableIndex p /\
  Pattern.lastEditableIndex p < Pattern.length p /\
  Pattern.isEditableIndex p (Pattern.firstEditableIndex p) = true /\
  Pattern.isEditableIndex p (Pattern.lastEditableIndex p) = true /\
  forall i, Pattern.isEditableIndex p i = true ->
            Pattern.firstEditableIndex p <= i <= Pattern.lastEditableIndex p /\
            exists sym f, str_get (Pattern.pattern p) i = Some sym /\
                          fc_lookup fc sym = Some f.
Proof.
  intros H. pose proof (new_wf _ _ _ _ _ H) as W.
  destruct (pattern_new_fields _ _ _ _ _ H) as [_ [Pfc _]].
  assert (Hlast : Pattern.isEditableIndex p (Pattern.lastEditableIndex p) = true).
  { destruct (new_inversion _ _ _ _ _ H) as [slots [a [b [R [F [L ->]]]]]].
    unfold Pattern.isEditableIndex. simpl. apply existsb_Zeqb_In.
    pose proof (scan_extend_last slots Pattern.scan0 0) as HL.
    destruct b as [b|].
    - apply HL; [simpl; discriminate|exact L].
    - pose proof (resolve_slots_ok fc _ _ (split_chars source) R) as Hok.
      pose proof (scan_inv_extend fc slots Hok _ _ (scan_inv_0 fc)) as [_ _ I3 I4 _].
      rewrite L in I4. rewrite F in I3. destruct I3 as [I3 _]. rewrite I4 in I3.
      destruct I3. }
  pose proof (wf_first p W) as Hfirst.
  pose proof (wf_editable p W _ Hfirst) as [Hf1 _].
  pose proof (wf_editable p W _ Hlast) as [Hl1 _].
  pose proof (wf_bounds p W _ Hlast) as Hfl.
  split; [apply (wf_length p W)|]. split; [lia|]. split; [lia|]. split; [lia|].
  split; [exact Hfirst|]. split; [exact Hlast|].
  intros i Hi. split; [apply (wf_bounds p W _ Hi)|].
  destruct (wf_editable p W _ Hi) as [_ [f Hf]].
  unfold Pattern.format_at in Hf.
  destruct (str_get (Pattern.pattern p) i) as [sym|]; [|discriminate].
  exists sym, f. rewrite <- Pfc. auto.
Qed.

(** [compiled_pattern_bounds] on the mask [(111) 111-1111] with the
    built-in format characters. *)
Lemma compiled_pattern_bounds_witness :
  match Pattern.new "(111) 111-1111" DEFAULT_FORMAT_CHARACTERS "_" false with
  | Ok p =>
      Pattern.length p = len (Pattern.pattern p) /\
      0 <= Pattern.firstEditableIndex p /\
      Pattern.firstEditableIndex p <= Pattern.lastEditableIndex p /\
      Pattern.lastEditableIndex p < Pattern.length p /\
      Pattern.isEditableIndex p (Pattern.firstEditableIndex p) = true /\
      Pattern.isEditableIndex p (Pattern.lastEditableIndex p) = true /\
      forall i, Pattern.isEditableIndex p i = true ->
                Pattern.firstEditableIndex p <= i <= Pattern.lastEditableIndex p /\
                exists sym f, str_get (Pattern.pattern p) i = Some sym /\
                              fc_lookup DEFAULT_FORMAT_CHARACTERS sym = Some f
  | Err _ => False
  end.
Proof.
  destruct (Pattern.new "(111) 111-1111" DEFAULT_FORMAT_CHARACTERS "_" false)
    as [p|e] eqn:E.
  - exact (compiled_pattern_bounds _ _ _ _ p E).
  - hnf in E. discriminate.
Defined.

(** ** The shape of a formatted value *)

Lemma formatValue_loop_length (p : Pattern.t) (value : list string) :
  forall n i valueIndex,
    List.length (Pattern.formatValue_loop p value n i valueIndex) = n.
Proof.
  induction n as [|n IH]; intros i vi; [reflexivity|].
  cbn [Pattern.formatValue_loop].
  destruct (Pattern.isEditableIndex p i).
  - destruct (Pattern.isRevealingMask p && (len value <=? vi)
              && negb (Pattern.isValidAtIndex p (str_get value vi) i)).
    + apply repeat_length.
    + simpl. now rewrite IH.
  - simpl. now rewrite IH.
Qed.

Lemma formatValue_loop_shape (p : Pattern.t) (value : list string) :
  Pattern.isRevealingMask p = false ->
  forall n i valueIndex j,
    0 <= valueIndex -> 0 <= j < Z.of_nat n ->
    if Pattern.isEditableIndex p (i + j)
    then arr_get (Pattern.formatValue_loop p value n i valueIndex) j
         = Some (Pattern.placeholderChar p) \/
         exists c, In c value /\ Pattern.isValidAtIndex p (Some c) (i + j) = true /\
                   arr_get (Pattern.formatValue_loop p value n i valueIndex) j
                   = Some (Pattern.transform p c (i + j))
    else arr_get (Pattern.formatValue_loop p value n i valueIndex) j
         = str_get (Pattern.pattern p) (i + j).
Proof.
  intros Hrev. induction n as [|n IH]; intros i vi j Hvi Hj; [lia|].
  cbn [Pattern.formatValue_loop]. rewrite Hrev. cbn [andb].
  destruct (Z.eq_dec j 0) as [->|Hne].
  - rewrite Z.add_0_r. destruct (Pattern.isEditableIndex p i) eqn:Ed.
    + rewrite arr_get_cons_0.
      destruct ((vi <? len value) && Pattern.isValidAtIndex p (str_get value vi) i) eqn:C;
        [|now left].
      right. apply andb_true_iff in C. destruct C as [C1 C2].
      apply Z.ltb_lt in C1.
      destruct (zth_in_range value vi) as [c Hc]; [lia|].
      unfold str_get in *. rewrite Hc in *. exists c.
      split; [eapply zth_In; eassumption|]. split; [exact C2|reflexivity].
    + apply arr_get_cons_0.
  - replace (i + j) with (i + 1 + (j - 1)) by lia.
    destruct (Pattern.isEditableIndex p i).
    + rewrite arr_get_cons_pos by lia. apply IH; lia.
    + rewrite arr_get_cons_pos by lia. apply IH; [|lia].
      destruct ((vi <? len value) && _); lia.
Qed.

(** X4. [formatValue] of a compiled pattern always returns as many
    entries as the pattern has slots, in revealing mode too (where some
    may be unset). When the mask is not revealing, every literal slot
    holds the pattern's character and every editable slot holds the
    placeholder or what the slot's format stores for one of the given
    characters that its validator accepts. *)
Theorem formatValue_shape (source : string) (fc : FormatCharacters) (ph : string)
        (rev : bool) (p : Pattern.t) (value : list string) :
  Pattern.new source fc ph rev = Ok p ->
  len (Pattern.formatValue p value) = Pattern.length p /\
  (rev = false ->
   forall i, 0 <= i < Pattern.length p ->
     if Pattern.isEditableIndex p i
     then arr_get (Pattern.formatValue p value) i = Some (Pattern.placeholderChar p) \/
          exists c, In c value /\ Pattern.isValidAtIndex p (Some c) i = true /\
                    arr_get (Pattern.formatValue p value) i = Some (Pattern.transform p c i)
     else arr_get (Pattern.formatValue p value) i = str_get (Pattern.pattern p) i).
Proof.
  intros H. pose proof (new_wf _ _ _ _ _ H) as W.
  destruct (pattern_new_fields _ _ _ _ _ H) as [_ [_ Prev]].
  pose proof (wf_length p W) as HL. pose proof (len_nonneg (Pattern.pattern p)) as HN.
  unfold Pattern.formatValue. split.
  - unfold len at 1. rewrite formatValue_loop_length. lia.
  - intros Hr i Hi. rewrite Hr in Prev.
    pose proof (formatValue_loop_shape p value Prev (Z.to_nat (Pattern.length p)) 0 0 i)
      as S.
    rewrite Z.add_0_l in S. apply S; lia.
Qed.

(** [formatValue_shape] on the mask [11/11] with the built-in format
    characters and the characters [1], [x], [/], [2]. *)
Lemma formatValue_shape_witness :
  match Pattern.new "11/11" DEFAULT_FORMAT_CHARACTERS "_" false with
  | Ok p =>
      let value := ["1"; "x"; "/"; "2"] in
      len (Pattern.formatValue p value) = Pattern.length p /\
      (false = false ->
       forall i, 0 <= i < Pattern.length p ->
         if Pattern.isEditableIndex p i
         then arr_get (Pattern.formatValue p value) i = Some (Pattern.placeholderChar p) \/
              exists c, In c value /\ Pattern.isValidAtIndex p (Some c) i = true /\
                        arr_get (Pattern.formatValue p value) i
                        = Some (Pattern.transform p c i)
         else arr_get (Pattern.formatValue p value) i = str_get (Pattern.pattern p) i)
  | Err _ => False
  end.
Proof.
  destruct (Pattern.new "11/11" DEFAULT_FORMAT_CHARACTERS "_" false) as [p|e] eqn:E.
  - exact (formatValue_shape _ _ _ _ p ["1"; "x"; "/"; "2"] E).
  - hnf in E. discriminate.
Defined.

(** ** [setValue] of what [getValue] returns *)

Lemma formatValue_loop_echo (p : Pattern.t) :
  Pattern.isRevealingMask p = false ->
  forall rest i pre,
    0 <= i ->
    (forall j, 0 <= j < len rest -> stable_entry p (i + j) (arr_get rest j)) ->
    Pattern.formatValue_loop p (pre ++ js_split (js_join rest)) (List.length rest) i (len pre)
    = rest.
Proof.
  intros Hrev. induction rest as [|x r IH]; intros i pre Hi Hst; [reflexivity|].
  pose proof (len_nonneg r) as Hr. pose proof (len_nonneg pre) as Hpre.
  assert (Hst' : forall j, 0 <= j < len r -> stable_entry p (i + 1 + j) (arr_get r j)).
  { intros j Hj. specialize (Hst (j + 1)). rewrite arr_get_cons_pos in Hst by lia.
    replace (j + 1 - 1) with j in Hst by lia.
    replace (i + 1 + j) with (i + (j + 1)) by lia. apply Hst. rewrite len_cons. lia. }
  destruct (Hst 0) as [c [Hx [Hc Hk]]]; [rewrite len_cons; lia|].
  rewrite arr_get_cons_0 in Hx. subst x. rewrite Z.add_0_r in Hk.
  cbn [List.length Pattern.formatValue_loop js_join jsval_str]. rewrite Hrev. cbn [andb].
  rewrite (append_one_char c _ Hc).
  unfold str_get. rewrite zth_app_head. cbn [jsval_str].
  replace (len pre <? len (pre ++ c :: js_split (js_join r))) with true
    by (symmetry; apply Z.ltb_lt; rewrite len_app, len_cons;
        pose proof (len_nonneg (js_split (js_join r))); lia).
  cbn [andb].
  replace (pre ++ c :: js_split (js_join r)) with ((pre ++ [c]) ++ js_split (js_join r))
    by (rewrite <- app_assoc; reflexivity).
  assert (Hlen : len pre + 1 = len (pre ++ [c]))
    by (rewrite len_app, len_cons, len_nil; lia).
  destruct (Pattern.isEditableIndex p i) eqn:Ed.
  - rewrite Hlen, IH by (auto; lia).
    destruct Hk as [[Hph Hinv]|[Hval Htr]].
    + rewrite Hinv. now rewrite Hph.
    + rewrite Hval, Htr. reflexivity.
  - fold (str_get (Pattern.pattern p) i). rewrite Hk.
    replace (jsval_eqb (Some c) (Some c)) with true
      by (symmetry; now apply jsval_eqb_eq).
    rewrite Hlen, IH by (auto; lia). reflexivity.
Qed.

Lemma value_round_trip (s : InputMask.t) :
  engine_ok s ->
  faithful_formats (Pattern.formatCharacters (InputMask.pattern s)) ->
  placeholder_rejected (InputMask.pattern s) = true ->
  InputMask.value (InputMask.setValue s (js_join (InputMask.value s))) = InputMask.value s.
Proof.
  intros [Hst [Hl He] _] Hfa Hpr.
  unfold InputMask.setValue, Pattern.formatValue. simpl.
  pose proof (formatValue_loop_echo (InputMask.pattern s) (st_rev _ _ Hst)
                (InputMask.value s) 0 []) as H.
  cbn [app len List.length Z.of_nat] in H.
  replace (Z.to_nat (Pattern.length (InputMask.pattern s)))
    with (List.length (InputMask.value s)) by (unfold len in Hl; lia).
  apply H; [lia|]. intros j Hj. rewrite Z.add_0_l.
  apply good_to_stable; [now apply pattern_faithful|exact Hpr|].
  apply He. lia.
Qed.

(** X5. On a mask that is not revealing, with a placeholder of one
    character that no editable slot accepts and format characters that
    store each accepted character as one character which they accept
    again and leave unchanged, [setValue(getValue())] gives back the
    buffer it started from in every state that the engine's operations
    reach. Unlike the round trip through [getRawValue], this needs nothing
    of the literals. *)
Theorem getValue_setValue_round_trip (props : InputMaskProps) (s0 : InputMask.t)
        (ops : list op) :
  InputMask.new props = Ok s0 ->
  props_isRevealingMask props <> Some true ->
  String.length (match props_placeholderChar props with
                 | Some c => c
                 | None => DEFAULT_PLACEHOLDER_CHAR
                 end) = 1%nat ->
  faithful_formats (mergeFormatCharacters (props_formatCharacters props)) ->
  placeholder_rejected (InputMask.pattern s0) = true ->
  let s := run ops s0 in
  InputMask.value
    (InputMask.setValue (snd (InputMask.getValue s)) (fst (InputMask.getValue s)))
  = InputMask.value s.
Proof.
  intros Hnew Hrev Hph Hfa Hpr s.
  destruct (run_static ops s0) as [Hp _]. fold s in Hp.
  assert (Hok : engine_ok s).
  { apply ok_run. eapply engine_ok_new; try eassumption. now apply faithful_one_char. }
  rewrite (getValue_concealed s (st_rev _ _ (ok_static s Hok))). cbn [fst snd].
  apply value_round_trip.
  - exact Hok.
  - rewrite Hp.
    destruct (engine_new_inversion props s0 Hnew) as [source [p [_ [_ [Hpn Hs]]]]].
    destruct (pattern_new_fields _ _ _ _ _ Hpn) as [_ [Pfc _]].
    rewrite Hs. simpl. rewrite Pfc. exact Hfa.
  - rewrite Hp. exact Hpr.
Qed.

(** [getValue_setValue_round_trip] on the mask [axa], whose literal [x]
    is also a letter, after [q] and [x] are typed. *)
Lemma getValue_setValue_round_trip_witness :
  match InputMask.new (props_of "axa") with
  | Ok s0 =>
      let s := run [Input "q"; Input "x"] s0 in
      InputMask.value
        (InputMask.setValue (snd (InputMask.getValue s)) (fst (InputMask.getValue s)))
      = InputMask.value s
  | Err _ => False
  end.
Proof.
  assert (A : match InputMask.new (props_of "axa") with
              | Ok s0 => placeholder_rejected (InputMask.pattern s0) = true
              | Err _ => False
              end) by (vm_compute; reflexivity).
  destruct (InputMask.new (props_of "axa")) as [s0|e] eqn:E; [|exact A].
  apply (getValue_setValue_round_trip (props_of "axa") s0 _ E).
  - discriminate.
  - reflexivity.
  - exact default_faithful.
  - exact A.
Defined.

(** ** Every reachable engine refers to allocated selection objects *)

Lemma edit_shape_allocated (s r : InputMask.t) :
  edit_shape s r -> allocated s -> allocated r.
Proof.
  intros [Hs [ns [Hh Hin]]] [U1 U2]. rewrite Forall_forall in U2.
  assert (Hlen : (List.length (InputMask.heap s) <= List.length (InputMask.heap r))%nat).
  { destruct Hh as [Hh|[Hh|[x Hh]]]; rewrite Hh, ?length_app, ?store_set_length;
      simpl; lia. }
  split; [rewrite Hs; lia|]. apply Forall_forall. intros h Hh'.
  destruct (Hin h Hh') as [Hold|[Hnew Hl]].
  - specialize (U2 h Hold). lia.
  - rewrite Hnew, Hl. lia.
Qed.

Lemma paste_loop_allocated (snap : InputMask.snapshot) (pastedInput : string) :
  forall fuel i s,
    allocated s ->
    Forall (fun h => (HistoryItem.selection h < List.length (InputMask.heap s))%nat)
           (InputMask.snap_history snap) ->
    allocated (snd (InputMask.paste_loop snap pastedInput fuel i s)).
Proof.
  induction fuel as [|f IH]; intros i s Hu Hsnap; cbn [InputMask.paste_loop]; [exact Hu|].
  destruct ((i <? slen pastedInput) && _); [|exact Hu].
  pose proof (input_shape s (charAt pastedInput i)) as Hsh.
  pose proof (edit_shape_frame _ _ Hsh) as [_ [Hlen _]].
  pose proof (edit_shape_allocated _ _ Hsh Hu) as Hu1.
  destruct (InputMask.input s (charAt pastedInput i)) as [valid s1].
  cbn [snd] in Hlen, Hu1.
  assert (Hsnap1 : Forall (fun h => (HistoryItem.selection h
                                     < List.length (InputMask.heap s1))%nat)
                          (InputMask.snap_history snap)).
  { eapply Forall_impl; [|exact Hsnap]. cbv beta. intros h Hh. lia. }
  destruct valid; [now apply IH|].
  match goal with |- context [if ?c then _ else _] => destruct c end; [now apply IH|].
  cbn [snd]. split; simpl.
  - rewrite length_app. simpl. lia.
  - eapply Forall_impl; [|exact Hsnap1]. cbv beta. intros h Hh.
    rewrite length_app. simpl. lia.
Qed.

Lemma paste_allocated (s : InputMask.t) (input : string) :
  allocated s -> allocated (snd (InputMask.paste s input)).
Proof.
  intros Hu. pose proof Hu as [U1 U2]. unfold InputMask.paste, copy.
  destruct (start (InputMask.sel s) <? _).
  - destruct (InputMask.static_prefix_matches _ _ _ _ _); [|exact Hu].
    apply paste_loop_allocated.
    + split; simpl; rewrite store_set_length; [exact U1|exact U2].
    + simpl. rewrite store_set_length. exact U2.
  - now apply paste_loop_allocated.
Qed.

Lemma restore_item_allocated (s : InputMask.t) (h : HistoryItem.t) :
  allocated s -> In h (InputMask._history s) -> allocated (InputMask.restore_item s h).
Proof.
  intros [U1 U2] Hin. split; simpl; [|exact U2].
  rewrite Forall_forall in U2. now apply U2.
Qed.

Lemma push_history_allocated (s : InputMask.t) (v : string) (x : Selection)
      (o : option string) (b : bool) :
  allocated s -> allocated (InputMask.push_history s v x o b).
Proof.
  intros [U1 U2]. split; simpl; rewrite length_app; simpl; [lia|].
  apply Forall_app. split.
  - eapply Forall_impl; [|exact U2]. cbv beta. intros h Hh. lia.
  - constructor; [simpl; lia|constructor].
Qed.

Lemma undo_allocated (s : InputMask.t) :
  allocated s -> allocated (state_of (InputMask.undo s)).
Proof.
  intros Hu. unfold InputMask.undo, copy.
  destruct ((len (InputMask._history s) =? 0) || _); [exact Hu|].
  destruct (InputMask._historyIndex s) as [k|].
  - cbn [InputMask._history InputMask.with_historyIndex].
    destruct (zth (InputMask._history s) (k - 1)) as [h|] eqn:Z; [|exact Hu].
    cbn [state_of]. apply restore_item_allocated; [exact Hu|].
    simpl. eapply zth_In. exact Z.
  - cbn [InputMask._history InputMask.with_historyIndex].
    destruct (zth (InputMask._history s) (len (InputMask._history s) - 1)) as [h|] eqn:Z;
      [|exact Hu].
    set (s1 := InputMask.with_historyIndex s _).
    assert (Hu1 : allocated s1) by exact Hu.
    assert (Hin1 : In h (InputMask._history s1)) by (simpl; eapply zth_In; exact Z).
    destruct (getValue_heap s1) as [Hh [Hs [Hhi _]]].
    destruct (InputMask.getValue s1) as [v s2]. cbn [snd] in Hh, Hs, Hhi.
    assert (Hu2 : allocated s2).
    { destruct Hu1 as [A B]. split; rewrite ?Hh, ?Hs, ?Hhi; assumption. }
    cbn [state_of].
    match goal with |- context [if ?c then _ else _] => destruct c end.
    + apply restore_item_allocated; [now apply push_history_allocated|].
      simpl. apply in_or_app. left. now rewrite Hhi.
    + apply restore_item_allocated; [exact Hu2|]. now rewrite Hhi.
Qed.

Lemma redo_allocated (s : InputMask.t) :
  allocated s -> allocated (state_of (InputMask.redo s)).
Proof.
  intros Hu. unfold InputMask.redo.
  destruct (len (InputMask._history s) =? 0); [exact Hu|].
  destruct (InputMask._historyIndex s) as [k|]; [|exact Hu].
  cbn [InputMask._history InputMask.with_historyIndex].
  destruct (zth (InputMask._history s) (k + 1)) as [h|] eqn:Z; [|exact Hu].
  cbn [state_of]. pose proof (zth_In _ _ _ Z) as Hin.
  pose proof Hu as [U1 U2]. rewrite Forall_forall in U2.
  destruct (k + 1 =? _); [destruct (HistoryItem.startUndo h)|].
  - split; simpl; [now apply U2|]. apply Forall_pop. now apply Forall_forall.
  - split; simpl; [now apply U2|]. now apply Forall_forall.
  - split; simpl; [now apply U2|]. now apply Forall_forall.
Qed.

Lemma setSelection_allocated (s : InputMask.t) (x : Selection) :
  allocated s -> allocated (snd (InputMask.setSelection s x)).
Proof.
  intros [U1 U2]. unfold InputMask.setSelection, copy. cbv zeta.
  assert (Hnew : allocated (InputMask.new_sel s x)).
  { split; simpl; rewrite length_app; simpl; [lia|].
    eapply Forall_impl; [|exact U2]. cbv beta. intros h A. lia. }
  assert (Hset : forall v, allocated (InputMask.set_sel (InputMask.new_sel s x) v)).
  { intros v. destruct Hnew as [N1 N2]. split; simpl in *; rewrite store_set_length;
      assumption. }
  destruct (start _ =? end_ _); [|exact Hnew].
  destruct (start _ <? _); [apply Hset|].
  destruct (InputMask.find_cursor _ _ _); [apply Hset|exact Hnew].
Qed.

Lemma step_allocated (o : op) (s : InputMask.t) : allocated s -> allocated (step o s).
Proof.
  intros Hu. destruct o; cbn [step].
  - eapply edit_shape_allocated; [apply input_shape|exact Hu].
  - eapply edit_shape_allocated; [apply backspace_shape|exact Hu].
  - now apply paste_allocated.
  - now apply undo_allocated.
  - now apply redo_allocated.
  - now apply setSelection_allocated.
  - exact Hu.
  - destruct (getValue_heap s) as [Hh [Hs [Hhi _]]]. destruct Hu as [U1 U2].
    split; rewrite ?Hh, ?Hs, ?Hhi; assumption.
Qed.

Lemma run_allocated (ops : list op) : forall s, allocated s -> allocated (run ops s).
Proof.
  unfold run. induction ops as [|o r IH]; intros s Hu; simpl; [exact Hu|].
  apply IH. now apply step_allocated.
Qed.

Lemma new_allocated (props : InputMaskProps) (s : InputMask.t) :
  InputMask.new props = Ok s -> allocated s.
Proof.
  intros H. destruct (engine_new_inversion props s H) as [source [p [_ [_ [_ Hs]]]]].
  rewrite Hs. split; simpl; [lia|constructor].
Qed.

Lemma new_engine_wf (props : InputMaskProps) (s : InputMask.t) :
  InputMask.new props = Ok s -> wf_pattern (InputMask.pattern s).
Proof.
  intros H. destruct (engine_new_inversion props s H) as [source [p [_ [_ [Hp Hs]]]]].
  rewrite Hs. simpl. eapply new_wf. exact Hp.
Qed.

Lemma new_engine_concealed (props : InputMaskProps) (s : InputMask.t) :
  InputMask.new props = Ok s ->
  props_isRevealingMask props <> Some true ->
  Pattern.isRevealingMask (InputMask.pattern s) = false.
Proof.
  intros H Hrev. destruct (engine_new_inversion props s H) as [source [p [_ [_ [Hp Hs]]]]].
  destruct (pattern_new_fields _ _ _ _ _ Hp) as [_ [_ Prev]].
  rewrite Hs. simpl. rewrite Prev.
  destruct (props_isRevealingMask props) as [[|]|]; congruence.
Qed.

(** What every state that a new engine reaches keeps: the compiled
    pattern, with its mode, and the allocation of the selection objects. *)
Lemma reached (props : InputMaskProps) (s0 : InputMask.t) (ops : list op) :
  InputMask.new props = Ok s0 ->
  wf_pattern (InputMask.pattern (run ops s0)) /\
  allocated (run ops s0) /\
  (props_isRevealingMask props <> Some true ->
   Pattern.isRevealingMask (InputMask.pattern (run ops s0)) = false).
Proof.
  intros H. destruct (run_static ops s0) as [Hp _]. rewrite Hp.
  split; [eapply new_engine_wf; exact H|].
  split; [apply run_allocated; eapply new_allocated; exact H|].
  intros Hrev. eapply new_engine_concealed; eassumption.
Qed.

(** ** What an accepted [input] does *)

Lemma skip_static_spec (p : Pattern.t) :
  forall fuel pos0,
    (Z.to_nat (Pattern.length p - pos0) <= fuel)%nat ->
    pos0 <= InputMask.skip_static p fuel pos0 /\
    (InputMask.skip_static p fuel pos0 < Pattern.length p ->
     Pattern.isEditableIndex p (InputMask.skip_static p fuel pos0) = true) /\
    forall j, pos0 <= j < InputMask.skip_static p fuel pos0 ->
              j < Pattern.length p /\ Pattern.isEditableIndex p j = false.
Proof.
  induction fuel as [|f IH]; intros pos0 Hf; cbn [InputMask.skip_static].
  - split; [lia|]. split; [lia|]. intros j Hj. lia.
  - destruct ((Pattern.length p >? pos0) && negb (Pattern.isEditableIndex p pos0)) eqn:C.
    + apply andb_true_iff in C. destruct C as [C1 C2].
      rewrite Z.gtb_ltb in C1. apply Z.ltb_lt in C1. apply negb_true_iff in C2.
      destruct (IH (pos0 + 1)) as [A [B D]]; [lia|].
      split; [lia|]. split; [exact B|]. intros j Hj.
      destruct (Z.eq_dec j pos0) as [->|Hne]; [auto|]. apply D. lia.
    + split; [lia|]. split; [|intros j Hj; lia].
      intros Hlt. apply andb_false_iff in C. destruct C as [C|C].
      * rewrite Z.gtb_ltb in C. apply Z.ltb_ge in C. lia.
      * now apply negb_false_iff in C.
Qed.

Lemma accepted_input_fields (s : InputMask.t) (char : string) :
  fst (InputMask.input s char) = true ->
  let s1 := snd (InputMask.getValue s) in
  let p := InputMask.pattern s in
  let index := Z.max (start (InputMask.sel s)) (Pattern.firstEditableIndex p) in
  let pos := InputMask.skip_static p (Z.to_nat (Pattern.length p - (index + 1)))
               (index + 1) in
  let r := snd (InputMask.input s char) in
  InputMask.value r =
    InputMask.blank_down p (InputMask.placeholderChar s)
      (Z.to_nat (end_ (InputMask.sel s) - 1 - index)) (end_ (InputMask.sel s) - 1) index
      (if Pattern.isEditableIndex p index
       then arr_set (InputMask.value s1) index (Some (Pattern.transform p char index))
       else InputMask.value s1) /\
  InputMask._historyIndex r = None /\
  InputMask._lastOp r = Some "input" /\
  InputMask._lastSelection r = Some (InputMask.sel r) /\
  ((InputMask.selection s < List.length (InputMask.heap s))%nat ->
   InputMask.sel r = {| start := pos; end_ := pos |}).
Proof.
  unfold InputMask.input, copy.
  destruct ((start (InputMask.sel s) =? end_ (InputMask.sel s)) && _); [discriminate|].
  assert (Hg : InputMask.heap (snd (InputMask.getValue s)) = InputMask.heap s /\
               InputMask.selection (snd (InputMask.getValue s)) = InputMask.selection s /\
               InputMask.pattern (snd (InputMask.getValue s)) = InputMask.pattern s /\
               InputMask.placeholderChar (snd (InputMask.getValue s))
               = InputMask.placeholderChar s).
  { unfold InputMask.getValue. destruct (Pattern.isRevealingMask _); simpl; auto. }
  destruct (InputMask.getValue s) as [v s1]. cbn [snd] in *.
  destruct Hg as [Hh [Hs [Hp Hph]]].
  assert (Hsel : InputMask.sel s1 = InputMask.sel s)
    by (unfold InputMask.sel; now rewrite Hh, Hs).
  cbv beta iota zeta. rewrite Hsel, Hp, max_as_test.
  set (index := Z.max _ _).
  destruct (Pattern.isEditableIndex (InputMask.pattern s) index
            && negb (Pattern.isValidAtIndex (InputMask.pattern s) (Some char) index));
    [discriminate|].
  intros _. set (pos := InputMask.skip_static _ _ _).
  destruct (Pattern.isEditableIndex (InputMask.pattern s) index);
    cbn [InputMask._historyIndex InputMask.set_sel InputMask.with_heap InputMask.with_value];
    destruct (InputMask._historyIndex s1) eqn:Hi; destruct (InputMask.starts_entry _ _ _);
    cbn [snd]; unfold InputMask.sel; cbn; rewrite ?Hh, ?Hs, ?Hph, ?Hi;
    (split; [reflexivity|]); (split; [reflexivity|]); (split; [reflexivity|]);
    (split; [reflexivity|]); intros Hl;
    repeat match goal with
           | |- context [nth ?l ?h {| start := 0; end_ := 0 |}] =>
               change (nth l h {| start := 0; end_ := 0 |}) with (deref h l)
           end;
    rewrite ?deref_alloc_old by (rewrite store_set_length; exact Hl);
    apply deref_set_same; exact Hl.
Qed.

Lemma input_at (s : InputMask.t) (char : string) :
  wf_pattern (InputMask.pattern s) ->
  (InputMask.selection s < List.length (InputMask.heap s))%nat ->
  Pattern.isRevealingMask (InputMask.pattern s) = false ->
  fst (InputMask.input s char) = true ->
  let p := InputMask.pattern s in
  let index := Z.max (start (InputMask.sel s)) (Pattern.firstEditableIndex p) in
  let pos := InputMask.skip_static p (Z.to_nat (Pattern.length p - (index + 1)))
               (index + 1) in
  let r := snd (InputMask.input s char) in
  (forall j,
      arr_get (InputMask.value r) j =
      if (index <? j) && (j <? end_ (InputMask.sel s)) && Pattern.isEditableIndex p j
      then Some (InputMask.placeholderChar s)
      else if (j =? index) && Pattern.isEditableIndex p index
           then Some (Pattern.transform p char index)
           else arr_get (InputMask.value s) j) /\
  InputMask.sel r = {| start := pos; end_ := pos |} /\
  index < pos /\
  (pos < Pattern.length p -> Pattern.isEditableIndex p pos = true) /\
  (forall j, index < j < pos -> j < Pattern.length p /\ Pattern.isEditableIndex p j = false).
Proof.
  intros W Hal Hc Hacc p index pos r.
  destruct (accepted_input_fields s char Hacc) as [Hv [_ [_ [_ Hsel]]]].
  specialize (Hsel Hal). fold p index pos r in Hv, Hsel.
  rewrite (getValue_concealed s Hc) in Hv. cbn [snd] in Hv.
  destruct (skip_static_spec p (Z.to_nat (Pattern.length p - (index + 1))) (index + 1))
    as [S1 [S2 S3]]; [lia|]. fold pos in S1, S2, S3.
  split; [|split; [exact Hsel|split; [lia|split; [exact S2|]]]].
  - intros j. rewrite Hv.
    rewrite blank_down_get by (try lia; apply (wf_index_nonneg p W)).
    replace (j <=? end_ (InputMask.sel s) - 1) with (j <? end_ (InputMask.sel s))
      by (destruct (j <? end_ (InputMask.sel s)) eqn:A;
          [apply Z.ltb_lt in A; symmetry; apply Z.leb_le; lia
          |apply Z.ltb_ge in A; symmetry; apply Z.leb_gt; lia]).
    destruct ((index <? j) && (j <? end_ (InputMask.sel s)) && Pattern.isEditableIndex p j);
      [reflexivity|].
    destruct (Pattern.isEditableIndex p index) eqn:Ed.
    + pose proof (wf_index_nonneg p W _ Ed) as Hi.
      destruct (Z.eqb_spec j index) as [->|Hne]; cbn [andb].
      * now apply arr_get_set_same.
      * apply arr_get_set_other; lia.
    + now rewrite andb_false_r.
  - intros j Hj. apply S3. lia.
Qed.

(** X6. In every state that a new engine reaches through safe
    selections, on a mask that is not revealing, an [input] that is
    accepted writes the buffer at the input
    index (the larger of [selection.start] and [firstEditableIndex]) with
    the transformed character if that slot is editable, blanks the
    editable slots of the rest of the selection, and leaves every other
    entry alone. The selection ends collapsed, right of the input index,
    on the first slot after it that is editable or past the last slot;
    only literal slots are skipped. *)
Theorem input_accepted (props : InputMaskProps) (s0 : InputMask.t) (ops : list op)
        (char : string) :
  InputMask.new props = Ok s0 ->
  props_isRevealingMask props <> Some true ->
  safe_along ops s0 = true ->
  fst (InputMask.input (run ops s0) char) = true ->
  let s := run ops s0 in
  let p := InputMask.pattern s in
  let index := Z.max (start (InputMask.sel s)) (Pattern.firstEditableIndex p) in
  let r := snd (InputMask.input s char) in
  (forall j,
      arr_get (InputMask.value r) j =
      if (index <? j) && (j <? end_ (InputMask.sel s)) && Pattern.isEditableIndex p j
      then Some (InputMask.placeholderChar s)
      else if (j =? index) && Pattern.isEditableIndex p index
           then Some (Pattern.transform p char index)
           else arr_get (InputMask.value s) j) /\
  start (InputMask.sel r) = end_ (InputMask.sel r) /\
  index < start (InputMask.sel r) /\
  (start (InputMask.sel r) < Pattern.length p ->
   Pattern.isEditableIndex p (start (InputMask.sel r)) = true) /\
  (forall j, index < j < start (InputMask.sel r) ->
             j < Pattern.length p /\ Pattern.isEditableIndex p j = false).
Proof.
  intros Hnew Hrev _ Hacc s p index r.
  destruct (reached props s0 ops Hnew) as [W [[Hal _] Hc]]. specialize (Hc Hrev).
  destruct (input_at (run ops s0) char W Hal Hc Hacc) as [Hv [Hsel [Hlt [He Hs]]]].
  fold s p index r in Hv, Hsel, Hlt, He, Hs.
  rewrite Hsel. cbn [start end_]. auto.
Qed.

(** [input_accepted] on the mask [(111) 111-1111]: with the digits of
    the area code selected, a digit replaces them and the cursor stops
    behind it. *)
Lemma input_accepted_witness :
  match InputMask.new (props_of "(111) 111-1111") with
  | Ok s0 =>
      let s := run [Paste "(415"; SetSelection {| start := 1; end_ := 4 |}] s0 in
      let p := InputMask.pattern s in
      let index := Z.max (start (InputMask.sel s)) (Pattern.firstEditableIndex p) in
      let r := snd (InputMask.input s "9") in
      (forall j,
          arr_get (InputMask.value r) j =
          if (index <? j) && (j <? end_ (InputMask.sel s)) && Pattern.isEditableIndex p j
          then Some (InputMask.placeholderChar s)
          else if (j =? index) && Pattern.isEditableIndex p index
               then Some (Pattern.transform p "9" index)
               else arr_get (InputMask.value s) j) /\
      start (InputMask.sel r) = end_ (InputMask.sel r) /\
      index < start (InputMask.sel r) /\
      (start (InputMask.sel r) < Pattern.length p ->
       Pattern.isEditableIndex p (start (InputMask.sel r)) = true) /\
      (forall j, index < j < start (InputMask.sel r) ->
                 j < Pattern.length p /\ Pattern.isEditableIndex p j = false)
  | Err _ => False
  end.
Proof.
  assert (A : match InputMask.new (props_of "(111) 111-1111") with
              | Ok s0 =>
                  safe_along [Paste "(415"; SetSelection {| start := 1; end_ := 4 |}] s0
                  = true /\
                  fst (InputMask.input
                         (run [Paste "(415"; SetSelection {| start := 1; end_ := 4 |}] s0)
                         "9") = true
              | Err _ => False
              end) by (vm_compute; split; reflexivity).
  destruct (InputMask.new (props_of "(111) 111-1111")) as [s0|e] eqn:E; [|exact A].
  destruct A as [A1 A2].
  apply (input_accepted (props_of "(111) 111-1111") s0 _ "9" E).
  - discriminate.
  - exact A1.
  - exact A2.
Defined.

(** ** What [backspace] does *)

Lemma backspace_fields (s : InputMask.t) :
  Pattern.isRevealingMask (InputMask.pattern s) = false ->
  (start (InputMask.sel s) =? 0) && (end_ (InputMask.sel s) =? 0) = false ->
  let p := InputMask.pattern s in
  let r := snd (InputMask.backspace s) in
  fst (InputMask.backspace s) = true /\
  InputMask.value r =
    (if start (InputMask.sel s) =? end_ (InputMask.sel s)
     then if Pattern.isEditableIndex p (start (InputMask.sel s) - 1)
          then arr_set (InputMask.value s) (start (InputMask.sel s) - 1)
                 (Some (InputMask.placeholderChar s))
          else InputMask.value s
     else InputMask.blank_down p (InputMask.placeholderChar s)
            (Z.to_nat (end_ (InputMask.sel s) - 1 - (start (InputMask.sel s) - 1)))
            (end_ (InputMask.sel s) - 1) (start (InputMask.sel s) - 1)
            (InputMask.value s)) /\
  InputMask._lastOp r = Some "backspace" /\
  InputMask._lastSelection r = Some (InputMask.sel r) /\
  ((InputMask.selection s < List.length (InputMask.heap s))%nat ->
   InputMask.sel r =
   if start (InputMask.sel s) =? end_ (InputMask.sel s)
   then {| start := start (InputMask.sel s) - 1; end_ := end_ (InputMask.sel s) - 1 |}
   else {| start := start (InputMask.sel s); end_ := start (InputMask.sel s) |}).
Proof.
  intros Hrev H0. unfold InputMask.backspace, copy. rewrite H0.
  rewrite (getValue_concealed s Hrev). cbv beta iota zeta. rewrite Hrev.
  destruct (start (InputMask.sel s) =? end_ (InputMask.sel s));
    [destruct (Pattern.isEditableIndex _ _)|];
    cbn [InputMask._historyIndex InputMask.set_sel InputMask.with_heap InputMask.with_value];
    destruct (InputMask._historyIndex s) eqn:Hi; destruct (InputMask.starts_entry _ _ _);
    cbn [fst snd]; unfold InputMask.sel; cbn; rewrite ?Hi;
    (split; [reflexivity|]); (split; [reflexivity|]); (split; [reflexivity|]);
    (split; [reflexivity|]); intros Hl;
    repeat match goal with
           | |- context [nth ?l ?h {| start := 0; end_ := 0 |}] =>
               change (nth l h {| start := 0; end_ := 0 |}) with (deref h l)
           end;
    rewrite ?deref_alloc_old by (rewrite store_set_length; exact Hl);
    apply deref_set_same; exact Hl.
Qed.

Lemma backspace_at (s : InputMask.t) :
  wf_pattern (InputMask.pattern s) ->
  (InputMask.selection s < List.length (InputMask.heap s))%nat ->
  Pattern.isRevealingMask (InputMask.pattern s) = false ->
  let p := InputMask.pattern s in
  let r := snd (InputMask.backspace s) in
  let collapsed := start (InputMask.sel s) =? end_ (InputMask.sel s) in
  let lo := if collapsed then start (InputMask.sel s) - 1 else start (InputMask.sel s) in
  (fst (InputMask.backspace s) = false <->
   start (InputMask.sel s) = 0 /\ end_ (InputMask.sel s) = 0) /\
  (fst (InputMask.backspace s) = false -> r = s) /\
  (fst (InputMask.backspace s) = true ->
   (forall j,
       arr_get (InputMask.value r) j =
       if (lo <=? j) && (j <? end_ (InputMask.sel s)) && Pattern.isEditableIndex p j
       then Some (InputMask.placeholderChar s)
       else arr_get (InputMask.value s) j) /\
   InputMask.sel r = {| start := lo; end_ := lo |}).
Proof.
  intros W Hal Hc p r collapsed lo.
  destruct ((start (InputMask.sel s) =? 0) && (end_ (InputMask.sel s) =? 0)) eqn:H0.
  - assert (Hb : InputMask.backspace s = (false, s))
      by (unfold InputMask.backspace; now rewrite H0).
    apply andb_true_iff in H0. destruct H0 as [A B]. apply Z.eqb_eq in A, B.
    unfold r. rewrite Hb. cbn [fst snd].
    split; [split; auto|]. split; [reflexivity|discriminate].
  - destruct (backspace_fields s Hc H0) as [Ht [Hv [_ [_ Hsel]]]].
    specialize (Hsel Hal). fold p r collapsed in Hv, Hsel.
    rewrite Ht. split; [|split; [discriminate|]].
    + split; [discriminate|]. intros [A B]. rewrite A, B in H0. discriminate.
    + intros _. split.
      * intros j. rewrite Hv. unfold lo. destruct collapsed eqn:C.
        -- apply Z.eqb_eq in C. rewrite <- C.
           destruct (Z.eq_dec j (start (InputMask.sel s) - 1)) as [->|Hne].
           ++ replace (start (InputMask.sel s) - 1 <=? start (InputMask.sel s) - 1)
                with true by (symmetry; apply Z.leb_le; lia).
              replace (start (InputMask.sel s) - 1 <? start (InputMask.sel s))
                with true by (symmetry; apply Z.ltb_lt; lia).
              cbn [andb].
              destruct (Pattern.isEditableIndex p (start (InputMask.sel s) - 1)) eqn:Ed;
                [|reflexivity].
              apply arr_get_set_same. apply (wf_index_nonneg p W _ Ed).
           ++ replace ((start (InputMask.sel s) - 1 <=? j)
                       && (j <? start (InputMask.sel s))) with false
                by (symmetry; apply andb_false_iff;
                    destruct (Z_lt_ge_dec j (start (InputMask.sel s) - 1));
                    [left; apply Z.leb_gt; lia|right; apply Z.ltb_ge; lia]).
              cbn [andb].
              destruct (Pattern.isEditableIndex p (start (InputMask.sel s) - 1)) eqn:Ed;
                [|reflexivity].
              apply arr_get_set_other; lia.
        -- rewrite blank_down_get by (try lia; apply (wf_index_nonneg p W)).
           replace (start (InputMask.sel s) - 1 <? j) with (start (InputMask.sel s) <=? j)
             by (destruct (start (InputMask.sel s) <=? j) eqn:A;
                 [apply Z.leb_le in A; symmetry; apply Z.ltb_lt; lia
                 |apply Z.leb_gt in A; symmetry; apply Z.ltb_ge; lia]).
           replace (j <=? end_ (InputMask.sel s) - 1) with (j <? end_ (InputMask.sel s))
             by (destruct (j <? end_ (InputMask.sel s)) eqn:A;
                 [apply Z.ltb_lt in A; symmetry; apply Z.leb_le; lia
                 |apply Z.ltb_ge in A; symmetry; apply Z.leb_gt; lia]).
           reflexivity.
      * rewrite Hsel. unfold lo. destruct collapsed eqn:C; [|reflexivity].
        apply Z.eqb_eq in C. rewrite <- C. reflexivity.
Qed.

(** X7. In every state that a new engine reaches through safe
    selections, on a mask that is not revealing, [backspace] returns
    [false] exactly when the selection is
    [{0,0}], and then changes nothing. Otherwise it blanks the editable
    slots of the selection, or the slot left of a collapsed cursor if it
    is editable, and leaves every other entry alone; a collapsed cursor
    moves one position to the left, over literal slots too, and a range
    collapses to its start. *)
Theorem backspace_outcome (props : InputMaskProps) (s0 : InputMask.t) (ops : list op) :
  InputMask.new props = Ok s0 ->
  props_isRevealingMask props <> Some true ->
  safe_along ops s0 = true ->
  let s := run ops s0 in
  let p := InputMask.pattern s in
  let r := snd (InputMask.backspace s) in
  let collapsed := start (InputMask.sel s) =? end_ (InputMask.sel s) in
  let lo := if collapsed then start (InputMask.sel s) - 1 else start (InputMask.sel s) in
  (fst (InputMask.backspace s) = false <->
   start (InputMask.sel s) = 0 /\ end_ (InputMask.sel s) = 0) /\
  (fst (InputMask.backspace s) = false -> r = s) /\
  (fst (InputMask.backspace s) = true ->
   (forall j,
       arr_get (InputMask.value r) j =
       if (lo <=? j) && (j <? end_ (InputMask.sel s)) && Pattern.isEditableIndex p j
       then Some (InputMask.placeholderChar s)
       else arr_get (InputMask.value s) j) /\
   InputMask.sel r = {| start := lo; end_ := lo |}).
Proof.
  intros Hnew Hrev _.
  destruct (reached props s0 ops Hnew) as [W [[Hal _] Hc]].
  exact (backspace_at (run ops s0) W Hal (Hc Hrev)).
Qed.

(** [backspace_outcome] on the mask [(111) 111-1111] after the paste of
    four digits and the selection of a range. *)
Lemma backspace_outcome_witness :
  match InputMask.new (props_of "(111) 111-1111") with
  | Ok s0 =>
      let s := run [Paste "(4155"; SetSelection {| start := 2; end_ := 7 |}] s0 in
      let p := InputMask.pattern s in
      let r := snd (InputMask.backspace s) in
      let collapsed := start (InputMask.sel s) =? end_ (InputMask.sel s) in
      let lo := if collapsed then start (InputMask.sel s) - 1 else start (InputMask.sel s) in
      (fst (InputMask.backspace s) = false <->
       start (InputMask.sel s) = 0 /\ end_ (InputMask.sel s) = 0) /\
      (fst (InputMask.backspace s) = false -> r = s) /\
      (fst (InputMask.backspace s) = true ->
       (forall j,
           arr_get (InputMask.value r) j =
           if (lo <=? j) && (j <? end_ (InputMask.sel s)) && Pattern.isEditableIndex p j
           then Some (InputMask.placeholderChar s)
           else arr_get (InputMask.value s) j) /\
       InputMask.sel r = {| start := lo; end_ := lo |})
  | Err _ => False
  end.
Proof.
  assert (A : match InputMask.new (props_of "(111) 111-1111") with
              | Ok s0 =>
                  safe_along [Paste "(4155"; SetSelection {| start := 2; end_ := 7 |}] s0
                  = true
              | Err _ => False
              end) by (vm_compute; reflexivity).
  destruct (InputMask.new (props_of "(111) 111-1111")) as [s0|e] eqn:E; [|exact A].
  apply (backspace_outcome (props_of "(111) 111-1111") s0 _ E); [discriminate|exact A].
Defined.

(** ** [paste] as a run of [input] calls *)

Lemma slen_append (a b : string) : slen (a ++ b) = slen a + slen b.
Proof.
  unfold slen. induction a as [|c r IH]; simpl String.length; [reflexivity|]. lia.
Qed.

Lemma charAt_append (pre : string) (c : ascii) (r : string) :
  charAt (pre ++ String c r) (slen pre) = String c EmptyString.
Proof.
  unfold charAt, slen.
  destruct (Z.of_nat (String.length pre) <? 0) eqn:E; [apply Z.ltb_lt in E; lia|].
  rewrite Nat2Z.id. clear E.
  induction pre as [|a t IH]; simpl; [reflexivity|exact IH].
Qed.

Lemma append_step (pre : string) (c : ascii) (r : string) :
  (pre ++ String c r)%string = ((pre ++ String c EmptyString) ++ r)%string.
Proof. induction pre as [|a t IH]; simpl; [reflexivity|]. now rewrite IH. Qed.

Lemma paste_loop_typing (snap : InputMask.snapshot) :
  forall rest pre s,
    all_accepted rest s = true ->
    InputMask.paste_loop snap (pre ++ rest) (String.length rest) (slen pre) s
    = (true, type_string rest s).
Proof.
  induction rest as [|c r IH]; intros pre s Hacc; [reflexivity|].
  cbn [String.length InputMask.paste_loop type_string all_accepted] in *.
  replace (slen pre <? slen (pre ++ String c r)) with true
    by (symmetry; apply Z.ltb_lt; rewrite slen_append; unfold slen; simpl String.length;
        lia).
  cbn [andb].
  destruct (start (InputMask.sel s) <=? Pattern.lastEditableIndex (InputMask.pattern s));
    [|reflexivity].
  rewrite charAt_append. apply andb_true_iff in Hacc. destruct Hacc as [H1 H2].
  destruct (InputMask.input s (String c EmptyString)) as [valid s1].
  cbn [fst snd] in *. subst valid.
  rewrite append_step.
  replace (slen pre + 1) with (slen (pre ++ String c EmptyString))
    by (rewrite slen_append; reflexivity).
  now apply IH.
Qed.

(** X8. When the cursor is not left of the first editable slot, a paste
    whose characters [input] accepts one after the other returns [true]
    and leaves the engine exactly as these [input] calls leave it;
    characters that remain once the cursor has passed the last editable
    slot are dropped. *)
Theorem paste_as_typing (s : InputMask.t) (str : string) :
  Pattern.firstEditableIndex (InputMask.pattern s) <= start (InputMask.sel s) ->
  all_accepted str s = true ->
  InputMask.paste s str = (true, type_string str s).
Proof.
  intros Hge Hacc. unfold InputMask.paste.
  replace (start (InputMask.sel s) <? Pattern.firstEditableIndex (InputMask.pattern s))
    with false by (symmetry; apply Z.ltb_ge; exact Hge).
  exact (paste_loop_typing _ str EmptyString s Hacc).
Qed.

(** [paste_as_typing] on the mask [11/11]: six digits are pasted, of
    which four find a slot. *)
Lemma paste_as_typing_witness :
  match InputMask.new (props_of "11/11") with
  | Ok s0 => InputMask.paste s0 "122599" = (true, type_string "122599" s0)
  | Err _ => False
  end.
Proof.
  assert (A : match InputMask.new (props_of "11/11") with
              | Ok s0 =>
                  (Pattern.firstEditableIndex (InputMask.pattern s0)
                   <=? start (InputMask.sel s0)) = true /\
                  all_accepted "122599" s0 = true
              | Err _ => False
              end) by (vm_compute; split; reflexivity).
  destruct (InputMask.new (props_of "11/11")) as [s0|e] eqn:E; [|exact A].
  destruct A as [A1 A2]. apply Z.leb_le in A1.
  exact (paste_as_typing s0 "122599" A1 A2).
Defined.

(** ** A paste that is too short for the static prefix *)

Lemma charAt_end (str : string) (i : Z) : slen str <= i -> charAt str i = EmptyString.
Proof.
  unfold charAt, slen. intros H.
  destruct (i <? 0); [reflexivity|].
  assert (G : forall n t, (String.length t <= n)%nat -> String.get n t = None).
  { intros n t. revert n. induction t as [|a r IH]; intros n Hn; [reflexivity|].
    destruct n as [|n]; simpl in *; [lia|]. apply IH. lia. }
  rewrite G by lia. reflexivity.
Qed.

Lemma static_prefix_short (p : Pattern.t) (str : string) (l : Z) :
  Forall (fun c => String.length c = 1%nat) (Pattern.pattern p) ->
  slen str < l ->
  forall fuel i,
    0 <= i <= slen str ->
    (Z.to_nat (l - i) <= fuel)%nat ->
    InputMask.static_prefix_matches p str fuel i l = false.
Proof.
  intros Hch Hl. induction fuel as [|f IH]; intros i Hi Hf; [lia|].
  cbn [InputMask.static_prefix_matches].
  replace (i <? l) with true by (symmetry; apply Z.ltb_lt; lia).
  destruct (negb (jsval_eqb (Some (charAt str i)) (str_get (Pattern.pattern p) i))) eqn:C;
    [reflexivity|].
  apply negb_false_iff, jsval_eqb_eq in C.
  destruct (Z.eq_dec i (slen str)) as [->|Hne]; [|apply IH; lia].
  rewrite charAt_end in C by lia. symmetry in C.
  rewrite Forall_forall in Hch. apply zth_In, Hch in C. discriminate.
Qed.

(** X9. In every state that a new engine reaches, a paste that starts
    left of the first editable slot with fewer characters than there are
    slots up to it is rejected, and the engine is as before the call:
    with the cursor in the static prefix the empty string cannot be
    pasted. With the cursor elsewhere the paste of the empty string
    returns [true] and changes nothing. *)
Theorem paste_short_of_prefix (props : InputMaskProps) (s0 : InputMask.t) (ops : list op)
        (str : string) :
  InputMask.new props = Ok s0 ->
  let s := run ops s0 in
  let fei := Pattern.firstEditableIndex (InputMask.pattern s) in
  (start (InputMask.sel s) < fei -> slen str < fei - start (InputMask.sel s) ->
   InputMask.paste s str = (false, s)) /\
  (fei <= start (InputMask.sel s) -> InputMask.paste s EmptyString = (true, s)).
Proof.
  intros Hnew s fei.
  destruct (reached props s0 ops Hnew) as [W _]. fold s in W.
  unfold InputMask.paste. fold fei. split.
  - intros Hlt Hshort.
    replace (start (InputMask.sel s) <? fei) with true by (symmetry; apply Z.ltb_lt; lia).
    rewrite (static_prefix_short (InputMask.pattern s) str _ (wf_chars _ W) Hshort);
      [reflexivity| |lia].
    unfold slen. lia.
  - intros Hge.
    replace (start (InputMask.sel s) <? fei) with false by (symmetry; apply Z.ltb_ge; lia).
    reflexivity.
Qed.

(** [paste_short_of_prefix] on a new engine for the mask
    [(111) 111-1111], whose cursor is at 0, before the opening bracket. *)
Lemma paste_short_of_prefix_witness :
  match InputMask.new (props_of "(111) 111-1111") with
  | Ok s0 => InputMask.paste s0 EmptyString = (false, s0)
  | Err _ => False
  end.
Proof.
  assert (A : match InputMask.new (props_of "(111) 111-1111") with
              | Ok s0 =>
                  (start (InputMask.sel s0)
                   <? Pattern.firstEditableIndex (InputMask.pattern s0)) = true /\
                  (slen EmptyString
                   <? Pattern.firstEditableIndex (InputMask.pattern s0)
                      - start (InputMask.sel s0)) = true
              | Err _ => False
              end) by (vm_compute; split; reflexivity).
  destruct (InputMask.new (props_of "(111) 111-1111")) as [s0|e] eqn:E; [|exact A].
  destruct A as [A1 A2]. apply Z.ltb_lt in A1, A2.
  exact (proj1 (paste_short_of_prefix (props_of "(111) 111-1111") s0 [] EmptyString E)
               A1 A2).
Defined.

(** ** One [undo] takes back a run of typing *)

Lemma typing_step (s0 s : InputMask.t) (char : string) :
  InputMask._history s0 = [] ->
  InputMask._lastOp s0 = None ->
  keys_ok s -> typing s0 s ->
  keys_ok (snd (InputMask.input s char)) /\ typing s0 (snd (InputMask.input s char)).
Proof.
  intros Hh0 Ho0 Hk Ht.
  pose proof (ok_keys_step (Input char) s eq_refl Hk) as Hk'. cbn [step] in Hk'.
  split; [exact Hk'|].
  destruct (input_effect s char (ko_rev s Hk) (ko_index s Hk))
    as [[_ ->]|[Hacc [pos [Hpos [Ep [Ei [Eo [Es Eh]]]]]]]]; [exact Ht|].
  destruct (accepted_input_fields s char Hacc) as [_ [_ [_ [Hls Hsel]]]].
  specialize (Hsel (ko_sel s Hk)).
  assert (Hcol : start (InputMask.sel (snd (InputMask.input s char)))
                 = end_ (InputMask.sel (snd (InputMask.input s char))))
    by (rewrite Hsel; reflexivity).
  right. destruct Ht as [->|[l [Th [Td [To [Tl Tc]]]]]].
  - destruct Eh as [[_ [Hheap Hhist]]|[Hse _]].
    + exists (List.length (InputMask.heap s0)). rewrite Hhist, Hh0, Hheap.
      split; [reflexivity|]. split; [|auto].
      replace (List.length (InputMask.heap s0))
        with (List.length (store_set (InputMask.heap s0) (InputMask.selection s0)
                             {| start := pos; end_ := pos |}))
        by apply store_set_length.
      apply deref_alloc_new.
    + unfold InputMask.starts_entry in Hse. rewrite Ho0 in Hse. discriminate.
  - destruct Eh as [[Hse _]|[_ [Hheap Hhist]]].
    + unfold InputMask.starts_entry in Hse. rewrite To, Tl, Tc in Hse.
      unfold InputMask.opt_str_eqb in Hse.
      rewrite String.eqb_refl, !Z.eqb_refl in Hse. discriminate.
    + exists l. rewrite Hhist, Hheap. split; [exact Th|]. split; [|auto].
      pose proof (ko_items s Hk) as Hit. rewrite Th in Hit.
      inversion Hit as [|? ? [A B] _]; subst. cbn [first_item HistoryItem.selection] in *.
      rewrite deref_set_other by congruence. exact Td.
Qed.

Lemma typing_run (s0 : InputMask.t) (chars : list string) :
  InputMask._history s0 = [] ->
  InputMask._lastOp s0 = None ->
  forall s, keys_ok s -> typing s0 s ->
            keys_ok (run (map Input chars) s) /\ typing s0 (run (map Input chars) s).
Proof.
  intros Hh0 Ho0. unfold run. induction chars as [|c r IH]; intros s Hk Ht; simpl; [auto|].
  destruct (typing_step s0 s c Hh0 Ho0 Hk Ht) as [Hk' Ht']. now apply IH.
Qed.

Lemma typing_undo (s0 : InputMask.t) (chars : list string) :
  keys_ok s0 ->
  InputMask._history s0 = [] ->
  InputMask._lastOp s0 = None ->
  let s := run (map Input chars) s0 in
  (s = s0 /\ InputMask.undo s = Returns false s) \/
  (exists u,
      InputMask.undo s = Returns true u /\
      fst (InputMask.getValue u) = fst (InputMask.getValue s0) /\
      InputMask.sel u = InputMask.sel s0 /\
      InputMask.undo u = Returns false u).
Proof.
  intros Hk0 Hh0 Ho0 s.
  destruct (typing_run s0 chars Hh0 Ho0 s0 Hk0 (or_introl eq_refl)) as [Hk Ht].
  fold s in Hk, Ht.
  destruct Ht as [Ht|[l [Th [Td [To [Tl Tc]]]]]].
  - left. split; [exact Ht|]. rewrite Ht. unfold InputMask.undo. now rewrite Hh0.
  - right. rewrite (undo_first s [] _ Hk Th). eexists. split; [reflexivity|].
    pose proof (ko_items s Hk) as Hit. rewrite Th in Hit.
    inversion Hit as [|? ? [A B] _]; subst. cbn [first_item HistoryItem.selection] in *.
    split; [|split].
    + rewrite !getValue_concealed by (try exact (ko_rev s0 Hk0); exact (ko_rev s Hk)).
      cbn. apply join_split.
    + unfold InputMask.sel at 1. cbn.
      change (nth l (InputMask.heap s ++ [InputMask.sel s]) {| start := 0; end_ := 0 |})
        with (deref (InputMask.heap s ++ [InputMask.sel s]) l).
      rewrite deref_alloc_old by exact A. exact Td.
    + unfold InputMask.undo. cbn. rewrite Th. reflexivity.
Qed.

Lemma new_engine_fresh (props : InputMaskProps) (s0 : InputMask.t) :
  InputMask.new props = Ok s0 ->
  InputMask._history s0 = [] /\ InputMask._lastOp s0 = None.
Proof.
  intros Hnew.
  destruct (engine_new_inversion props s0 Hnew) as [source [p [_ [_ [_ Hs0]]]]].
  rewrite Hs0. split; reflexivity.
Qed.

(** X10. On a mask that is not revealing, any number of [input] calls on
    a new engine leave at most one history item: if none was accepted the
    engine is unchanged and [undo] returns [false]; otherwise a single
    [undo] brings back the value and the selection of the new engine,
    and a second [undo] returns [false]. *)
Theorem typing_undone_at_once (props : InputMaskProps) (s0 : InputMask.t)
        (chars : list string) :
  InputMask.new props = Ok s0 ->
  props_isRevealingMask props <> Some true ->
  let s := run (map Input chars) s0 in
  (s = s0 /\ InputMask.undo s = Returns false s) \/
  (exists u,
      InputMask.undo s = Returns true u /\
      fst (InputMask.getValue u) = fst (InputMask.getValue s0) /\
      InputMask.sel u = InputMask.sel s0 /\
      InputMask.undo u = Returns false u).
Proof.
  intros Hnew Hrev.
  destruct (new_engine_fresh props s0 Hnew) as [Hh0 Ho0].
  exact (typing_undo s0 chars (keys_ok_new props s0 Hnew Hrev) Hh0 Ho0).
Qed.

(** [typing_undone_at_once] on the mask [(111) 111-1111] for the
    keystrokes 4, 1, x and 5. *)
Lemma typing_undone_at_once_witness :
  match InputMask.new (props_of "(111) 111-1111") with
  | Ok s0 =>
      let s := run (map Input ["4"; "1"; "x"; "5"]) s0 in
      (s = s0 /\ InputMask.undo s = Returns false s) \/
      (exists u,
          InputMask.undo s = Returns true u /\
          fst (InputMask.getValue u) = fst (InputMask.getValue s0) /\
          InputMask.sel u = InputMask.sel s0 /\
          InputMask.undo u = Returns false u)
  | Err _ => False
  end.
Proof.
  destruct (InputMask.new (props_of "(111) 111-1111")) as [s0|e] eqn:E.
  - apply (typing_undone_at_once (props_of "(111) 111-1111") s0 _ E). discriminate.
  - hnf in E. discriminate.
Defined.

(** ** [input] ends the replay of the history *)

Lemma len_splice_from {A : Type} (l : list A) (k : Z) :
  0 <= k -> len (js_splice l k (len l - k)) <= k.
Proof.
  intros Hk. unfold js_splice. pose proof (len_nonneg l) as Hl.
  replace (k <? 0) with false by (symmetry; apply Z.ltb_ge; lia).
  rewrite len_app. unfold len in *. rewrite length_firstn, length_skipn. lia.
Qed.

Lemma accepted_input_history (s : InputMask.t) (char : string) :
  fst (InputMask.input s char) = true ->
  exists tail,
    (List.length tail <= 1)%nat /\
    InputMask._history (snd (InputMask.input s char)) =
    match InputMask._historyIndex s with
    | Some k => js_splice (InputMask._history s) k (len (InputMask._history s) - k)
    | None => InputMask._history s
    end ++ tail.
Proof.
  unfold InputMask.input, copy.
  destruct ((start (InputMask.sel s) =? end_ (InputMask.sel s)) && _); [discriminate|].
  destruct (getValue_heap s) as [_ [_ [Hhi Hidx]]].
  destruct (InputMask.getValue s) as [v s1]. cbn [snd] in Hhi, Hidx.
  cbv beta iota zeta.
  match goal with
  | |- context [if ?c && negb ?d then _ else _] => destruct (c && negb d)
  end; [discriminate|].
  intros _.
  match goal with
  | |- context [if Pattern.isEditableIndex ?p ?i then _ else _] =>
      destruct (Pattern.isEditableIndex p i)
  end;
    cbn [InputMask._historyIndex InputMask.set_sel InputMask.with_heap InputMask.with_value];
    rewrite Hidx; destruct (InputMask._historyIndex s);
    destruct (InputMask.starts_entry _ _ _); cbn; rewrite Hhi;
    first [eexists [_]; split; [simpl; lia|reflexivity]
          |exists []; split; [simpl; lia|now rewrite app_nil_r]].
Qed.

(** X11. An [input] that is accepted ends the replay of the history,
    whatever the state of the engine: [_historyIndex] is [null]
    afterwards, a [redo] returns [false] and changes nothing, and if the
    engine was undoing at index [k], at most [k + 1] history items are
    left, the states that could have been redone being dropped. *)
Theorem input_ends_replay (s : InputMask.t) (char : string) :
  fst (InputMask.input s char) = true ->
  let r := snd (InputMask.input s char) in
  InputMask._historyIndex r = None /\
  InputMask.redo r = Returns false r /\
  forall k, InputMask._historyIndex s = Some k -> 0 <= k ->
            len (InputMask._history r) <= k + 1.
Proof.
  intros Hacc r.
  destruct (accepted_input_fields s char Hacc) as [_ [Hidx _]]. fold r in Hidx.
  split; [exact Hidx|]. split.
  - unfold InputMask.redo. rewrite Hidx. now destruct (len (InputMask._history r) =? 0).
  - intros k Hk Hk0. destruct (accepted_input_history s char Hacc) as [tail [Ht Hh]].
    fold r in Hh. rewrite Hh, Hk, len_app.
    pose proof (len_splice_from (InputMask._history s) k Hk0) as Hs.
    assert (Hl : len tail <= 1) by (unfold len; lia). lia.
Qed.

(** [input_ends_replay] on the mask [1111]: three digits are typed, the
    cursor is moved and a fourth is typed, two undos follow, and then a
    digit is typed. *)
Lemma input_ends_replay_witness :
  match InputMask.new (props_of "1111") with
  | Ok s0 =>
      let s := run [Input "1"; Input "2"; Input "3";
                    SetSelection {| start := 1; end_ := 1 |}; Input "4"; Undo; Undo] s0 in
      let r := snd (InputMask.input s "9") in
      InputMask._historyIndex r = None /\
      InputMask.redo r = Returns false r /\
      forall k, InputMask._historyIndex s = Some k -> 0 <= k ->
                len (InputMask._history r) <= k + 1
  | Err _ => False
  end.
Proof.
  assert (A : match InputMask.new (props_of "1111") with
              | Ok s0 =>
                  fst (InputMask.input
                         (run [Input "1"; Input "2"; Input "3";
                               SetSelection {| start := 1; end_ := 1 |}; Input "4";
                               Undo; Undo] s0) "9") = true
              | Err _ => False
              end) by (vm_compute; reflexivity).
  destruct (InputMask.new (props_of "1111")) as [s0|e] eqn:E; [|exact A].
  exact (input_ends_replay _ "9" A).
Defined.

(** ** [setSelection] twice *)

Lemma setSelection_collapsed (s : InputMask.t) (x : Z) :
  let r := snd (InputMask.setSelection s {| start := x; end_ := x |}) in
  let fei := Pattern.firstEditableIndex (InputMask.pattern s) in
  InputMask.pattern r = InputMask.pattern s /\
  InputMask.value r = InputMask.value s /\
  InputMask.placeholderChar r = InputMask.placeholderChar s /\
  exists i0,
    InputMask.sel r = {| start := i0; end_ := i0 |} /\
    fei <= i0 /\
    (i0 = fei \/
     (Pattern.isEditableIndex (InputMask.pattern s) (i0 - 1) = true /\
      jsval_eqb (arr_get (InputMask.value s) (i0 - 1))
                (Some (InputMask.placeholderChar s)) = false)).
Proof.
  cbv zeta. unfold InputMask.setSelection, copy. cbv zeta.
  rewrite sel_new_sel. cbn [start end_]. rewrite Z.eqb_refl.
  set (s1 := InputMask.new_sel s {| start := x; end_ := x |}).
  assert (Hloc : (InputMask.selection s1 < List.length (InputMask.heap s1))%nat).
  { unfold s1, InputMask.new_sel. simpl. rewrite length_app. simpl. lia. }
  change (Pattern.firstEditableIndex (InputMask.pattern s1))
    with (Pattern.firstEditableIndex (InputMask.pattern s)).
  destruct (x <? Pattern.firstEditableIndex (InputMask.pattern s)) eqn:L.
  - cbn [snd]. repeat split; try reflexivity.
    exists (Pattern.firstEditableIndex (InputMask.pattern s)).
    rewrite sel_set_sel by exact Hloc. split; [reflexivity|]. split; [lia|now left].
  - apply Z.ltb_ge in L.
    destruct (find_cursor_spec s1
                (Z.to_nat (x - Pattern.firstEditableIndex (InputMask.pattern s) + 1)) x)
      as [i0 [H1 [H2 [H3 _]]]]; [exact L|reflexivity|].
    change (Pattern.firstEditableIndex (InputMask.pattern s1))
      with (Pattern.firstEditableIndex (InputMask.pattern s)) in *.
    rewrite H1. cbn [snd]. repeat split; try reflexivity.
    exists i0. rewrite sel_set_sel by exact Hloc. split; [reflexivity|]. split; [lia|].
    destruct H3 as [H3|[F1 F2]]; [now left|right].
    split; [exact F1|]. apply jsval_eqb_neq. exact F2.
Qed.

(** X12. [setSelection] is idempotent: called again with the selection
    that it left, it returns the same boolean and leaves the same
    selection, and the buffer is untouched throughout. A cursor that
    [setSelection] has placed is where [setSelection] would place it. *)
Theorem setSelection_idempotent (s : InputMask.t) (x : Selection) :
  let r := snd (InputMask.setSelection s x) in
  let r' := snd (InputMask.setSelection r (InputMask.sel r)) in
  InputMask.sel r' = InputMask.sel r /\
  fst (InputMask.setSelection r (InputMask.sel r)) = fst (InputMask.setSelection s x) /\
  InputMask.value r' = InputMask.value s.
Proof.
  destruct x as [a b]. destruct (Z.eq_dec a b) as [<-|Hab].
  - cbv zeta.
    destruct (setSelection_collapsed s a) as [Hp [Hv [Hph [i0 [Hs [Hge Hi0]]]]]].
    cbv zeta in *.
    set (r := snd (InputMask.setSelection s {| start := a; end_ := a |})) in *.
    rewrite Hs.
    assert (Hfst : forall t y, fst (InputMask.setSelection t {| start := y; end_ := y |})
                               = true).
    { intros t y. unfold InputMask.setSelection, copy. cbv zeta.
      rewrite sel_new_sel. cbn [start end_]. rewrite Z.eqb_refl.
      destruct (y <? _); [reflexivity|]. now destruct (InputMask.find_cursor _ _ _). }
    rewrite !Hfst.
    destruct (setSelection_collapsed r i0) as [_ [Hv' _]]. cbv zeta in Hv'.
    split; [|split; [reflexivity|congruence]].
    unfold InputMask.setSelection, copy. cbv zeta.
    rewrite sel_new_sel. cbn [start end_]. rewrite Z.eqb_refl.
    set (r1 := InputMask.new_sel r {| start := i0; end_ := i0 |}).
    assert (Hloc : (InputMask.selection r1 < List.length (InputMask.heap r1))%nat).
    { unfold r1, InputMask.new_sel. simpl. rewrite length_app. simpl. lia. }
    change (Pattern.firstEditableIndex (InputMask.pattern r1))
      with (Pattern.firstEditableIndex (InputMask.pattern r)).
    rewrite Hp.
    replace (i0 <? Pattern.firstEditableIndex (InputMask.pattern s)) with false
      by (symmetry; apply Z.ltb_ge; lia).
    destruct (Z.to_nat (i0 - Pattern.firstEditableIndex (InputMask.pattern s) + 1))
      as [|f] eqn:F; [lia|].
    cbn [InputMask.find_cursor].
    change (InputMask.pattern r1) with (InputMask.pattern r).
    change (InputMask.value r1) with (InputMask.value r).
    change (InputMask.placeholderChar r1) with (InputMask.placeholderChar r).
    rewrite Hp, Hv, Hph.
    replace (i0 >=? Pattern.firstEditableIndex (InputMask.pattern s)) with true
      by (symmetry; rewrite Z.geb_leb; apply Z.leb_le; lia).
    match goal with
    | |- context [if ?c then Some i0 else _] => replace c with true
    end.
    + cbn [snd]. now rewrite sel_set_sel by exact Hloc.
    + symmetry. apply orb_true_iff. destruct Hi0 as [->|[E1 E2]].
      * right. apply Z.eqb_refl.
      * left. now rewrite E1, E2.
  - cbv zeta.
    assert (Hr : InputMask.setSelection s {| start := a; end_ := b |}
                 = (false, InputMask.new_sel s {| start := a; end_ := b |})).
    { unfold InputMask.setSelection, copy. cbv zeta. rewrite sel_new_sel. cbn [start end_].
      destruct (a =? b) eqn:E; [apply Z.eqb_eq in E; contradiction|reflexivity]. }
    rewrite Hr. cbn [fst snd]. rewrite sel_new_sel.
    assert (Hr' : InputMask.setSelection (InputMask.new_sel s {| start := a; end_ := b |})
                    {| start := a; end_ := b |}
                  = (false, InputMask.new_sel (InputMask.new_sel s {| start := a; end_ := b |})
                              {| start := a; end_ := b |})).
    { unfold InputMask.setSelection, copy. cbv zeta. rewrite sel_new_sel. cbn [start end_].
      destruct (a =? b) eqn:E; [apply Z.eqb_eq in E; contradiction|reflexivity]. }
    rewrite Hr'. cbn [fst snd]. rewrite sel_new_sel. repeat split; reflexivity.
Qed.

(** ** The lengths of the value and of the raw value *)

Lemma zth_split_charAt (str : string) (i : Z) :
  0 <= i < slen str -> zth (js_split str) i = Some (charAt str i).
Proof.
  unfold zth, charAt, slen. intros H.
  destruct (i <? 0) eqn:E; [apply Z.ltb_lt in E; lia|].
  assert (G : forall t n, (n < String.length t)%nat ->
                          nth_error (js_split t) n
                          = Some (match String.get n t with
                                  | Some c => String c EmptyString
                                  | None => EmptyString
                                  end)).
  { induction t as [|a r IH]; intros n Hn; simpl in *; [lia|].
    destruct n as [|n]; [reflexivity|]. apply IH. lia. }
  apply G. lia.
Qed.

Lemma slen_join_chars (v : list jsval) :
  Forall (fun x => exists c, x = Some c /\ String.length c = 1%nat) v ->
  slen (js_join v) = len v.
Proof.
  intros H. rewrite <- slen_split, <- (len_map Some). now rewrite split_join_chars.
Qed.

Lemma raw_loop_chars (p : Pattern.t) (v : list jsval) :
  Forall (fun x => exists c, x = Some c /\ String.length c = 1%nat) v ->
  forall i,
    Forall (fun x => exists c, x = Some c /\ String.length c = 1%nat)
           (InputMask.getRawValue_loop p v i) /\
    len (InputMask.getRawValue_loop p v i) = editable_count p (List.length v) i.
Proof.
  induction 1 as [|x r Hx _ IH]; intros i; cbn [InputMask.getRawValue_loop
                                                  List.length editable_count].
  - split; [constructor|reflexivity].
  - destruct (IH (i + 1)) as [A B].
    destruct (Pattern.isEditableIndex p i).
    + split; [now constructor|]. rewrite len_cons, B. reflexivity.
    + split; [exact A|]. rewrite B. reflexivity.
Qed.

(** X13. On a mask that is not revealing, with a placeholder of one
    character and format characters that store one character per
    accepted character, in every state that the engine's operations
    reach, [getValue()] returns one character per slot of the pattern,
    the character at [i] being the buffer's entry [i], and
    [getRawValue()] returns one character per editable slot. *)
Theorem value_lengths (props : InputMaskProps) (s0 : InputMask.t) (ops : list op) :
  InputMask.new props = Ok s0 ->
  props_isRevealingMask props <> Some true ->
  String.length (match props_placeholderChar props with
                 | Some c => c
                 | None => DEFAULT_PLACEHOLDER_CHAR
                 end) = 1%nat ->
  one_char_formats (mergeFormatCharacters (props_formatCharacters props)) ->
  let s := run ops s0 in
  let p := InputMask.pattern s in
  slen (fst (InputMask.getValue s)) = Pattern.length p /\
  (forall i, 0 <= i < Pattern.length p ->
             arr_get (InputMask.value s) i = Some (charAt (fst (InputMask.getValue s)) i)) /\
  slen (InputMask.getRawValue s) = editable_slots p.
Proof.
  intros Hnew Hrev Hph Hfc s p.
  assert (Hok : engine_ok s) by (apply ok_run; eapply engine_ok_new; eassumption).
  destruct Hok as [Hst Hv _]. fold p in Hst, Hv.
  pose proof (good_buffer_chars p _ Hv) as Hch. destruct Hv as [Hl _].
  rewrite (getValue_concealed s (st_rev _ _ Hst)). cbn [fst].
  pose proof (slen_join_chars _ Hch) as Hj.
  split; [lia|]. split.
  - intros i Hi. rewrite <- (split_join_chars _ Hch) at 1.
    rewrite arr_get_map_Some. apply zth_split_charAt. lia.
  - unfold InputMask.getRawValue, editable_slots. fold p.
    destruct (raw_loop_chars p _ Hch 0) as [A B].
    rewrite (slen_join_chars _ A), B. f_equal. unfold len in Hl. lia.
Qed.

(** [value_lengths] on the mask [(111) 111-1111] with the built-in
    format characters, for a run that uses every operation. *)
Lemma value_lengths_witness :
  match InputMask.new (props_of "(111) 111-1111") with
  | Ok s0 =>
      let s := run [Input "5"; Input "x"; Backspace; Paste "(555) 12"; Undo; Undo; Redo;
                    SetSelection {| start := 3; end_ := 7 |}; Input "9";
                    SetValue "4155552671"; GetValue; Redo; Undo] s0 in
      let p := InputMask.pattern s in
      slen (fst (InputMask.getValue s)) = Pattern.length p /\
      (forall i, 0 <= i < Pattern.length p ->
                 arr_get (InputMask.value s) i
                 = Some (charAt (fst (InputMask.getValue s)) i)) /\
      slen (InputMask.getRawValue s) = editable_slots p
  | Err _ => False
  end.
Proof.
  destruct (InputMask.new (props_of "(111) 111-1111")) as [s0|e] eqn:E.
  - apply (value_lengths (props_of "(111) 111-1111") s0 _ E).
    + discriminate.
    + reflexivity.
    + exact default_one_char.
  - hnf in E. discriminate.
Defined.

(** ** The built-in format characters *)

(** X14. Every built-in format character rejects [undefined], the
    default placeholder and every string that is not one character; what
    it accepts it stores as one character, which it accepts again and
    which its transform leaves alone. *)
Theorem builtin_formats (sym : string) (f : Format) :
  fc_lookup DEFAULT_FORMAT_CHARACTERS sym = Some f ->
  validate f None = false /\
  validate f (Some DEFAULT_PLACEHOLDER_CHAR) = false /\
  forall c, validate f (Some c) = true ->
            String.length c = 1%nat /\
            String.length (apply_format f c) = 1%nat /\
            validate f (Some (apply_format f c)) = true /\
            apply_format f (apply_format f c) = apply_format f c.
Proof.
  intros Hl.
  assert (Hone : forall c, validate f (Some c) = true -> String.length c = 1%nat).
  { intros c. simpl in Hl.
    repeat match type of Hl with
           | (if ?b then _ else _) = _ => destruct b
           end;
      inversion Hl; subst f; cbn [validate]; apply single_char_test_length. }
  assert (Hrej : validate f None = false /\
                 validate f (Some DEFAULT_PLACEHOLDER_CHAR) = false).
  { simpl in Hl.
    repeat match type of Hl with
           | (if ?b then _ else _) = _ => destruct b
           end;
      inversion Hl; subst f; split; reflexivity. }
  destruct Hrej as [R1 R2]. split; [exact R1|]. split; [exact R2|].
  intros c Hv. split; [exact (Hone c Hv)|]. exact (default_faithful sym f c Hl Hv).
Qed.

(** [builtin_formats] on the symbol [A]. *)
Lemma builtin_formats_witness :
  let f := {| validate := LETTER_RE; transform := Some toUpperCase |} in
  validate f None = false /\
  validate f (Some DEFAULT_PLACEHOLDER_CHAR) = false /\
  forall c, validate f (Some c) = true ->
            String.length c = 1%nat /\
            String.length (apply_format f c) = 1%nat /\
            validate f (Some (apply_format f c)) = true /\
            apply_format f (apply_format f c) = apply_format f c.
Proof.
  exact (builtin_formats "A" {| validate := LETTER_RE; transform := Some toUpperCase |}
           eq_refl).
Defined.

(** ** [undo] and [redo] inside the history *)

(** X15. While the engine is undoing at a history index [k] that is
    neither the first nor the last, [undo] followed by [redo], and [redo]
    followed by [undo] (when [k + 1] is not the last index either), both
    return [true] and leave the engine at the history item [k]: its
    value, its selection object and its [lastOp], with [_historyIndex]
    and the history as they were, whatever the buffer and the selection
    were before. *)
Theorem undo_redo_in_replay (t : InputMask.t) (k : Z) (h : HistoryItem.t) :
  InputMask._historyIndex t = Some k ->
  zth (InputMask._history t) k = Some h ->
  (0 < k -> k < len (InputMask._history t) - 1 ->
   exists u, InputMask.undo t = Returns true u /\
             InputMask.redo u = Returns true (InputMask.restore_item t h)) /\
  (k + 1 < len (InputMask._history t) - 1 ->
   exists r, InputMask.redo t = Returns true r /\
             InputMask.undo r = Returns true (InputMask.restore_item t h)).
Proof.
  intros Hk Hz. pose proof (zth_Some_range _ _ _ Hz) as Hr. split.
  - intros H0 Hlt.
    destruct (zth_in_range (InputMask._history t) (k - 1)) as [h' Hz']; [lia|].
    assert (Hu : InputMask.undo t
                 = Returns true (InputMask.restore_item
                                   (InputMask.with_historyIndex t (Some (k - 1))) h')).
    { unfold InputMask.undo. rewrite Hk. cbn [InputMask.opt_Z_eqb].
      replace (len (InputMask._history t) =? 0) with false
        by (symmetry; apply Z.eqb_neq; lia).
      replace (k =? 0) with false by (symmetry; apply Z.eqb_neq; lia).
      cbn [orb InputMask._history InputMask.with_historyIndex]. now rewrite Hz'. }
    rewrite Hu. eexists. split; [reflexivity|].
    unfold InputMask.redo. cbn [InputMask.restore_item InputMask._history
      InputMask._historyIndex InputMask.with_historyIndex InputMask.with_value
      InputMask.with_selection InputMask.with_lastOp].
    replace (len (InputMask._history t) =? 0) with false
      by (symmetry; apply Z.eqb_neq; lia).
    replace (k - 1 + 1) with k by lia. rewrite Hz.
    replace (k =? len (InputMask._history t) - 1) with false
      by (symmetry; apply Z.eqb_neq; lia).
    f_equal. destruct t. simpl in *. now subst.
  - intros Hlt.
    destruct (zth_in_range (InputMask._history t) (k + 1)) as [h' Hz']; [lia|].
    assert (Hre : InputMask.redo t
                  = Returns true (InputMask.restore_item
                                    (InputMask.with_historyIndex t (Some (k + 1))) h')).
    { unfold InputMask.redo. rewrite Hk.
      replace (len (InputMask._history t) =? 0) with false
        by (symmetry; apply Z.eqb_neq; lia).
      cbn [InputMask._history InputMask.with_historyIndex]. rewrite Hz'.
      replace (k + 1 =? len (InputMask._history t) - 1) with false
        by (symmetry; apply Z.eqb_neq; lia).
      reflexivity. }
    rewrite Hre. eexists. split; [reflexivity|].
    unfold InputMask.undo. cbn [InputMask.restore_item InputMask._history
      InputMask._historyIndex InputMask.with_historyIndex InputMask.with_value
      InputMask.with_selection InputMask.with_lastOp InputMask.opt_Z_eqb].
    replace (len (InputMask._history t) =? 0) with false
      by (symmetry; apply Z.eqb_neq; lia).
    replace (k + 1 =? 0) with false by (symmetry; apply Z.eqb_neq; lia).
    cbn [orb]. replace (k + 1 - 1) with k by lia. rewrite Hz.
    f_equal. destruct t. simpl in *. now subst.
Qed.

(** [undo_redo_in_replay] on the mask [1111], two undos into a history
    of five items. *)
Lemma undo_redo_in_replay_witness :
  match InputMask.new (props_of "1111") with
  | Ok s0 =>
      let t := run [Input "1"; Backspace; Input "2"; Backspace; Undo; Undo] s0 in
      match zth (InputMask._history t) 2 with
      | Some h =>
          (exists u, InputMask.undo t = Returns true u /\
                     InputMask.redo u = Returns true (InputMask.restore_item t h)) /\
          (exists r, InputMask.redo t = Returns true r /\
                     InputMask.undo r = Returns true (InputMask.restore_item t h))
      | None => False
      end
  | Err _ => False
  end.
Proof.
  assert (A : match InputMask.new (props_of "1111") with
              | Ok s0 =>
                  let t := run [Input "1"; Backspace; Input "2"; Backspace; Undo; Undo] s0 in
                  InputMask._historyIndex t = Some 2 /\
                  (2 + 1 <? len (InputMask._history t) - 1) = true /\
                  zth (InputMask._history t) 2 <> None
              | Err _ => False
              end) by (vm_compute; repeat split; discriminate).
  destruct (InputMask.new (props_of "1111")) as [s0|e] eqn:E; [|exact A].
  cbv zeta in *. destruct A as [A1 [A2 A3]]. apply Z.ltb_lt in A2.
  destruct (zth (InputMask._history _) 2) as [h|] eqn:Z; [|now apply A3].
  destruct (undo_redo_in_replay _ 2 h A1 Z) as [B1 B2].
  split; [apply B1; lia|apply B2; lia].
Defined.

(** ** [backspace] after [input] *)

Lemma run_snoc (ops : list op) (o : op) (s : InputMask.t) :
  run (ops ++ [o]) s = step o (run ops s).
Proof. unfold run. now rewrite fold_left_app. Qed.

(** X16. In every state that a new engine reaches, on a mask that is not
    revealing, let a character be typed at a collapsed cursor on an
    editable slot [x] and be accepted, and let [backspace] follow. If the
    slot after [x] is editable, or [x] is the last slot, the two calls
    leave the cursor at [x] and the buffer as it was but for slot [x],
    which is blank. If a literal follows [x], the cursor has stepped over
    it, [backspace] only steps back over one literal, and the typed
    character stays in the buffer. *)
Theorem input_then_backspace (props : InputMaskProps) (s0 : InputMask.t) (ops : list op)
        (char : string) :
  InputMask.new props = Ok s0 ->
  props_isRevealingMask props <> Some true ->
  let s := run ops s0 in
  let p := InputMask.pattern s in
  let x := start (InputMask.sel s) in
  end_ (InputMask.sel s) = x ->
  Pattern.isEditableIndex p x = true ->
  fst (InputMask.input s char) = true ->
  let r1 := snd (InputMask.input s char) in
  let r := snd (InputMask.backspace r1) in
  fst (InputMask.backspace r1) = true /\
  if Pattern.isEditableIndex p (x + 1) || (Pattern.length p <=? x + 1)
  then InputMask.sel r = {| start := x; end_ := x |} /\
       forall j, arr_get (InputMask.value r) j =
                 if j =? x then Some (InputMask.placeholderChar s)
                 else arr_get (InputMask.value s) j
  else x < start (InputMask.sel r) /\
       end_ (InputMask.sel r) = start (InputMask.sel r) /\
       start (InputMask.sel r) = start (InputMask.sel r1) - 1 /\
       arr_get (InputMask.value r) x = Some (Pattern.transform p char x) /\
       forall j, arr_get (InputMask.value r) j = arr_get (InputMask.value r1) j.
Proof.
  intros Hnew Hrev s p x Hcol Hed Hacc r1 r.
  destruct (reached props s0 ops Hnew) as [W [[Hal _] Hc]]. specialize (Hc Hrev).
  destruct (reached props s0 (ops ++ [Input char]) Hnew) as [W1 [[Hal1 _] Hc1]].
  specialize (Hc1 Hrev). rewrite run_snoc in W1, Hal1, Hc1. cbn [step] in W1, Hal1, Hc1.
  fold s in W, Hal, Hc, W1, Hal1, Hc1. fold r1 in W1, Hal1, Hc1.
  destruct (input_static s char) as [Hp Hph]. fold r1 in Hp, Hph.
  pose proof (wf_bounds p W x Hed) as Hb. pose proof (wf_editable p W x Hed) as [Hx _].
  destruct (input_at s char W Hal Hc Hacc) as [Hv [Hsel [Hlt [He Hs]]]].
  fold s p x r1 in Hv, Hsel, Hlt, He, Hs.
  replace (Z.max x (Pattern.firstEditableIndex p)) with x in * by lia.
  set (pos := InputMask.skip_static p (Z.to_nat (Pattern.length p - (x + 1))) (x + 1)) in *.
  destruct (backspace_at r1 W1 Hal1 Hc1) as [Bf [_ Bt]].
  fold r in Bf, Bt. rewrite Hsel in Bf, Bt. cbn [start end_] in Bf, Bt.
  rewrite Z.eqb_refl, Hp, Hph in Bt. fold p in Bt.
  assert (Htrue : fst (InputMask.backspace r1) = true).
  { destruct (fst (InputMask.backspace r1)); [reflexivity|].
    destruct Bf as [Bf _]. specialize (Bf eq_refl). lia. }
  destruct (Bt Htrue) as [Bv Bs]. split; [exact Htrue|].
  assert (Hv1 : forall j, arr_get (InputMask.value r1) j =
                          if j =? x then Some (Pattern.transform p char x)
                          else arr_get (InputMask.value s) j).
  { intros j. rewrite Hv, Hcol, Hed, andb_true_r.
    replace ((x <? j) && (j <? x)) with false
      by (symmetry; apply andb_false_iff; destruct (Z_lt_ge_dec x j);
          [right; apply Z.ltb_ge; lia|left; apply Z.ltb_ge; lia]).
    reflexivity. }
  destruct (Pattern.isEditableIndex p (x + 1) || (Pattern.length p <=? x + 1)) eqn:C.
  - assert (Hpos : pos = x + 1).
    { destruct (Z.eq_dec pos (x + 1)) as [|Hne]; [assumption|].
      destruct (Hs (x + 1)) as [S1 S2]; [lia|].
      apply orb_true_iff in C. destruct C as [C|C]; [congruence|].
      apply Z.leb_le in C. lia. }
    rewrite Bs, Hpos. replace (x + 1 - 1) with x by lia. split; [reflexivity|].
    intros j. rewrite Bv, Hpos, Hv1. replace (x + 1 - 1) with x by lia.
    destruct (Z.eqb_spec j x) as [->|Hne].
    + rewrite Z.leb_refl, Hed.
      replace (x <? x + 1) with true by (symmetry; apply Z.ltb_lt; lia). reflexivity.
    + replace ((x <=? j) && (j <? x + 1)) with false
        by (symmetry; apply andb_false_iff; destruct (Z_lt_ge_dec j x);
            [left; apply Z.leb_gt; lia|right; apply Z.ltb_ge; lia]).
      reflexivity.
  - apply orb_false_iff in C. destruct C as [C1 C2]. apply Z.leb_gt in C2.
    assert (Hpos : x + 1 < pos).
    { destruct (Z.eq_dec pos (x + 1)) as [Heq|Hne]; [|lia].
      rewrite Heq in He. rewrite He in C1 by lia. discriminate. }
    assert (Hsame : forall j, arr_get (InputMask.value r) j = arr_get (InputMask.value r1) j).
    { intros j. rewrite Bv.
      destruct ((pos - 1 <=? j) && (j <? pos)) eqn:D; [|reflexivity].
      apply andb_true_iff in D. destruct D as [D1 D2].
      apply Z.leb_le in D1. apply Z.ltb_lt in D2.
      destruct (Hs j) as [_ S2]; [lia|]. now rewrite S2. }
    rewrite Bs, Hsel. cbn [start end_].
    split; [lia|]. split; [reflexivity|]. split; [reflexivity|].
    split; [|exact Hsame]. rewrite Hsame, Hv1, Z.eqb_refl. reflexivity.
Qed.

(** [input_then_backspace] on the mask [11/11]: the second digit is
    typed before the literal, and [backspace] leaves it in place. *)
Lemma input_then_backspace_witness :
  match InputMask.new (props_of "11/11") with
  | Ok s0 =>
      let s := run [Input "1"] s0 in
      let r1 := snd (InputMask.input s "2") in
      let r := snd (InputMask.backspace r1) in
      fst (InputMask.backspace r1) = true /\
      fst (InputMask.getValue r) = "12/__" /\
      InputMask.sel r = {| start := 2; end_ := 2 |}
  | Err _ => False
  end.
Proof.
  assert (A : match InputMask.new (props_of "11/11") with
              | Ok s0 =>
                  let s := run [Input "1"] s0 in
                  let r := snd (InputMask.backspace (snd (InputMask.input s "2"))) in
                  (end_ (InputMask.sel s) =? start (InputMask.sel s)) = true /\
                  Pattern.isEditableIndex (InputMask.pattern s) (start (InputMask.sel s))
                  = true /\
                  fst (InputMask.input s "2") = true /\
                  fst (InputMask.getValue r) = "12/__" /\
                  InputMask.sel r = {| start := 2; end_ := 2 |}
              | Err _ => False
              end) by (vm_compute; repeat split; reflexivity).
  destruct (InputMask.new (props_of "11/11")) as [s0|e] eqn:E; [|exact A].
  cbv zeta in *. destruct A as [A1 [A2 [A3 [A4 A5]]]]. apply Z.eqb_eq in A1.
  split; [|split; [exact A4|exact A5]].
  exact (proj1 (input_then_backspace (props_of "11/11") s0 [Input "1"] "2" E
                  ltac:(discriminate) A1 A2 A3)).
Defined.

(** ** A failed paste before any [undo] *)

(** [paste_atomic_before_undo] on the mask [11]: after one digit is
    typed, a paste of a letter and a digit fails. *)
Lemma paste_atomic_before_undo_witness :
  match InputMask.new (props_of "11") with
  | Ok s0 =>
      state_view (snd (InputMask.paste (run [Input "1"] s0) "x2"))
      = state_view (run [Input "1"] s0)
  | Err _ => False
  end.
Proof.
  assert (A : match InputMask.new (props_of "11") with
              | Ok s0 => fst (InputMask.paste (run [Input "1"] s0) "x2") = false
              | Err _ => False
              end) by (vm_compute; reflexivity).
  destruct (InputMask.new (props_of "11")) as [s0|e] eqn:E; [|exact A].
  exact (paste_atomic_before_undo (props_of "11") s0 [Input "1"] "x2" E eq_refl A).
Defined.

(** ** [undo] after [paste] *)

Lemma type_string_run (str : string) :
  forall s, exists chars, type_string str s = run (map Input chars) s.
Proof.
  induction str as [|c r IH]; intros s; cbn [type_string].
  - exists []. reflexivity.
  - destruct (start (InputMask.sel s) <=? _).
    + destruct (IH (snd (InputMask.input s (String c EmptyString)))) as [chars H].
      exists (String c EmptyString :: chars). rewrite H. reflexivity.
    + exists []. reflexivity.
Qed.

(** X17. On a mask that is not revealing, a paste into a new engine
    whose cursor is not left of the first editable slot, all of whose
    characters [input] accepts, leaves at most one history item: a single
    [undo] brings back the value and the selection of the new engine (or
    returns [false] if nothing was pasted), and a second [undo] returns
    [false]. *)
Theorem paste_undone_at_once (props : InputMaskProps) (s0 : InputMask.t) (str : string) :
  InputMask.new props = Ok s0 ->
  props_isRevealingMask props <> Some true ->
  Pattern.firstEditableIndex (InputMask.pattern s0) <= start (InputMask.sel s0) ->
  all_accepted str s0 = true ->
  fst (InputMask.paste s0 str) = true /\
  let s := snd (InputMask.paste s0 str) in
  (s = s0 /\ InputMask.undo s = Returns false s) \/
  (exists u,
      InputMask.undo s = Returns true u /\
      fst (InputMask.getValue u) = fst (InputMask.getValue s0) /\
      InputMask.sel u = InputMask.sel s0 /\
      InputMask.undo u = Returns false u).
Proof.
  intros Hnew Hrev Hge Hacc.
  assert (Hp : InputMask.paste s0 str = (true, type_string str s0)).
  { unfold InputMask.paste.
    replace (start (InputMask.sel s0) <? Pattern.firstEditableIndex (InputMask.pattern s0))
      with false by (symmetry; apply Z.ltb_ge; exact Hge).
    exact (paste_loop_typing _ str EmptyString s0 Hacc). }
  rewrite Hp. cbn [fst snd]. split; [reflexivity|].
  destruct (type_string_run str s0) as [chars ->].
  destruct (new_engine_fresh props s0 Hnew) as [Hh0 Ho0].
  exact (typing_undo s0 chars (keys_ok_new props s0 Hnew Hrev) Hh0 Ho0).
Qed.

(** [paste_undone_at_once] on the mask [11/11] for the paste of six
    digits. *)
Lemma paste_undone_at_once_witness :
  match InputMask.new (props_of "11/11") with
  | Ok s0 =>
      fst (InputMask.paste s0 "122599") = true /\
      let s := snd (InputMask.paste s0 "122599") in
      (s = s0 /\ InputMask.undo s = Returns false s) \/
      (exists u,
          InputMask.undo s = Returns true u /\
          fst (InputMask.getValue u) = fst (InputMask.getValue s0) /\
          InputMask.sel u = InputMask.sel s0 /\
          InputMask.undo u = Returns false u)
  | Err _ => False
  end.
Proof.
  assert (A : match InputMask.new (props_of "11/11") with
              | Ok s0 =>
                  (Pattern.firstEditableIndex (InputMask.pattern s0)
                   <=? start (InputMask.sel s0)) = true /\
                  all_accepted "122599" s0 = true
              | Err _ => False
              end) by (vm_compute; split; reflexivity).
  destruct (InputMask.new (props_of "11/11")) as [s0|e] eqn:E; [|exact A].
  destruct A as [A1 A2]. apply Z.leb_le in A1.
  apply (paste_undone_at_once (props_of "11/11") s0 "122599" E); [discriminate|exact A1|exact A2].
Defined.

(** ** [backspace] while undoing *)

Lemma backspace_history (s : InputMask.t) :
  fst (InputMask.backspace s) = true ->
  InputMask._historyIndex (snd (InputMask.backspace s)) = InputMask._historyIndex s /\
  exists tail,
    (List.length tail <= 1)%nat /\
    InputMask._history (snd (InputMask.backspace s)) =
    match InputMask._historyIndex s with
    | Some k => js_splice (InputMask._history s) k (len (InputMask._history s) - k)
    | None => InputMask._history s
    end ++ tail.
Proof.
  unfold InputMask.backspace, copy.
  destruct ((start (InputMask.sel s) =? 0) && _); [discriminate|].
  destruct (getValue_heap s) as [_ [_ [Hhi Hidx]]].
  destruct (InputMask.getValue s) as [v s1]. cbn [snd] in Hhi, Hidx.
  cbv beta iota zeta. intros _.
  destruct (start (InputMask.sel s1) =? end_ (InputMask.sel s1));
    [destruct (Pattern.isEditableIndex _ _); [destruct (Pattern.isRevealingMask _)|]|];
    cbn [InputMask._historyIndex InputMask.set_sel InputMask.with_heap InputMask.with_value];
    rewrite Hidx; destruct (InputMask._historyIndex s);
    destruct (InputMask.starts_entry _ _ _); cbn; rewrite ?Hidx, Hhi;
    (split; [reflexivity|]);
    first [eexists [_]; split; [simpl; lia|reflexivity]
          |exists []; split; [simpl; lia|now rewrite app_nil_r]].
Qed.

(** X18. [backspace] does not end the replay of the history as [input]
    does: if the engine is undoing at index [k] and a [backspace] is
    accepted, [_historyIndex] is still [k] while at most [k + 1] history
    items are left. A [redo] that follows cannot succeed: it returns
    [false] if the history is empty and raises a [TypeError] otherwise,
    having moved [_historyIndex] to [k + 1]. *)
Theorem backspace_keeps_replay (s : InputMask.t) (k : Z) :
  InputMask._historyIndex s = Some k ->
  0 <= k ->
  fst (InputMask.backspace s) = true ->
  let r := snd (InputMask.backspace s) in
  InputMask._historyIndex r = Some k /\
  len (InputMask._history r) <= k + 1 /\
  InputMask.redo r =
  if len (InputMask._history r) =? 0 then Returns false r
  else Throws (InputMask.with_historyIndex r (Some (k + 1))).
Proof.
  intros Hk Hk0 Hacc r.
  destruct (backspace_history s Hacc) as [Hidx [tail [Ht Hh]]]. fold r in Hidx, Hh.
  rewrite Hk in Hidx, Hh.
  assert (Hlen : len (InputMask._history r) <= k + 1).
  { rewrite Hh, len_app.
    pose proof (len_splice_from (InputMask._history s) k Hk0) as Hs.
    assert (Hl : len tail <= 1) by (unfold len; lia). lia. }
  split; [exact Hidx|]. split; [exact Hlen|].
  unfold InputMask.redo. destruct (len (InputMask._history r) =? 0); [reflexivity|].
  rewrite Hidx. cbn [InputMask._history InputMask.with_historyIndex].
  rewrite zth_beyond by lia. reflexivity.
Qed.

(** [backspace_keeps_replay] on the mask [11]: after the keystrokes 1,
    backspace, 1 and two undos, a backspace is made. *)
Lemma backspace_keeps_replay_witness :
  match InputMask.new (props_of "11") with
  | Ok s0 =>
      let s := run [Input "1"; Backspace; Input "1"; Undo; Undo] s0 in
      let r := snd (InputMask.backspace s) in
      InputMask._historyIndex r = Some 1 /\
      len (InputMask._history r) <= 1 + 1 /\
      InputMask.redo r =
      if len (InputMask._history r) =? 0 then Returns false r
      else Throws (InputMask.with_historyIndex r (Some (1 + 1)))
  | Err _ => False
  end.
Proof.
  assert (A : match InputMask.new (props_of "11") with
              | Ok s0 =>
                  let s := run [Input "1"; Backspace; Input "1"; Undo; Undo] s0 in
                  InputMask._historyIndex s = Some 1 /\
                  fst (InputMask.backspace s) = true
              | Err _ => False
              end) by (vm_compute; split; reflexivity).
  destruct (InputMask.new (props_of "11")) as [s0|e] eqn:E; [|exact A].
  cbv zeta in A. destruct A as [A1 A2].
  exact (backspace_keeps_replay _ 1 A1 ltac:(lia) A2).
Defined.

(** ** The empty value *)

Lemma getValue_emptyValue (s : InputMask.t) :
  InputMask.emptyValue (snd (InputMask.getValue s)) = InputMask.emptyValue s.
Proof. unfold InputMask.getValue. destruct (Pattern.isRevealingMask _); reflexivity. Qed.

Lemma input_emptyValue (s : InputMask.t) (char : string) :
  InputMask.emptyValue (snd (InputMask.input s char)) = InputMask.emptyValue s.
Proof.
  unfold InputMask.input, copy.
  destruct ((start (InputMask.sel s) =? end_ (InputMask.sel s)) && _); [reflexivity|].
  pose proof (getValue_emptyValue s) as He.
  destruct (InputMask.getValue s) as [v s1]. cbn [snd] in He. cbv beta iota zeta.
  match goal with
  | |- context [if ?c && negb ?d then _ else _] => destruct (c && negb d)
  end; [exact He|].
  match goal with
  | |- context [if Pattern.isEditableIndex ?p ?i then _ else _] =>
      destruct (Pattern.isEditableIndex p i)
  end;
    destruct (InputMask._historyIndex _); destruct (InputMask.starts_entry _ _ _);
    cbn; exact He.
Qed.

Lemma backspace_emptyValue (s : InputMask.t) :
  InputMask.emptyValue (snd (InputMask.backspace s)) = InputMask.emptyValue s.
Proof.
  unfold InputMask.backspace, copy.
  destruct ((start (InputMask.sel s) =? 0) && _); [reflexivity|].
  pose proof (getValue_emptyValue s) as He.
  destruct (InputMask.getValue s) as [v s1]. cbn [snd] in He. cbv beta iota zeta.
  destruct (start (InputMask.sel s1) =? end_ (InputMask.sel s1));
    [destruct (Pattern.isEditableIndex _ _); [destruct (Pattern.isRevealingMask _)|]|];
    destruct (InputMask._historyIndex _); destruct (InputMask.starts_entry _ _ _);
    cbn; exact He.
Qed.

Lemma paste_loop_emptyValue (snap : InputMask.snapshot) (pastedInput : string) :
  forall fuel i s,
    InputMask.emptyValue (snd (InputMask.paste_loop snap pastedInput fuel i s))
    = InputMask.emptyValue s.
Proof.
  induction fuel as [|f IH]; intros i s; cbn [InputMask.paste_loop]; [reflexivity|].
  destruct ((i <? slen pastedInput) && _); [|reflexivity].
  pose proof (input_emptyValue s (charAt pastedInput i)) as Hin.
  destruct (InputMask.input s (charAt pastedInput i)) as [valid s']. cbn [snd] in Hin.
  destruct valid.
  - now rewrite IH.
  - match goal with |- context [if ?c then _ else _] => destruct c end.
    + now rewrite IH.
    + exact Hin.
Qed.

Lemma step_emptyValue (o : op) (s : InputMask.t) :
  InputMask.emptyValue (step o s) = InputMask.emptyValue s.
Proof.
  destruct o; cbn [step].
  - apply input_emptyValue.
  - apply backspace_emptyValue.
  - unfold InputMask.paste, copy. destruct (start (InputMask.sel s) <? _).
    + destruct (InputMask.static_prefix_matches _ _ _ _ _); [|reflexivity].
      now rewrite paste_loop_emptyValue.
    + apply paste_loop_emptyValue.
  - unfold InputMask.undo, copy.
    destruct ((len (InputMask._history s) =? 0) || _); [reflexivity|].
    destruct (InputMask._historyIndex s) as [k|].
    + destruct (zth _ _); reflexivity.
    + destruct (zth _ _); [|reflexivity].
      unfold InputMask.getValue. destruct (Pattern.isRevealingMask _); cbv beta iota zeta;
        match goal with |- context [if ?c then _ else _] => destruct c end;
        reflexivity.
  - unfold InputMask.redo.
    destruct (len (InputMask._history s) =? 0); [reflexivity|].
    destruct (InputMask._historyIndex s) as [k|]; [|reflexivity].
    cbv zeta. destruct (zth _ _) as [h|]; [|reflexivity].
    destruct (k + 1 =? _); [destruct (HistoryItem.startUndo h)|]; reflexivity.
  - unfold InputMask.setSelection, copy. cbv zeta.
    destruct (start _ =? end_ _); [|reflexivity].
    destruct (start _ <? _); [reflexivity|].
    destruct (InputMask.find_cursor _ _ _); reflexivity.
  - reflexivity.
  - apply getValue_emptyValue.
Qed.

Lemma run_emptyValue (ops : list op) :
  forall s, InputMask.emptyValue (run ops s) = InputMask.emptyValue s.
Proof.
  unfold run. induction ops as [|o r IH]; intros s; simpl; [reflexivity|].
  now rewrite IH, step_emptyValue.
Qed.

Lemma arr_ext (a : list jsval) :
  forall b, len a = len b ->
            (forall i, 0 <= i < len a -> arr_get a i = arr_get b i) -> a = b.
Proof.
  induction a as [|x r IH]; intros [|y t] Hl H.
  - reflexivity.
  - rewrite len_nil, len_cons in Hl. pose proof (len_nonneg t). lia.
  - rewrite len_nil, len_cons in Hl. pose proof (len_nonneg r). lia.
  - rewrite !len_cons in Hl. pose proof (len_nonneg r) as Hr. f_equal.
    + specialize (H 0). rewrite !arr_get_cons_0 in H. apply H. rewrite len_cons. lia.
    + apply IH; [lia|]. intros i Hi. specialize (H (i + 1)).
      rewrite !arr_get_cons_pos in H by lia. replace (i + 1 - 1) with i in H by lia.
      apply H. rewrite len_cons. lia.
Qed.

(** X19. On a mask that is not revealing, with a placeholder of one
    character and format characters that store one character per
    accepted character, in every state that the engine's operations
    reach, [getValue()] equals [emptyValue] exactly when every editable
    slot holds the placeholder. *)
Theorem empty_value_test (props : InputMaskProps) (s0 : InputMask.t) (ops : list op) :
  InputMask.new props = Ok s0 ->
  props_isRevealingMask props <> Some true ->
  String.length (match props_placeholderChar props with
                 | Some c => c
                 | None => DEFAULT_PLACEHOLDER_CHAR
                 end) = 1%nat ->
  one_char_formats (mergeFormatCharacters (props_formatCharacters props)) ->
  let s := run ops s0 in
  fst (InputMask.getValue s) = InputMask.emptyValue s <->
  forall i, Pattern.isEditableIndex (InputMask.pattern s) i = true ->
            arr_get (InputMask.value s) i = Some (InputMask.placeholderChar s).
Proof.
  intros Hnew Hrev Hph Hfc s.
  assert (Hok : engine_ok s) by (apply ok_run; eapply engine_ok_new; eassumption).
  destruct Hok as [Hst Hv _].
  destruct (run_static ops s0) as [Hp _]. fold s in Hp.
  assert (He : InputMask.emptyValue s
               = js_join (Pattern.formatValue (InputMask.pattern s) [])).
  { unfold s. rewrite run_emptyValue. fold s. rewrite Hp.
    destruct (engine_new_inversion props s0 Hnew) as [source [p [_ [_ [_ Hs0]]]]].
    rewrite Hs0. reflexivity. }
  set (p := InputMask.pattern s) in *.
  pose proof (formatValue_good p _ [] Hst) as Hg.
  pose proof (good_buffer_chars p _ Hv) as Hc1.
  pose proof (good_buffer_chars p _ Hg) as Hc2.
  rewrite (getValue_concealed s (st_rev _ _ Hst)), He. cbn [fst].
  pose proof (st_wf _ _ Hst) as W. pose proof (wf_length p W) as HL.
  pose proof (len_nonneg (Pattern.pattern p)) as HN.
  assert (Hempty : forall i, 0 <= i < Pattern.length p ->
                             arr_get (Pattern.formatValue p []) i =
                             if Pattern.isEditableIndex p i
                             then Some (InputMask.placeholderChar s)
                             else str_get (Pattern.pattern p) i).
  { intros i Hi. unfold Pattern.formatValue.
    rewrite (formatValue_loop_empty p (st_rev _ _ Hst)) by lia.
    rewrite Z.add_0_l, <- (st_ph _ _ Hst). reflexivity. }
  destruct Hv as [Hl Hentry]. destruct Hg as [Hl2 _]. split.
  - intros Hj i Hed.
    assert (Heq : InputMask.value s = Pattern.formatValue p []).
    { rewrite <- (split_join_chars _ Hc1), <- (split_join_chars _ Hc2). now rewrite Hj. }
    pose proof (wf_editable p W i Hed) as [Hi _].
    rewrite Heq, (Hempty i Hi), Hed. reflexivity.
  - intros Hall. f_equal. apply arr_ext; [lia|].
    intros i Hi. rewrite Hl in Hi. rewrite (Hempty i Hi).
    destruct (Pattern.isEditableIndex p i) eqn:Ed; [now apply Hall|].
    destruct (Hentry i Hi) as [c [Hx [_ Hk]]]. rewrite Ed in Hk. now rewrite Hx, Hk.
Qed.

(** [empty_value_test] on the mask [(111) 111-1111]: a digit is typed
    and deleted again. *)
Lemma empty_value_test_witness :
  match InputMask.new (props_of "(111) 111-1111") with
  | Ok s0 =>
      let s := run [Input "4"; Backspace] s0 in
      fst (InputMask.getValue s) = InputMask.emptyValue s <->
      forall i, Pattern.isEditableIndex (InputMask.pattern s) i = true ->
                arr_get (InputMask.value s) i = Some (InputMask.placeholderChar s)
  | Err _ => False
  end.
Proof.
  destruct (InputMask.new (props_of "(111) 111-1111")) as [s0|e] eqn:E.
  - apply (empty_value_test (props_of "(111) 111-1111") s0 _ E).
    + discriminate.
    + reflexivity.
    + exact default_one_char.
  - hnf in E. discriminate.
Defined.

(** ** [setSelection] and filled slots *)


Lemma engine_ok_settled (s : InputMask.t) : engine_ok s -> settled s = true.
Proof.
  intros [Hst [Hl He] _]. unfold settled. apply andb_true_iff. split.
  - apply String.eqb_eq. exact (st_ph _ _ Hst).
  - apply forallb_forall. intros i Hi.
    assert (Ed : Pattern.isEditableIndex (InputMask.pattern s) i = true)
      by (apply existsb_Zeqb_In; exact Hi).
    destruct (wf_editable _ (st_wf _ _ Hst) i Ed) as [Hr _].
    destruct (He i Hr) as [c [Hc _]]. now rewrite Hc.
Qed.




(** ** The empty placeholder *)


